(** * Videomancer SDK: the vmprog package format and the parameter kernel

    A shallow embedding of
      - [vmprog_parameter_utils.hpp]: the control curves and the display
        string renderer,
      - [vmprog_format.hpp]: the record validators, the string, hash, TOC
        and endianness helpers and the buffer-based package validator,
      - [vmprog_crypto.hpp]: the comparison and hashing facade,
      - [vmprog_stream_reader.hpp]: the stream readers, the stream-based
        package validator and the package reader,
    followed by the properties of the format specification that concern
    them and by further properties of the code.

    Conventions.  A C++ [uintN_t] is a [Z] in [[0, 2^N)]; every operation
    whose C++ result is reduced modulo [2^N] has the reduction written
    out.  An [int32_t] is a [Z] in [[-2^31, 2^31)].  Enumerations have a
    32-bit underlying type and are kept as the underlying integer, since
    the code compares and switches on values read from a file. *)

From Stdlib Require Import ZArith List Lia Bool.
From Stdlib.Strings Require Import Byte.
Import ListNotations.
Local Open Scope Z_scope.

(** ** Machine integers *)

Definition u32 (z : Z) : Z := z mod 4294967296.
Definition u16 (z : Z) : Z := z mod 65536.
Definition u8 (z : Z) : Z := z mod 256.

(** Conversion of an unsigned 32-bit value to [int32_t]. *)
Definition to_i32 (z : Z) : Z := (z + 2147483648) mod 4294967296 - 2147483648.

(** [int32_t] addition as the hardware performs it (two's complement). *)
Definition add_i32 (a b : Z) : Z := to_i32 (a + b).

Definition is_i32 (z : Z) : Prop := -2147483648 <= z < 2147483648.
Definition is_u32 (z : Z) : Prop := 0 <= z < 4294967296.

(** [uint32_t] operators. *)
Definition shr32 (a n : Z) : Z := Z.shiftr a n.
Definition shl32 (a n : Z) : Z := u32 (Z.shiftl a n).
Definition mul32 (a b : Z) : Z := u32 (a * b).
Definition sub32 (a b : Z) : Z := u32 (a - b).
Definition add32 (a b : Z) : Z := u32 (a + b).
Definition div32 (a b : Z) : Z := a / b.

(** ** Parameter control modes ([vmprog_parameter_control_mode_v1_0]) *)

Module vmprog_parameter_control_mode_v1_0.
Abbreviation linear := 0%Z (only parsing).
Abbreviation linear_half := 1%Z (only parsing).
Abbreviation linear_quarter := 2%Z (only parsing).
Abbreviation linear_double := 3%Z (only parsing).
Abbreviation boolean := 4%Z (only parsing).
Abbreviation steps_4 := 5%Z (only parsing).
Abbreviation steps_8 := 6%Z (only parsing).
Abbreviation steps_16 := 7%Z (only parsing).
Abbreviation steps_32 := 8%Z (only parsing).
Abbreviation steps_64 := 9%Z (only parsing).
Abbreviation steps_128 := 10%Z (only parsing).
Abbreviation steps_256 := 11%Z (only parsing).
Abbreviation polar_degs_90 := 12%Z (only parsing).
Abbreviation polar_degs_180 := 13%Z (only parsing).
Abbreviation polar_degs_360 := 14%Z (only parsing).
Abbreviation polar_degs_720 := 15%Z (only parsing).
Abbreviation polar_degs_1440 := 16%Z (only parsing).
Abbreviation polar_degs_2880 := 17%Z (only parsing).
Abbreviation quad_in := 18%Z (only parsing).
Abbreviation quad_out := 19%Z (only parsing).
Abbreviation quad_in_out := 20%Z (only parsing).
Abbreviation sine_in := 21%Z (only parsing).
Abbreviation sine_out := 22%Z (only parsing).
Abbreviation sine_in_out := 23%Z (only parsing).
Abbreviation circ_in := 24%Z (only parsing).
Abbreviation circ_out := 25%Z (only parsing).
Abbreviation circ_in_out := 26%Z (only parsing).
Abbreviation quint_in := 27%Z (only parsing).
Abbreviation quint_out := 28%Z (only parsing).
Abbreviation quint_in_out := 29%Z (only parsing).
Abbreviation quart_in := 30%Z (only parsing).
Abbreviation quart_out := 31%Z (only parsing).
Abbreviation quart_in_out := 32%Z (only parsing).
Abbreviation expo_in := 33%Z (only parsing).
Abbreviation expo_out := 34%Z (only parsing).
Abbreviation expo_in_out := 35%Z (only parsing).
End vmprog_parameter_control_mode_v1_0.

Module Mode := vmprog_parameter_control_mode_v1_0.

(** ** The control curve ([vmprog_parameter_utils.hpp]) *)

(** [clamp_u16(value, min_val, max_val)]: the three arguments are
    [int32_t], the result is cast to [uint16_t]. *)
Definition clamp_u16 (value min_val max_val : Z) : Z :=
  u16 (if value <? min_val then min_val
       else if value >? max_val then max_val else value).

Definition max_val : Z := 1023.

(** The first [switch] of [apply_parameter_control_curve], entered for the
    polar modes only, on the wrapped input [t].  Its [default: break]
    leaves the block without returning: that is [None]. *)
Definition polar_switch (t mode : Z) : option Z :=
  match mode with
  | Mode.polar_degs_90 => Some (u16 (shr32 t 2))
  | Mode.polar_degs_180 => Some (u16 (shr32 t 1))
  | Mode.polar_degs_360 => Some (u16 t)
  | Mode.polar_degs_720 => Some (u16 (Z.land (shl32 t 1) 1023))
  | Mode.polar_degs_1440 => Some (u16 (Z.land (shl32 t 2) 1023))
  | Mode.polar_degs_2880 => Some (u16 (Z.land (shl32 t 3) 1023))
  | _ => None
  end.

(** The second [switch], on the clamped input [t]. *)
Definition clamped_switch (t mode : Z) : Z :=
  match mode with
  | Mode.linear => u16 t
  | Mode.linear_half => u16 (shr32 t 1)
  | Mode.linear_quarter => u16 (shr32 t 2)
  | Mode.linear_double => clamp_u16 (to_i32 (shl32 t 1)) 0 max_val
  | Mode.boolean => u16 (if t >=? 512 then max_val else 0)
  | Mode.steps_4 => u16 (mul32 (shr32 t 8) 341)
  | Mode.steps_8 => u16 (mul32 (shr32 t 7) 146)
  | Mode.steps_16 => u16 (mul32 (shr32 t 6) 68)
  | Mode.steps_32 => u16 (mul32 (shr32 t 5) 33)
  | Mode.steps_64 => u16 (shl32 (shr32 t 4) 4)
  | Mode.steps_128 => u16 (shl32 (shr32 t 3) 3)
  | Mode.steps_256 => u16 (shl32 (shr32 t 2) 2)
  | Mode.quad_in => u16 (div32 (mul32 t t) 1023)
  | Mode.quad_out =>
      let temp := sub32 max_val t in
      u16 (sub32 max_val (div32 (mul32 temp temp) 1023))
  | Mode.quad_in_out =>
      if t <? 512 then u16 (shr32 (mul32 t t) 9)
      else
        let temp := sub32 max_val t in
        u16 (sub32 max_val (shr32 (mul32 temp temp) 9))
  | Mode.sine_in => u16 (div32 (mul32 t t) 1023)
  | Mode.sine_out =>
      let temp := sub32 max_val t in
      u16 (sub32 max_val (div32 (mul32 temp temp) 1023))
  | Mode.sine_in_out =>
      if t <? 512 then u16 (shr32 (mul32 t t) 11)
      else
        let temp := sub32 max_val t in
        u16 (sub32 max_val (shr32 (mul32 temp temp) 11))
  | Mode.circ_in => u16 (div32 (mul32 t t) 1023)
  | Mode.circ_out =>
      let temp := sub32 max_val t in
      u16 (sub32 max_val (div32 (mul32 temp temp) 1023))
  | Mode.circ_in_out =>
      if t <? 512 then
        let t2 := div32 (mul32 t t) 1023 in
        u16 (div32 (mul32 t2 t) 1023)
      else
        let temp := sub32 max_val t in
        let temp2 := div32 (mul32 temp temp) 1023 in
        u16 (sub32 max_val (div32 (mul32 temp2 temp) 1023))
  | Mode.quint_in =>
      let t2 := div32 (mul32 t t) 1023 in
      let t4 := div32 (mul32 t2 t2) 1023 in
      u16 (div32 (mul32 t4 t) 1023)
  | Mode.quint_out =>
      let temp := sub32 max_val t in
      let temp2 := div32 (mul32 temp temp) 1023 in
      let temp4 := div32 (mul32 temp2 temp2) 1023 in
      u16 (sub32 max_val (div32 (mul32 temp4 temp) 1023))
  | Mode.quint_in_out =>
      if t <? 512 then
        let t2 := div32 (mul32 t t) 1023 in
        let t4 := div32 (mul32 t2 t2) 1023 in
        u16 (div32 (shl32 (mul32 t4 t) 4) 1046529)
      else
        let temp := sub32 max_val t in
        let temp2 := div32 (mul32 temp temp) 1023 in
        let temp4 := div32 (mul32 temp2 temp2) 1023 in
        u16 (sub32 max_val (div32 (shl32 (mul32 temp4 temp) 4) 1046529))
  | Mode.quart_in =>
      let t2 := div32 (mul32 t t) 1023 in
      u16 (div32 (mul32 t2 t2) 1023)
  | Mode.quart_out =>
      let temp := sub32 max_val t in
      let temp2 := div32 (mul32 temp temp) 1023 in
      u16 (sub32 max_val (div32 (mul32 temp2 temp2) 1023))
  | Mode.quart_in_out =>
      if t <? 512 then
        let t2 := div32 (mul32 t t) 1023 in
        u16 (div32 (shl32 (mul32 t2 t2) 3) 1046529)
      else
        let temp := sub32 max_val t in
        let temp2 := div32 (mul32 temp temp) 1023 in
        u16 (sub32 max_val (div32 (shl32 (mul32 temp2 temp2) 3) 1046529))
  | Mode.expo_in =>
      if t =? 0 then 0
      else
        let t2 := div32 (mul32 t t) 1023 in
        let t3 := div32 (mul32 t2 t) 1023 in
        u16 (div32 (mul32 t3 t) 1023)
  | Mode.expo_out =>
      if t =? max_val then max_val
      else
        let temp := sub32 max_val t in
        let temp2 := div32 (mul32 temp temp) 1023 in
        let temp3 := div32 (mul32 temp2 temp) 1023 in
        u16 (sub32 max_val (div32 (mul32 temp3 temp) 1023))
  | Mode.expo_in_out =>
      if t =? 0 then 0
      else if t =? max_val then max_val
      else if t <? 512 then
        let t2 := div32 (mul32 t t) 1023 in
        let t3 := div32 (mul32 t2 t) 1023 in
        u16 (shr32 (mul32 t3 t) 11)
      else
        let temp := sub32 max_val t in
        let temp2 := div32 (mul32 temp temp) 1023 in
        let temp3 := div32 (mul32 temp2 temp) 1023 in
        u16 (sub32 max_val (shr32 (mul32 temp3 temp) 11))
  | _ => u16 t
  end.

(** The wrapped input of the polar modes: [value % 1024] is the C++
    remainder (sign of the dividend), corrected by [+ 1024] when negative. *)
Definition polar_wrap (value : Z) : Z :=
  let wrapped := Z.rem value 1024 in
  let wrapped := if wrapped <? 0 then add_i32 wrapped 1024 else wrapped in
  u32 wrapped.

(** The clamped input of all other modes. *)
Definition clamp_input (value : Z) : Z :=
  if value <? 0 then 0 else if value >? max_val then max_val else u32 value.

(** [apply_parameter_control_curve(value, mode)], [value] an [int32_t] and
    [mode] the underlying [uint32_t] of the enumeration. *)
Definition apply_parameter_control_curve (value mode : Z) : Z :=
  let polar :=
    if (Mode.polar_degs_90 <=? mode) && (mode <=? Mode.polar_degs_2880)
    then polar_switch (polar_wrap value) mode
    else None in
  match polar with
  | Some r => r
  | None => clamped_switch (clamp_input value) mode
  end.

(** [apply_parameter_control_curve_and_scaling]: [curved] is cast to
    [uint32_t], so the difference, the product, the quotient and the sum
    are all [uint32_t]. *)
Definition apply_parameter_control_curve_and_scaling
  (value mode min_value max_value : Z) : Z :=
  let curved := apply_parameter_control_curve value mode in
  let scaled :=
    add32 min_value (div32 (mul32 (u32 curved) (u32 (max_value - min_value))) 1023) in
  u16 scaled.


(** ** Bytes and buffers *)

(** A [uint8_t] (or [char]) in memory is a [byte]; [byte_to_Z] is its
    unsigned value and [byte_of_Z] the cast of an integer to [uint8_t]. *)
Definition byte_to_Z (b : byte) : Z := Z.of_N (Byte.to_N b).

Definition byte_of_Z (z : Z) : byte :=
  match Byte.of_N (Z.to_N (z mod 256)) with
  | Some b => b
  | None => x00
  end.

(** Reading outside the buffer a pointer was given for is undefined in
    C++.  Every read of the buffer-based code goes through [load_bytes],
    which is [None] when the range [[off, off + len)] is not inside the
    buffer; a function that returns [None] has left defined behaviour. *)
Definition load_bytes (data : list byte) (off len : Z) : option (list byte) :=
  if (0 <=? off) && (0 <=? len) && (off + len <=? Z.of_nat (length data))
  then Some (firstn (Z.to_nat len) (skipn (Z.to_nat off) data))
  else None.

Definition bind {A B : Type} (x : option A) (k : A -> option B) : option B :=
  match x with
  | Some a => k a
  | None => None
  end.

Notation "x <- e ;; k" := (bind e (fun x => k))
  (at level 61, e at next level, right associativity).

(** Little-endian fields of a record that lies at the start of [bs]; [off]
    is the field's offset in the packed layout. *)
Definition field_u8 (bs : list byte) (off : Z) : Z :=
  byte_to_Z (nth (Z.to_nat off) bs x00).

Definition field_u16 (bs : list byte) (off : Z) : Z :=
  field_u8 bs off + 256 * field_u8 bs (off + 1).

Definition field_u32 (bs : list byte) (off : Z) : Z :=
  field_u8 bs off + 256 * field_u8 bs (off + 1)
  + 65536 * field_u8 bs (off + 2) + 16777216 * field_u8 bs (off + 3).

(** An [int16_t] field. *)
Definition field_i16 (bs : list byte) (off : Z) : Z :=
  let u := field_u16 bs off in
  if u <? 32768 then u else u - 65536.

Definition field_bytes (bs : list byte) (off len : Z) : list byte :=
  firstn (Z.to_nat len) (skipn (Z.to_nat off) bs).

(** The element [i] of an array of records of [size] bytes at [off]. *)
Definition field_record (bs : list byte) (off size i : Z) : list byte :=
  skipn (Z.to_nat (off + size * i)) bs.

(** The indices [0 .. n-1] of an array. *)
Definition indices (n : nat) : list Z := map Z.of_nat (seq 0 n).

(** ** Result codes and enumerations ([vmprog_format.hpp]) *)

Inductive vmprog_validation_result : Set :=
| ok
| invalid_magic
| invalid_version
| invalid_header_size
| invalid_file_size
| invalid_toc_offset
| invalid_toc_size
| invalid_toc_count
| invalid_artifact_count
| invalid_parameter_count
| invalid_value_label_count
| invalid_abi_range
| string_not_terminated
| invalid_hash
| invalid_toc_entry
| invalid_payload_offset
| invalid_parameter_values
| invalid_enum_value
| reserved_field_not_zero.

Definition result_eqb (a b : vmprog_validation_result) : bool :=
  match a, b with
  | ok, ok | invalid_magic, invalid_magic | invalid_version, invalid_version
  | invalid_header_size, invalid_header_size
  | invalid_file_size, invalid_file_size
  | invalid_toc_offset, invalid_toc_offset
  | invalid_toc_size, invalid_toc_size | invalid_toc_count, invalid_toc_count
  | invalid_artifact_count, invalid_artifact_count
  | invalid_parameter_count, invalid_parameter_count
  | invalid_value_label_count, invalid_value_label_count
  | invalid_abi_range, invalid_abi_range
  | string_not_terminated, string_not_terminated
  | invalid_hash, invalid_hash | invalid_toc_entry, invalid_toc_entry
  | invalid_payload_offset, invalid_payload_offset
  | invalid_parameter_values, invalid_parameter_values
  | invalid_enum_value, invalid_enum_value
  | reserved_field_not_zero, reserved_field_not_zero => true
  | _, _ => false
  end.

Module vmprog_toc_entry_type_v1_0.
Abbreviation none := 0%Z (only parsing).
Abbreviation config := 1%Z (only parsing).
Abbreviation signed_descriptor := 2%Z (only parsing).
Abbreviation signature := 3%Z (only parsing).
Abbreviation fpga_bitstream := 4%Z (only parsing).
Abbreviation bitstream_sd_analog := 5%Z (only parsing).
Abbreviation bitstream_sd_hdmi := 6%Z (only parsing).
Abbreviation bitstream_sd_dual := 7%Z (only parsing).
Abbreviation bitstream_hd_analog := 8%Z (only parsing).
Abbreviation bitstream_hd_hdmi := 9%Z (only parsing).
Abbreviation bitstream_hd_dual := 10%Z (only parsing).
End vmprog_toc_entry_type_v1_0.

Module EntryType := vmprog_toc_entry_type_v1_0.

Module vmprog_header_flags_v1_0.
Abbreviation none := 0%Z (only parsing).
Abbreviation signed_pkg := 1%Z (only parsing).
End vmprog_header_flags_v1_0.

Definition VMPROG_HASH_SIZE : Z := 32.
Definition VMPROG_PUBKEY_SIZE : Z := 32.
Definition VMPROG_SIGNATURE_SIZE : Z := 64.

(** ** Binary records *)

Module vmprog_artifact_hash_v1_0.
Definition struct_size : Z := 36.
Record t : Set := {
  type : Z;
  sha256 : list byte
}.
Definition view (bs : list byte) : t := {|
  type := field_u32 bs 0;
  sha256 := field_bytes bs 4 32
|}.
End vmprog_artifact_hash_v1_0.

Module vmprog_header_v1_0.
Definition expected_magic : Z := 0x47504D56.
Definition max_file_size : Z := 1048576.
Definition struct_size : Z := 64.
Record t : Set := {
  magic : Z;
  version_major : Z;
  version_minor : Z;
  header_size : Z;
  reserved_pad : Z;
  file_size : Z;
  flags : Z;
  toc_offset : Z;
  toc_bytes : Z;
  toc_count : Z;
  sha256_package : list byte
}.
Definition view (bs : list byte) : t := {|
  magic := field_u32 bs 0;
  version_major := field_u16 bs 4;
  version_minor := field_u16 bs 6;
  header_size := field_u16 bs 8;
  reserved_pad := field_u16 bs 10;
  file_size := field_u32 bs 12;
  flags := field_u32 bs 16;
  toc_offset := field_u32 bs 20;
  toc_bytes := field_u32 bs 24;
  toc_count := field_u32 bs 28;
  sha256_package := field_bytes bs 32 32
|}.
End vmprog_header_v1_0.

Module vmprog_toc_entry_v1_0.
Definition struct_size : Z := 64.
Record t : Set := {
  type : Z;
  flags : Z;
  offset : Z;
  size : Z;
  sha256 : list byte;
  reserved : list Z
}.
Definition view (bs : list byte) : t := {|
  type := field_u32 bs 0;
  flags := field_u32 bs 4;
  offset := field_u32 bs 8;
  size := field_u32 bs 12;
  sha256 := field_bytes bs 16 32;
  reserved := [field_u32 bs 48; field_u32 bs 52; field_u32 bs 56; field_u32 bs 60]
|}.
End vmprog_toc_entry_v1_0.

Module vmprog_signed_descriptor_v1_0.
Definition max_artifacts : Z := 8.
Definition struct_size : Z := 332.
Record t : Set := {
  config_sha256 : list byte;
  artifact_count : Z;
  reserved_pad : list Z;
  artifacts : list vmprog_artifact_hash_v1_0.t;
  flags : Z;
  build_id : Z
}.
Definition view (bs : list byte) : t := {|
  config_sha256 := field_bytes bs 0 32;
  artifact_count := field_u8 bs 32;
  reserved_pad := [field_u8 bs 33; field_u8 bs 34; field_u8 bs 35];
  artifacts :=
    map (fun i => vmprog_artifact_hash_v1_0.view (field_record bs 36 36 i))
        (indices 8);
  flags := field_u32 bs 324;
  build_id := field_u32 bs 328
|}.
End vmprog_signed_descriptor_v1_0.

Module vmprog_parameter_config_v1_0.
Definition name_label_max_length : Z := 32.
Definition value_label_max_length : Z := 32.
Definition suffix_label_max_length : Z := 4.
Definition max_value_labels : Z := 16.
Definition struct_size : Z := 572.
Record t : Set := {
  parameter_id : Z;
  control_mode : Z;
  min_value : Z;
  max_value : Z;
  initial_value : Z;
  display_min_value : Z;
  display_max_value : Z;
  display_float_digits : Z;
  value_label_count : Z;
  reserved_pad : list Z;
  name_label : list byte;
  value_labels : list (list byte);
  suffix_label : list byte;
  reserved : list Z
}.
Definition view (bs : list byte) : t := {|
  parameter_id := field_u32 bs 0;
  control_mode := field_u32 bs 4;
  min_value := field_u16 bs 8;
  max_value := field_u16 bs 10;
  initial_value := field_u16 bs 12;
  display_min_value := field_i16 bs 14;
  display_max_value := field_i16 bs 16;
  display_float_digits := field_u8 bs 18;
  value_label_count := field_u8 bs 19;
  reserved_pad := [field_u8 bs 20; field_u8 bs 21];
  name_label := field_bytes bs 22 32;
  value_labels := map (fun i => field_bytes bs (54 + 32 * i) 32) (indices 16);
  suffix_label := field_bytes bs 566 4;
  reserved := [field_u8 bs 570; field_u8 bs 571]
|}.
End vmprog_parameter_config_v1_0.

Module vmprog_program_config_v1_0.
Definition num_parameters : Z := 12.
Definition struct_size : Z := 7372.
Record t : Set := {
  program_id : list byte;
  program_version_major : Z;
  program_version_minor : Z;
  program_version_patch : Z;
  abi_min_major : Z;
  abi_min_minor : Z;
  abi_max_major : Z;
  abi_max_minor : Z;
  hw_mask : Z;
  core_id : Z;
  program_name : list byte;
  author : list byte;
  license : list byte;
  category : list byte;
  description : list byte;
  url : list byte;
  parameter_count : Z;
  reserved_pad : Z;
  parameters : list vmprog_parameter_config_v1_0.t;
  reserved : list Z
}.
Definition view (bs : list byte) : t := {|
  program_id := field_bytes bs 0 64;
  program_version_major := field_u16 bs 64;
  program_version_minor := field_u16 bs 66;
  program_version_patch := field_u16 bs 68;
  abi_min_major := field_u16 bs 70;
  abi_min_minor := field_u16 bs 72;
  abi_max_major := field_u16 bs 74;
  abi_max_minor := field_u16 bs 76;
  hw_mask := field_u32 bs 78;
  core_id := field_u32 bs 82;
  program_name := field_bytes bs 86 32;
  author := field_bytes bs 118 64;
  license := field_bytes bs 182 32;
  category := field_bytes bs 214 32;
  description := field_bytes bs 246 128;
  url := field_bytes bs 374 128;
  parameter_count := field_u16 bs 502;
  reserved_pad := field_u16 bs 504;
  parameters :=
    map (fun i => vmprog_parameter_config_v1_0.view (field_record bs 506 572 i))
        (indices 12);
  reserved := [field_u8 bs 7370; field_u8 bs 7371]
|}.
End vmprog_program_config_v1_0.

Module Header := vmprog_header_v1_0.
Module Entry := vmprog_toc_entry_v1_0.
Module Artifact := vmprog_artifact_hash_v1_0.
Module Descriptor := vmprog_signed_descriptor_v1_0.
Module Param := vmprog_parameter_config_v1_0.
Module Config := vmprog_program_config_v1_0.

(** [reinterpret_cast] of [data + off] to a record of [size] bytes: the
    record's bytes, when they all lie inside the buffer. *)
Definition header_at (data : list byte) (off : Z) : option Header.t :=
  bs <- load_bytes data off Header.struct_size ;; Some (Header.view bs).

Definition toc_entry_at (data : list byte) (off : Z) : option Entry.t :=
  bs <- load_bytes data off Entry.struct_size ;; Some (Entry.view bs).

Definition signed_descriptor_at (data : list byte) (off : Z)
  : option Descriptor.t :=
  bs <- load_bytes data off Descriptor.struct_size ;; Some (Descriptor.view bs).

Definition program_config_at (data : list byte) (off : Z) : option Config.t :=
  bs <- load_bytes data off Config.struct_size ;; Some (Config.view bs).

(** The array [toc[0 .. count)] at [data + off]. *)
Fixpoint toc_at (data : list byte) (off : Z) (count : nat)
  : option (list Entry.t) :=
  match count with
  | O => Some []
  | S n =>
      e <- toc_entry_at data off ;;
      rest <- toc_at data (off + Entry.struct_size) n ;;
      Some (e :: rest)
  end.

(** ** String helpers *)

Definition is_nul (b : byte) : bool := Byte.eqb b x00.

(** [is_string_terminated(str, size)], [str] being the [size] bytes of the
    field. *)
Definition is_string_terminated (str : list byte) : bool := existsb is_nul str.

(** [str[0] == '\0'] *)
Definition first_is_nul (str : list byte) : bool := is_nul (nth 0 str x00).

(** ** Structural validators *)

Definition validate_vmprog_header_v1_0 (header : Header.t) (file_size : Z)
  : vmprog_validation_result :=
  if negb (Header.magic header =? Header.expected_magic) then invalid_magic
  else if negb (Header.version_major header =? 1) then invalid_version
  else if negb (Header.header_size header =? Header.struct_size)
  then invalid_header_size
  else if (file_size <? Header.struct_size)
          || (file_size >? Header.max_file_size)
          || negb (file_size =? Header.file_size header)
  then invalid_file_size
  else if (Header.toc_count header =? 0) || (Header.toc_count header >? 256)
  then invalid_toc_count
  else if (Header.toc_offset header <? Header.struct_size)
          || (Header.toc_offset header >=? file_size)
  then invalid_toc_offset
  else
    let toc_size := mul32 (Header.toc_count header) Entry.struct_size in
    if negb (Header.toc_bytes header =? toc_size)
       || (add32 (Header.toc_offset header) toc_size >? file_size)
    then invalid_toc_size
    else ok.

Definition validate_vmprog_toc_entry_v1_0 (entry : Entry.t) (file_size : Z)
  : vmprog_validation_result :=
  if Entry.type entry =? EntryType.none then invalid_toc_entry
  else if (Entry.offset entry <? Header.struct_size)
          || (Entry.offset entry >=? file_size)
  then invalid_payload_offset
  else if (Entry.size entry >? 0)
          && (Entry.offset entry >? sub32 file_size (Entry.size entry))
  then invalid_payload_offset
  else if existsb (fun r => negb (r =? 0)) (Entry.reserved entry)
  then reserved_field_not_zero
  else ok.

Definition validate_vmprog_artifact_hash_v1_0 (artifact : Artifact.t)
  : vmprog_validation_result :=
  if Artifact.type artifact >? EntryType.bitstream_hd_dual
  then invalid_enum_value
  else ok.

(** A [for] loop whose body returns from the function with an error code
    or continues: the first error, else [ok]. *)
Fixpoint first_error {A : Type} (body : A -> vmprog_validation_result)
  (l : list A) : vmprog_validation_result :=
  match l with
  | [] => ok
  | a :: rest =>
      match body a with
      | ok => first_error body rest
      | err => err
      end
  end.

Definition validate_vmprog_signed_descriptor_v1_0 (descriptor : Descriptor.t)
  : vmprog_validation_result :=
  if Descriptor.artifact_count descriptor >? Descriptor.max_artifacts
  then invalid_artifact_count
  else if existsb (fun r => negb (r =? 0)) (Descriptor.reserved_pad descriptor)
  then reserved_field_not_zero
  else
    let count := Z.to_nat (Descriptor.artifact_count descriptor) in
    match
      first_error
        (fun a =>
           if Artifact.type a =? EntryType.none then invalid_artifact_count
           else validate_vmprog_artifact_hash_v1_0 a)
        (firstn count (Descriptor.artifacts descriptor))
    with
    | ok =>
        first_error
          (fun a =>
             if negb (Artifact.type a =? EntryType.none)
             then invalid_artifact_count
             else if existsb (fun b => negb (is_nul b)) (Artifact.sha256 a)
             then reserved_field_not_zero
             else ok)
          (skipn count (Descriptor.artifacts descriptor))
    | err => err
    end.

Definition validate_vmprog_parameter_config_v1_0 (param : Param.t)
  : vmprog_validation_result :=
  if Param.parameter_id param >? 12 then invalid_enum_value
  else if Param.control_mode param >? Mode.expo_in_out then invalid_enum_value
  else if Param.value_label_count param >? Param.max_value_labels
  then invalid_value_label_count
  else if Param.min_value param >? Param.max_value param
  then invalid_parameter_values
  else if (Param.initial_value param <? Param.min_value param)
          || (Param.initial_value param >? Param.max_value param)
  then invalid_parameter_values
  else if Param.display_min_value param >? Param.display_max_value param
  then invalid_parameter_values
  else if negb (is_string_terminated (Param.name_label param))
          || negb (is_string_terminated (Param.suffix_label param))
  then string_not_terminated
  else
    match
      first_error
        (fun label =>
           if negb (is_string_terminated label) then string_not_terminated
           else ok)
        (firstn (Z.to_nat (Param.value_label_count param))
                (Param.value_labels param))
    with
    | ok =>
        first_error
          (fun i =>
             if negb (nth i (Param.reserved_pad param) 0 =? 0)
                || negb (nth i (Param.reserved param) 0 =? 0)
             then reserved_field_not_zero
             else ok)
          (seq 0 2)
    | err => err
    end.

Definition validate_vmprog_program_config_v1_0 (config : Config.t)
  : vmprog_validation_result :=
  if Config.parameter_count config >? Config.num_parameters
  then invalid_parameter_count
  else if (Config.abi_min_major config >? Config.abi_max_major config)
          || ((Config.abi_min_major config =? Config.abi_max_major config)
              && (Config.abi_min_minor config >? Config.abi_max_minor config))
  then invalid_abi_range
  else if (Config.abi_min_major config =? 0)
          || (Config.abi_max_major config =? 0)
  then invalid_abi_range
  else if negb (is_string_terminated (Config.program_id config))
          || negb (is_string_terminated (Config.program_name config))
          || negb (is_string_terminated (Config.author config))
          || negb (is_string_terminated (Config.license config))
          || negb (is_string_terminated (Config.category config))
          || negb (is_string_terminated (Config.description config))
  then string_not_terminated
  else if first_is_nul (Config.program_id config)
          || first_is_nul (Config.program_name config)
  then string_not_terminated
  else if Config.hw_mask config =? 0 then invalid_enum_value
  else if Config.core_id config =? 0 then invalid_enum_value
  else if negb (Config.reserved_pad config =? 0)
          || existsb (fun r => negb (r =? 0)) (Config.reserved config)
  then reserved_field_not_zero
  else
    first_error validate_vmprog_parameter_config_v1_0
      (firstn (Z.to_nat (Config.parameter_count config))
              (Config.parameters config)).

(** ** Public keys ([vmprog_public_keys.hpp]) *)

Definition vmprog_public_keys : list (list byte) :=
  [[xd4; xda; x2b; x01; x98; x06; x77; x89;
    x21; x75; x3d; xa9; x1d; xb8; xef; x9b;
    xb7; x9a; xac; xf4; x13; x66; x70; xfd;
    x7c; x8d; x48; x69; x1a; xd7; x4e; x4b]].

(** ** Byte sources ([vmprog_stream.hpp]) *)

(** The abstract class [vmprog_stream]: a byte source with a state of type
    [S].  [read s n] delivers the bytes stored into the caller's buffer
    (their number is the value [read] returns) and [seek s position] the
    success flag, each with the next state. *)
Class vmprog_stream (S : Type) : Type := {
  read : S -> Z -> list byte * S;
  seek : S -> Z -> bool * S
}.

Definition vmprog_stream_max_toc_entries : Z := 16.

(** A function that returns a result code and fills an output record:
    [Done a] is [ok] with the record [a]; on [Failed code] the caller does
    not use the record. *)
Inductive attempt (A : Type) : Type :=
| Failed (code : vmprog_validation_result)
| Done (a : A).

Arguments Failed {A} code.
Arguments Done {A} a.

(** ** Cryptographic facade ([vmprog_crypto.hpp]) *)

(** The two primitives come from the Monocypher library, which is not part
    of this repository: the embedding is parametric in them.
    [crypto_blake2b m] is the 32-byte BLAKE2b digest of the message [m];
    [crypto_ed25519_check sig pub msg] is [0] when the signature is valid
    and [-1] otherwise. *)
Section Crypto.

Variable crypto_blake2b : list byte -> list byte.
Variable crypto_ed25519_check : list byte -> list byte -> list byte -> Z.

(** The incremental hash context, abstracted to the bytes absorbed so far. *)
Definition sha256_ctx : Set := list byte.
Definition sha256_init : sha256_ctx := [].
Definition sha256_update (ctx : sha256_ctx) (data : list byte) : sha256_ctx :=
  ctx ++ data.
Definition sha256_final (ctx : sha256_ctx) : list byte := crypto_blake2b ctx.

Definition sha256_oneshot (data : list byte) : list byte :=
  sha256_final (sha256_update sha256_init data).

Definition ed25519_verify (sig pub msg : list byte) : bool :=
  crypto_ed25519_check sig pub msg =? 0.

(** [secure_compare(a, b, length)]: the accumulator [diff] is a [uint8_t]. *)
Definition secure_compare (a b : list byte) (length : nat) : bool :=
  let diff :=
    fold_left
      (fun diff i =>
         Z.lor diff (Z.lxor (byte_to_Z (nth i a x00)) (byte_to_Z (nth i b x00))))
      (seq 0 length) 0 in
  u8 diff =? 0.

Definition secure_compare_hash (a b : list byte) : bool := secure_compare a b 32.

Definition verify_hash (data expected_hash : list byte) : bool :=
  let computed_hash := sha256_oneshot data in
  secure_compare_hash computed_hash expected_hash.

Definition is_hash_zero (hash : list byte) : bool :=
  let zero_hash := repeat x00 32 in
  secure_compare_hash hash zero_hash.

(** ** Hash helpers ([vmprog_format.hpp]) *)

(** [calculate_package_sha256]: [None] is the [false] return (file too
    small), [Some h] the hash written to [out_hash]. *)
Definition calculate_package_sha256 (file_data : list byte) (file_size : Z)
  : option (option (list byte)) :=
  if file_size <? Header.struct_size then Some None
  else
    let ctx := sha256_init in
    prefix <- load_bytes file_data 0 32 ;;
    let ctx := sha256_update ctx prefix in
    let zeros := repeat x00 32 in
    let ctx := sha256_update ctx zeros in
    ctx <- (if file_size >? 64
            then rest <- load_bytes file_data 64 (file_size - 64) ;;
                 Some (sha256_update ctx rest)
            else Some ctx) ;;
    Some (Some (sha256_final ctx)).

Definition verify_package_sha256 (file_data : list byte) (file_size : Z)
  : option bool :=
  if file_size <? Header.struct_size then Some false
  else
    header <- header_at file_data 0 ;;
    computed <- calculate_package_sha256 file_data file_size ;;
    match computed with
    | None => Some false
    | Some computed_hash =>
        Some (secure_compare computed_hash (Header.sha256_package header) 32)
    end.

(** [verify_ed25519_signature]: the message is the 332 bytes of the
    descriptor record. *)
Definition verify_ed25519_signature
  (signature public_key signed_descriptor : list byte) : bool :=
  ed25519_verify signature public_key signed_descriptor.

Definition verify_payload_hash (payload_data expected_hash : list byte) : bool :=
  verify_hash payload_data expected_hash.

(** ** TOC helpers *)

(** [find_toc_entry]: the first entry of the type, [None] for [nullptr]. *)
Definition find_toc_entry (toc : list Entry.t) (type : Z) : option Entry.t :=
  find (fun e => Entry.type e =? type) toc.

Definition has_toc_entry (toc : list Entry.t) (type : Z) : bool :=
  match find_toc_entry toc type with
  | Some _ => true
  | None => false
  end.

Definition count_toc_entries (toc : list Entry.t) (type : Z) : Z :=
  fold_left
    (fun count e => if Entry.type e =? type then add32 count 1 else count)
    toc 0.

(** ** Package integrity *)

(** The early return [if (result != ok) return result;]. *)
Definition check (result : vmprog_validation_result)
  (k : option vmprog_validation_result) : option vmprog_validation_result :=
  match result with
  | ok => k
  | err => Some err
  end.

(** The loop of [verify_all_payload_hashes] over the entries of the TOC. *)
Fixpoint verify_payload_hashes_loop (file_data : list byte) (file_size : Z)
  (toc : list Entry.t) : option vmprog_validation_result :=
  match toc with
  | [] => Some ok
  | entry :: rest =>
      if Entry.size entry =? 0
      then verify_payload_hashes_loop file_data file_size rest
      else
        check (validate_vmprog_toc_entry_v1_0 entry file_size)
          (payload <- load_bytes file_data (Entry.offset entry) (Entry.size entry) ;;
           if negb (verify_hash payload (Entry.sha256 entry))
           then Some invalid_hash
           else verify_payload_hashes_loop file_data file_size rest)
  end.

Definition verify_all_payload_hashes (file_data : list byte) (file_size : Z)
  (header : Header.t) : option vmprog_validation_result :=
  toc <- toc_at file_data (Header.toc_offset header)
           (Z.to_nat (Header.toc_count header)) ;;
  verify_payload_hashes_loop file_data file_size toc.

Definition is_package_signed (header : Header.t) : bool :=
  negb (Z.land (Header.flags header) vmprog_header_flags_v1_0.signed_pkg
        =? vmprog_header_flags_v1_0.none).

(** ** Comprehensive package validation, buffer-based *)

(** The blocks of [validate_vmprog_package], innermost first.  The
    signature block: it stands inside the descriptor block. *)
Definition package_signature_step (file_data : list byte) (toc : list Entry.t)
  (public_key : option (list byte)) (descriptor : list byte)
  : option vmprog_validation_result :=
  match public_key with
  | None => Some invalid_hash
  | Some key =>
      match find_toc_entry toc EntryType.signature with
      | None => Some invalid_hash
      | Some sig_entry =>
          if negb (Entry.size sig_entry =? VMPROG_SIGNATURE_SIZE)
          then Some invalid_hash
          else
            signature <- load_bytes file_data (Entry.offset sig_entry)
                           VMPROG_SIGNATURE_SIZE ;;
            if negb (verify_ed25519_signature signature key descriptor)
            then Some invalid_hash
            else Some ok
      end
  end.

(** The hash block: every payload hash, then the package hash when the
    header carries one. *)
Definition package_hashes_step (file_data : list byte) (file_size : Z)
  (header : Header.t) : option vmprog_validation_result :=
  result <- verify_all_payload_hashes file_data file_size header ;;
  check result
    (if negb (is_hash_zero (Header.sha256_package header)) then
       verified <- verify_package_sha256 file_data file_size ;;
       if negb verified then Some invalid_hash else Some ok
     else Some ok).

(** The config block: the first [config] entry, when its size is that of
    the record. *)
Definition package_config_step (file_data : list byte) (toc : list Entry.t)
  : option vmprog_validation_result :=
  match find_toc_entry toc EntryType.config with
  | Some config_entry =>
      if Entry.size config_entry =? Config.struct_size then
        config <- program_config_at file_data (Entry.offset config_entry) ;;
        Some (validate_vmprog_program_config_v1_0 config)
      else Some ok
  | None => Some ok
  end.

(** The descriptor block: the first [signed_descriptor] entry, when its
    size is that of the record; the signature is verified inside it. *)
Definition package_descriptor_step (file_data : list byte) (toc : list Entry.t)
  (header : Header.t) (verify_signature : bool) (public_key : option (list byte))
  : option vmprog_validation_result :=
  match find_toc_entry toc EntryType.signed_descriptor with
  | Some desc_entry =>
      if Entry.size desc_entry =? Descriptor.struct_size then
        descriptor <- load_bytes file_data (Entry.offset desc_entry)
                        Descriptor.struct_size ;;
        check (validate_vmprog_signed_descriptor_v1_0 (Descriptor.view descriptor))
          (if verify_signature && is_package_signed header
           then package_signature_step file_data toc public_key descriptor
           else Some ok)
      else Some ok
  | None => Some ok
  end.

(** [validate_vmprog_package(file_data, file_size, verify_hashes,
    verify_signature, public_key)]; [public_key] is [None] for [nullptr].
    The TOC array is read as a whole: header validation has established
    that it lies within the first [file_size] bytes. *)
Definition validate_vmprog_package (file_data : list byte) (file_size : Z)
  (verify_hashes verify_signature : bool) (public_key : option (list byte))
  : option vmprog_validation_result :=
  if file_size <? Header.struct_size then Some invalid_file_size
  else
    header <- header_at file_data 0 ;;
    check (validate_vmprog_header_v1_0 header file_size)
      (toc <- toc_at file_data (Header.toc_offset header)
                (Z.to_nat (Header.toc_count header)) ;;
       check (first_error (fun e => validate_vmprog_toc_entry_v1_0 e file_size) toc)
         (hashes <-
            (if verify_hashes
             then package_hashes_step file_data file_size header
             else Some ok) ;;
          check hashes
            (config_result <- package_config_step file_data toc ;;
             check config_result
               (package_descriptor_step file_data toc header verify_signature
                  public_key)))).

(** [verify_with_builtin_keys]: the index of the first key that verifies,
    [None] for [false]. *)
Fixpoint verify_with_builtin_keys_from (keys : list (list byte)) (i : Z)
  (signature signed_descriptor : list byte) : option Z :=
  match keys with
  | [] => None
  | key :: rest =>
      if verify_ed25519_signature signature key signed_descriptor
      then Some i
      else verify_with_builtin_keys_from rest (i + 1) signature signed_descriptor
  end.

Definition verify_with_builtin_keys (signature signed_descriptor : list byte)
  : option Z :=
  verify_with_builtin_keys_from vmprog_public_keys 0 signature signed_descriptor.

(** ** Stream-based reading ([vmprog_stream_reader.hpp]) *)

Section Stream.

Context {S : Type} {stream : vmprog_stream S}.

Definition read_vmprog_header (s : S) : attempt Header.t * S :=
  let (sought, s) := seek s 0 in
  if negb sought then (Failed invalid_file_size, s)
  else
    let (bytes, s) := read s Header.struct_size in
    if negb (Z.of_nat (length bytes) =? Header.struct_size)
    then (Failed invalid_file_size, s)
    else (Done (Header.view bytes), s).

Definition read_and_validate_vmprog_header (s : S) (file_size : Z)
  : attempt Header.t * S :=
  match read_vmprog_header s with
  | (Failed code, s) => (Failed code, s)
  | (Done out_header, s) =>
      match validate_vmprog_header_v1_0 out_header file_size with
      | ok => (Done out_header, s)
      | err => (Failed err, s)
      end
  end.

(** The entries [out_toc[0 .. count)] of a TOC read into a buffer. *)
Definition toc_view (bytes : list byte) (count : Z) : list Entry.t :=
  map (fun i => Entry.view (field_record bytes 0 Entry.struct_size i))
      (indices (Z.to_nat count)).

Definition read_vmprog_toc (s : S) (header : Header.t) (max_toc_entries : Z)
  : attempt (list Entry.t) * S :=
  if Header.toc_count header >? max_toc_entries
  then (Failed invalid_toc_count, s)
  else
    let (sought, s) := seek s (Header.toc_offset header) in
    if negb sought then (Failed invalid_toc_offset, s)
    else
      let bytes_to_read := Header.toc_count header * Entry.struct_size in
      let (bytes, s) := read s bytes_to_read in
      if negb (Z.of_nat (length bytes) =? bytes_to_read)
      then (Failed invalid_toc_size, s)
      else (Done (toc_view bytes (Header.toc_count header)), s).

Definition read_and_validate_vmprog_toc (s : S) (header : Header.t)
  (file_size max_toc_entries : Z) : attempt (list Entry.t) * S :=
  match read_vmprog_toc s header max_toc_entries with
  | (Failed code, s) => (Failed code, s)
  | (Done out_toc, s) =>
      match first_error (fun e => validate_vmprog_toc_entry_v1_0 e file_size)
              out_toc with
      | ok => (Done out_toc, s)
      | err => (Failed err, s)
      end
  end.

(** [read_payload]: [Some payload] for [true] (then [*out_bytes_read] is
    the entry's size), [None] for [false]. *)
Definition read_payload (s : S) (entry : Entry.t) (max_payload_size : Z)
  : option (list byte) * S :=
  if Entry.size entry >? max_payload_size then (None, s)
  else
    let (sought, s) := seek s (Entry.offset entry) in
    if negb sought then (None, s)
    else
      let (bytes, s) := read s (Entry.size entry) in
      if Z.of_nat (length bytes) =? Entry.size entry
      then (Some bytes, s)
      else (None, s).

(** [read_vmprog_config]: the bytes of the record read. *)
Definition read_vmprog_config (s : S) (entry : Entry.t)
  : attempt (list byte) * S :=
  if negb (Entry.type entry =? EntryType.config)
  then (Failed invalid_toc_entry, s)
  else if negb (Entry.size entry =? Config.struct_size)
  then (Failed invalid_toc_entry, s)
  else
    let (sought, s) := seek s (Entry.offset entry) in
    if negb sought then (Failed invalid_payload_offset, s)
    else
      let (bytes, s) := read s Config.struct_size in
      if negb (Z.of_nat (length bytes) =? Config.struct_size)
      then (Failed invalid_payload_offset, s)
      else (Done bytes, s).

Definition read_and_validate_vmprog_config (s : S) (entry : Entry.t)
  (should_verify_hash : bool) : attempt (list byte) * S :=
  match read_vmprog_config s entry with
  | (Failed code, s) => (Failed code, s)
  | (Done out_config, s) =>
      match validate_vmprog_program_config_v1_0 (Config.view out_config) with
      | ok =>
          if should_verify_hash
             && negb (verify_hash out_config (Entry.sha256 entry))
          then (Failed invalid_hash, s)
          else (Done out_config, s)
      | err => (Failed err, s)
      end
  end.

(** [read_signed_descriptor]: the bytes of the record read. *)
Definition read_signed_descriptor (s : S) (entry : Entry.t)
  : attempt (list byte) * S :=
  if negb (Entry.type entry =? EntryType.signed_descriptor)
  then (Failed invalid_toc_entry, s)
  else if negb (Entry.size entry =? Descriptor.struct_size)
  then (Failed invalid_toc_entry, s)
  else
    let (sought, s) := seek s (Entry.offset entry) in
    if negb sought then (Failed invalid_payload_offset, s)
    else
      let (bytes, s) := read s Descriptor.struct_size in
      if negb (Z.of_nat (length bytes) =? Descriptor.struct_size)
      then (Failed invalid_payload_offset, s)
      else (Done bytes, s).

Definition read_and_validate_signed_descriptor (s : S) (entry : Entry.t)
  : attempt (list byte) * S :=
  match read_signed_descriptor s entry with
  | (Failed code, s) => (Failed code, s)
  | (Done out_descriptor, s) =>
      match validate_vmprog_signed_descriptor_v1_0
              (Descriptor.view out_descriptor) with
      | ok => (Done out_descriptor, s)
      | err => (Failed err, s)
      end
  end.

(** [read_signature]: [Some signature] for [true]. *)
Definition read_signature (s : S) (entry : Entry.t) : option (list byte) * S :=
  if negb (Entry.type entry =? EntryType.signature) then (None, s)
  else if negb (Entry.size entry =? VMPROG_SIGNATURE_SIZE) then (None, s)
  else
    let (sought, s) := seek s (Entry.offset entry) in
    if negb sought then (None, s)
    else
      let (bytes, s) := read s VMPROG_SIGNATURE_SIZE in
      if Z.of_nat (length bytes) =? VMPROG_SIGNATURE_SIZE
      then (Some bytes, s)
      else (None, s).

Fixpoint verify_all_payload_hashes_stream (s : S) (toc : list Entry.t)
  (scratch_buffer_size : Z) : vmprog_validation_result * S :=
  match toc with
  | [] => (ok, s)
  | entry :: rest =>
      if Entry.size entry =? 0
      then verify_all_payload_hashes_stream s rest scratch_buffer_size
      else if Entry.size entry >? scratch_buffer_size
      then (invalid_payload_offset, s)
      else
        match read_payload s entry scratch_buffer_size with
        | (None, s) => (invalid_payload_offset, s)
        | (Some payload, s) =>
            if negb (verify_hash payload (Entry.sha256 entry))
            then (invalid_hash, s)
            else verify_all_payload_hashes_stream s rest scratch_buffer_size
        end
  end.

(** The common part of the two signature verifiers: the descriptor and the
    signature read from the stream. *)
Definition read_descriptor_and_signature (s : S) (toc : list Entry.t)
  : attempt (list byte * list byte) * S :=
  match find_toc_entry toc EntryType.signed_descriptor with
  | None => (Failed invalid_toc_entry, s)
  | Some desc_entry =>
      match read_and_validate_signed_descriptor s desc_entry with
      | (Failed code, s) => (Failed code, s)
      | (Done descriptor, s) =>
          match find_toc_entry toc EntryType.signature with
          | None => (Failed invalid_toc_entry, s)
          | Some sig_entry =>
              match read_signature s sig_entry with
              | (None, s) => (Failed invalid_hash, s)
              | (Some signature, s) => (Done (descriptor, signature), s)
              end
          end
      end
  end.

Definition verify_package_signature_stream (s : S) (toc : list Entry.t)
  (public_key : list byte) : vmprog_validation_result * S :=
  match read_descriptor_and_signature s toc with
  | (Failed code, s) => (code, s)
  | (Done (descriptor, signature), s) =>
      if negb (verify_ed25519_signature signature public_key descriptor)
      then (invalid_hash, s)
      else (ok, s)
  end.

Definition verify_package_signature_builtin_keys_stream (s : S)
  (toc : list Entry.t) : vmprog_validation_result * S :=
  match read_descriptor_and_signature s toc with
  | (Failed code, s) => (code, s)
  | (Done (descriptor, signature), s) =>
      match verify_with_builtin_keys signature descriptor with
      | None => (invalid_hash, s)
      | Some _ => (ok, s)
      end
  end.

(** The blocks of [validate_vmprog_package_stream]; [scratch_buffer] tells
    whether the pointer is non-null. *)
Definition stream_hashes_step (s : S) (toc : list Entry.t) (verify_hashes : bool)
  (scratch_buffer : bool) (scratch_buffer_size : Z)
  : vmprog_validation_result * S :=
  if verify_hashes then
    if negb scratch_buffer || (scratch_buffer_size =? 0)
    then (invalid_file_size, s)
    else verify_all_payload_hashes_stream s toc scratch_buffer_size
  else (ok, s).

Definition stream_config_step (s : S) (toc : list Entry.t) (verify_hashes : bool)
  : vmprog_validation_result * S :=
  match find_toc_entry toc EntryType.config with
  | Some config_entry =>
      if Entry.size config_entry =? Config.struct_size then
        match read_and_validate_vmprog_config s config_entry verify_hashes with
        | (Failed code, s) => (code, s)
        | (Done _, s) => (ok, s)
        end
      else (ok, s)
  | None => (ok, s)
  end.

Definition stream_signature_step (s : S) (toc : list Entry.t) (header : Header.t)
  (verify_signature : bool) (public_key : option (list byte))
  : vmprog_validation_result * S :=
  if verify_signature && is_package_signed header then
    match public_key with
    | Some key => verify_package_signature_stream s toc key
    | None => verify_package_signature_builtin_keys_stream s toc
    end
  else (ok, s).

Definition validate_vmprog_package_stream (s : S) (file_size : Z)
  (verify_hashes verify_signature : bool) (public_key : option (list byte))
  (scratch_buffer : bool) (scratch_buffer_size : Z)
  : vmprog_validation_result * S :=
  match read_and_validate_vmprog_header s file_size with
  | (Failed code, s) => (code, s)
  | (Done header, s) =>
      match read_and_validate_vmprog_toc s header file_size
              vmprog_stream_max_toc_entries with
      | (Failed code, s) => (code, s)
      | (Done toc, s) =>
          match stream_hashes_step s toc verify_hashes scratch_buffer
                  scratch_buffer_size with
          | (ok, s) =>
              match stream_config_step s toc verify_hashes with
              | (ok, s) =>
                  stream_signature_step s toc header verify_signature public_key
              | (err, s) => (err, s)
              end
          | (err, s) => (err, s)
          end
      end
  end.

End Stream.

End Crypto.

(** The byte source of the repository's tests ([mock_vmprog_stream]): a
    vector and a position. *)
Record mock_vmprog_stream : Set := {
  data_ : list byte;
  position_ : Z
}.

Definition mock_read (s : mock_vmprog_stream) (size : Z)
  : list byte * mock_vmprog_stream :=
  let data_size := Z.of_nat (length (data_ s)) in
  if position_ s >=? data_size then ([], s)
  else
    let available := data_size - position_ s in
    let to_read := if size <? available then size else available in
    (firstn (Z.to_nat to_read) (skipn (Z.to_nat (position_ s)) (data_ s)),
     {| data_ := data_ s; position_ := position_ s + to_read |}).

Definition mock_seek (s : mock_vmprog_stream) (offset : Z)
  : bool * mock_vmprog_stream :=
  if offset >? Z.of_nat (length (data_ s)) then (false, s)
  else (true, {| data_ := data_ s; position_ := offset |}).

#[export] Instance mock_stream : vmprog_stream mock_vmprog_stream := {|
  read := mock_read;
  seek := mock_seek
|}.

(** ** The display string renderer ([vmprog_parameter_utils.hpp]) *)

(** The digits of [temp], least significant first, as the conversion loop
    of [uint32_to_string] stores them: at most [room] of them. *)
Fixpoint reversed_digits (room : nat) (temp : Z) : list byte :=
  match room with
  | O => []
  | S room' =>
      if temp >? 0
      then byte_of_Z (48 + temp mod 10) :: reversed_digits room' (temp / 10)
      else []
  end.

(** [uint32_to_string(value, buffer, buffer_size)]: the characters stored
    in [buffer] before the terminator; their number is the return value.
    The callers pass a local buffer of 12 bytes. *)
Definition uint32_to_string (value buffer_size : Z) : list byte :=
  if buffer_size <? 2 then []
  else if value =? 0 then [byte_of_Z 48]
  else rev (reversed_digits (Z.to_nat (buffer_size - 1)) value).

(** [fast_strcpy(dst, src, max_len)]: the characters copied to [dst[0 ..]]
    before the terminator, which is stored right after them (nothing is
    stored when [max_len] is 0; the renderer never passes 0).  [src] is the memory from the source pointer to
    the end of the record it points into; scanning past that end is
    undefined ([None]). *)
Fixpoint fast_strcpy_loop (src : list byte) (room : nat) {struct room}
  : option (list byte) :=
  match room with
  | O => Some []
  | S room' =>
      match src with
      | [] => None
      | c :: rest =>
          if is_nul c then Some []
          else copied <- fast_strcpy_loop rest room' ;; Some (c :: copied)
      end
  end.

Definition fast_strcpy (src : list byte) (max_len : Z) : option (list byte) :=
  if max_len =? 0 then Some []
  else fast_strcpy_loop src (Z.to_nat (max_len - 1)).

Definition vmprog_parameter_display_divisor_lut : list Z :=
  [1; 10; 100; 1000; 10000; 100000; 1000000].

(** The output buffer [out_str] is modelled by the writes made to it: the
    state of the renderer is the cursor [pos] and the list of writes
    [(index, byte)], oldest first. *)
Record out_state : Set := {
  pos : Z;
  writes : list (Z * byte)
}.

(** [out_str[pos++] = c] *)
Definition put (st : out_state) (c : byte) : out_state :=
  {| pos := pos st + 1; writes := writes st ++ [(pos st, c)] |}.

(** [for (i = 0; i < len && pos < out_str_size - 1; ++i) out_str[pos++] = src[i]] *)
Fixpoint put_guarded (src : list byte) (out_str_size : Z) (st : out_state)
  : out_state :=
  match src with
  | [] => st
  | c :: rest =>
      if pos st <? out_str_size - 1
      then put_guarded rest out_str_size (put st c)
      else st
  end.

(** The suffix loop: stops at the terminator, after 4 characters, or when
    the buffer is full. *)
Fixpoint put_suffix (suffix : list byte) (out_str_size : Z) (st : out_state)
  : out_state :=
  match suffix with
  | [] => st
  | c :: rest =>
      if negb (is_nul c) && (pos st <? out_str_size - 1)
      then put_suffix rest out_str_size (put st c)
      else st
  end.

(** The memory that can be read from the pointer [value_labels[index]]:
    the bytes from there to the end of the parameter record.  The pointer
    is [54 + 32 * index] bytes into the record of 572 bytes, so for index
    16 it is the start of [suffix_label], and from index 17 on it lies
    beyond the record, where nothing can be read. *)
Definition label_memory (config : Param.t) (index : Z) : list byte :=
  if index <=? Param.max_value_labels then
    concat (skipn (Z.to_nat index) (Param.value_labels config))
    ++ Param.suffix_label config
    ++ map byte_of_Z (Param.reserved config)
  else [].

(** The scaled display value: [int] arithmetic on the promoted 16-bit
    operands. *)
Definition scaled_display_value (value : Z) (config : Param.t) : Z :=
  let curved := apply_parameter_control_curve value (Param.control_mode config) in
  let display_range :=
    to_i32 (Param.display_max_value config - Param.display_min_value config) in
  to_i32 (Param.display_min_value config
          + Z.quot (to_i32 (curved * display_range)) 1023).

(** [generate_parameter_value_display_string(value, config, out_str,
    out_str_size)]: the writes made to [out_str], in order. *)
Definition generate_parameter_value_display_string
  (value : Z) (config : Param.t) (out_str_size : Z) : option (list (Z * byte)) :=
  if out_str_size =? 0 then Some []
  else if Param.value_label_count config >=? 2 then
    let index :=
      u16 (Z.quot (clamp_u16 value 0 1023 * (Param.value_label_count config - 1))
                  1023) in
    let label := label_memory config index in
    copied <- fast_strcpy label out_str_size ;;
    let st := fold_left put copied {| pos := 0; writes := [] |} in
    Some (writes (put st x00))
  else
    let scaled_int := scaled_display_value value config in
    let st := {| pos := 0; writes := [] |} in
    let st := if scaled_int <? 0 then put st (byte_of_Z 45) else st in
    let abs_value :=
      if scaled_int <? 0 then u32 (- scaled_int) else u32 scaled_int in
    let divisor :=
      if Param.display_float_digits config <? 7
      then nth (Z.to_nat (Param.display_float_digits config))
               vmprog_parameter_display_divisor_lut 1
      else 1000000 in
    let integer_part := abs_value / divisor in
    let fractional_part := abs_value mod divisor in
    let temp_buf := uint32_to_string integer_part 12 in
    let st := put_guarded temp_buf out_str_size st in
    let st :=
      if (Param.display_float_digits config >? 0) && (pos st <? out_str_size - 1)
      then
        let st := put st (byte_of_Z 46) in
        let temp_buf := uint32_to_string fractional_part 12 in
        let frac_len := Z.of_nat (length temp_buf) in
        let st :=
          put_guarded
            (repeat (byte_of_Z 48)
                    (Z.to_nat (Param.display_float_digits config - frac_len)))
            out_str_size st in
        put_guarded temp_buf out_str_size st
      else st in
    let st :=
      if negb (is_nul (nth 0 (Param.suffix_label config) x00))
         && (pos st <? out_str_size - 1)
      then put_suffix (firstn 4 (Param.suffix_label config)) out_str_size st
      else st in
    Some (writes (put st x00)).

(** The content of a buffer of [out_str_size] bytes after the writes, for
    the writes that fall inside it. *)
Definition apply_write (buf : list byte) (w : Z * byte) : list byte :=
  let (i, c) := w in
  if (0 <=? i) && (i <? Z.of_nat (length buf))
  then firstn (Z.to_nat i) buf ++ c :: skipn (S (Z.to_nat i)) buf
  else buf.

Definition written_buffer (trace : list (Z * byte)) (buf : list byte) : list byte :=
  fold_left apply_write trace buf.

(** The C string at the start of a buffer. *)
Fixpoint c_string (buf : list byte) : list byte :=
  match buf with
  | [] => []
  | c :: rest => if is_nul c then [] else c :: c_string rest
  end.

(** ** String helpers of fixed-size fields ([vmprog_format.hpp]) *)

(** [safe_strlen(str, size)], [str] being the [size] bytes of the field:
    the index of the first terminator, or [size] when there is none. *)
Fixpoint safe_strlen (str : list byte) : nat :=
  match str with
  | [] => O
  | c :: rest => if is_nul c then O else S (safe_strlen rest)
  end.

(** [is_string_empty(str, size)]: [size == 0 || str[0] == '\0']. *)
Definition is_string_empty (str : list byte) : bool :=
  (Z.of_nat (length str) =? 0) || is_nul (nth 0 str x00).

(** [safe_strcmp(str1, size1, str2, size2)] *)
Definition safe_strcmp (str1 str2 : list byte) : bool :=
  let len1 := safe_strlen str1 in
  let len2 := safe_strlen str2 in
  if negb (Nat.eqb len1 len2) then false
  else
    forallb (fun i => Byte.eqb (nth i str1 x00) (nth i str2 x00)) (seq 0 len1).

(** The first loop of [safe_strncpy]: the characters copied while
    [i < size - 1 && src[i] != '\0'], [room] being [size - 1 - i].  [src]
    is the memory from the source pointer to the end of the object it
    points into; reading past that end is undefined ([None]). *)
Fixpoint safe_strncpy_copy (src : list byte) (room : nat) {struct room}
  : option (list byte) :=
  match room with
  | O => Some []
  | S room' =>
      match src with
      | [] => None
      | c :: rest =>
          if is_nul c then Some []
          else copied <- safe_strncpy_copy rest room' ;; Some (c :: copied)
      end
  end.

(** [safe_strncpy(dest, src, size)]: the [size] bytes of [dest] after the
    call, given its bytes before (only a [dest] of size 0 keeps them). *)
Definition safe_strncpy (dest src : list byte) : option (list byte) :=
  let size := length dest in
  if Z.of_nat size =? 0 then Some dest
  else
    copied <- safe_strncpy_copy src (size - 1) ;;
    Some (copied ++ repeat x00 (size - length copied)).

(** ** Payload readers ([vmprog_stream_reader.hpp]) *)

Section PayloadReaders.

Variable crypto_blake2b : list byte -> list byte.
Variable crypto_ed25519_check : list byte -> list byte -> list byte -> Z.
Context {S : Type} {stream : vmprog_stream S}.

(** [read_and_verify_payload]: the result code, and the payload stored in
    [out_payload] when the read was complete. *)
Definition read_and_verify_payload (s : S) (entry : Entry.t) (max_payload_size : Z)
  : vmprog_validation_result * option (list byte) * S :=
  match read_payload s entry max_payload_size with
  | (None, s) => (invalid_payload_offset, None, s)
  | (Some payload, s) =>
      if negb (verify_payload_hash crypto_blake2b payload (Entry.sha256 entry))
      then (invalid_hash, Some payload, s)
      else (ok, Some payload, s)
  end.

(** [find_and_read_payload]: likewise, for the first entry of [type]. *)
Definition find_and_read_payload (s : S) (toc : list Entry.t) (type : Z)
  (max_payload_size : Z) : vmprog_validation_result * option (list byte) * S :=
  match find_toc_entry toc type with
  | None => (invalid_toc_entry, None, s)
  | Some entry =>
      match read_payload s entry max_payload_size with
      | (None, s) => (invalid_payload_offset, None, s)
      | (Some payload, s) => (ok, Some payload, s)
      end
  end.

(** ** The package reader ([class vmprog_package_reader]) *)

(** A read into an output record or array stores the bytes delivered at
    its start and leaves the rest as it was. *)
Definition stored_over (old bytes : list byte) : list byte :=
  bytes ++ skipn (length bytes) old.

(** The readers of the header and of the TOC once more, this time with
    the content of the output object after the call, which a failed call
    may have changed. *)
Definition read_vmprog_header_into (s : S) (out_header : list byte)
  : vmprog_validation_result * list byte * S :=
  let (sought, s) := seek s 0 in
  if negb sought then (invalid_file_size, out_header, s)
  else
    let (bytes, s) := read s Header.struct_size in
    let out_header := stored_over out_header bytes in
    if negb (Z.of_nat (length bytes) =? Header.struct_size)
    then (invalid_file_size, out_header, s)
    else (ok, out_header, s).

Definition read_and_validate_vmprog_header_into (s : S) (file_size : Z)
  (out_header : list byte) : vmprog_validation_result * list byte * S :=
  match read_vmprog_header_into s out_header with
  | (ok, out_header, s) =>
      (validate_vmprog_header_v1_0 (Header.view out_header) file_size,
       out_header, s)
  | failed => failed
  end.

Definition read_vmprog_toc_into (s : S) (header : Header.t) (out_toc : list byte)
  (max_toc_entries : Z) : vmprog_validation_result * list byte * S :=
  if Header.toc_count header >? max_toc_entries
  then (invalid_toc_count, out_toc, s)
  else
    let (sought, s) := seek s (Header.toc_offset header) in
    if negb sought then (invalid_toc_offset, out_toc, s)
    else
      let bytes_to_read := Header.toc_count header * Entry.struct_size in
      let (bytes, s) := read s bytes_to_read in
      let out_toc := stored_over out_toc bytes in
      if negb (Z.of_nat (length bytes) =? bytes_to_read)
      then (invalid_toc_size, out_toc, s)
      else (ok, out_toc, s).

Definition read_and_validate_vmprog_toc_into (s : S) (header : Header.t)
  (file_size : Z) (out_toc : list byte) (max_toc_entries : Z)
  : vmprog_validation_result * list byte * S :=
  match read_vmprog_toc_into s header out_toc max_toc_entries with
  | (ok, out_toc, s) =>
      (first_error (fun e => validate_vmprog_toc_entry_v1_0 e file_size)
         (toc_view out_toc (Header.toc_count header)),
       out_toc, s)
  | failed => failed
  end.

(** The data members of the class; [header_] and [toc_] are kept as the
    bytes of the record and of the array of 16 entries.  The member
    [stream_] is the stream handed to [open]; its state is passed to each
    member function and returned by it. *)
Record vmprog_package_reader : Set := {
  file_size_ : Z;
  is_open_ : bool;
  header_ : list byte;
  toc_ : list byte
}.

(** The default member initialisers. *)
Definition new_reader : vmprog_package_reader := {|
  file_size_ := 0;
  is_open_ := false;
  header_ := repeat x00 64;
  toc_ := repeat x00 1024
|}.

Definition reader_header (r : vmprog_package_reader) : Header.t :=
  Header.view (header_ r).

(** [toc_count()] *)
Definition reader_toc_count (r : vmprog_package_reader) : Z :=
  if is_open_ r then Header.toc_count (reader_header r) else 0.

(** The entries [toc_[0 .. header_.toc_count)] the member functions pass on. *)
Definition reader_toc (r : vmprog_package_reader) : list Entry.t :=
  toc_view (toc_ r) (Header.toc_count (reader_header r)).

(** [is_signed()] *)
Definition reader_is_signed (r : vmprog_package_reader) : bool :=
  is_open_ r && is_package_signed (reader_header r).

(** [open(stream, file_size, verify_hashes, scratch_buffer,
    scratch_buffer_size)]; [scratch_buffer] tells whether the pointer is
    non-null. *)
Definition reader_open (r : vmprog_package_reader) (s : S) (file_size : Z)
  (verify_hashes scratch_buffer : bool) (scratch_buffer_size : Z)
  : vmprog_validation_result * vmprog_package_reader * S :=
  match read_and_validate_vmprog_header_into s file_size (header_ r) with
  | (ok, header, s) =>
      match read_and_validate_vmprog_toc_into s (Header.view header) file_size
              (toc_ r) vmprog_stream_max_toc_entries with
      | (ok, toc, s) =>
          let r := {| file_size_ := file_size; is_open_ := is_open_ r;
                      header_ := header; toc_ := toc |} in
          let opened := {| file_size_ := file_size; is_open_ := true;
                           header_ := header; toc_ := toc |} in
          if verify_hashes then
            if negb scratch_buffer || (scratch_buffer_size =? 0)
            then (invalid_file_size, r, s)
            else
              match verify_all_payload_hashes_stream crypto_blake2b s
                      (reader_toc r) scratch_buffer_size with
              | (ok, s) => (ok, opened, s)
              | (err, s) => (err, r, s)
              end
          else (ok, opened, s)
      | (err, toc, s) =>
          (err, {| file_size_ := file_size; is_open_ := is_open_ r;
                   header_ := header; toc_ := toc |}, s)
      end
  | (err, header, s) =>
      (err, {| file_size_ := file_size; is_open_ := is_open_ r;
               header_ := header; toc_ := toc_ r |}, s)
  end.

(** [read_config(out_config)]: the result code and the bytes of the
    record read. *)
Definition reader_read_config (r : vmprog_package_reader) (s : S)
  : attempt (list byte) * S :=
  if negb (is_open_ r) then (Failed invalid_file_size, s)
  else
    match find_toc_entry (reader_toc r) EntryType.config with
    | None => (Failed invalid_toc_entry, s)
    | Some entry => read_and_validate_vmprog_config crypto_blake2b s entry false
    end.

(** [read_payload_by_type] and [read_bitstream] *)
Definition reader_read_payload_by_type (r : vmprog_package_reader) (s : S)
  (type max_payload_size : Z) : vmprog_validation_result * option (list byte) * S :=
  if negb (is_open_ r) then (invalid_file_size, None, s)
  else find_and_read_payload s (reader_toc r) type max_payload_size.

Definition reader_read_bitstream (r : vmprog_package_reader) (s : S)
  (max_bitstream_size : Z) : vmprog_validation_result * option (list byte) * S :=
  reader_read_payload_by_type r s EntryType.fpga_bitstream max_bitstream_size.

(** [verify_signature(public_key, out_key_index)] *)
Definition reader_verify_signature (r : vmprog_package_reader) (s : S)
  (public_key : option (list byte)) : vmprog_validation_result * S :=
  if negb (is_open_ r) then (invalid_file_size, s)
  else if negb (reader_is_signed r) then (invalid_toc_entry, s)
  else
    match public_key with
    | Some key =>
        verify_package_signature_stream crypto_ed25519_check s (reader_toc r) key
    | None =>
        verify_package_signature_builtin_keys_stream crypto_ed25519_check s
          (reader_toc r)
    end.

End PayloadReaders.

(** ** Endianness helpers ([vmprog_format.hpp]) *)

(** The two branches of the conditional compilation are selected by
    [big_endian], which stands for
    [__BYTE_ORDER__ == __ORDER_BIG_ENDIAN__]. *)
Definition to_little_endian_32 (big_endian : bool) (value : Z) : Z :=
  if big_endian then
    Z.lor
      (Z.lor
         (Z.lor (shr32 (Z.land value 0xFF000000) 24)
                (shr32 (Z.land value 0x00FF0000) 8))
         (shl32 (Z.land value 0x0000FF00) 8))
      (shl32 (Z.land value 0x000000FF) 24)
  else value.

Definition from_little_endian_32 (big_endian : bool) (value : Z) : Z :=
  to_little_endian_32 big_endian value.

(** The 16-bit operand is promoted to [int]; the result is cast back. *)
Definition to_little_endian_16 (big_endian : bool) (value : Z) : Z :=
  if big_endian then
    u16 (Z.lor (Z.shiftr (Z.land value 0xFF00) 8)
               (Z.shiftl (Z.land value 0x00FF) 8))
  else value.

Definition from_little_endian_16 (big_endian : bool) (value : Z) : Z :=
  to_little_endian_16 big_endian value.

(** ** The configuration hash ([calculate_config_sha256]) *)

(** [copy.byte[off] = 0] on the bytes of a record. *)
Definition zero_byte (bs : list byte) (off : Z) : list byte :=
  if (0 <=? off) && (off <? Z.of_nat (length bs))
  then firstn (Z.to_nat off) bs ++ x00 :: skipn (S (Z.to_nat off)) bs
  else bs.

(** The body of the loop over the used parameters: the two bytes of
    [reserved_pad] (offset 20 of the parameter record) and the two bytes
    of [reserved] (offset 570) of [parameters[i]] (at offset
    [506 + 572 * i] of the configuration record). *)
Definition zero_parameter_reserved (config_copy : list byte) (i : Z) : list byte :=
  let base := 506 + Param.struct_size * i in
  let config_copy := zero_byte config_copy (base + 20) in
  let config_copy := zero_byte config_copy (base + 21) in
  let config_copy := zero_byte config_copy (base + 570) in
  zero_byte config_copy (base + 571).

Section ConfigHash.

Variable crypto_blake2b : list byte -> list byte.

(** [calculate_config_sha256(config, out_hash)], on the 7372 bytes of the
    record: the hash written to [out_hash] (the function always returns
    [true]). *)
Definition calculate_config_sha256 (config : list byte) : list byte :=
  let config_copy := config in
  let config_copy := zero_byte config_copy 7370 in
  let config_copy := zero_byte config_copy 7371 in
  let used :=
    Z.min (Config.parameter_count (Config.view config)) Config.num_parameters in
  let config_copy :=
    fold_left zero_parameter_reserved (indices (Z.to_nat used)) config_copy in
  let ctx := sha256_init in
  let ctx := sha256_update ctx config_copy in
  sha256_final crypto_blake2b ctx.

End ConfigHash.
(** * Properties *)

(** ** The control curve *)

Module CurveFacts.

(** The integers [0, 1, ..., n-1]. *)
Definition upto (n : nat) : list Z := map Z.of_nat (seq 0 n).

Lemma upto_In (n : nat) (z : Z) : 0 <= z < Z.of_nat n -> In z (upto n).
Proof.
  intros Hz. unfold upto. apply in_map_iff. exists (Z.to_nat z). split.
  - lia.
  - apply in_seq. lia.
Qed.

Definition in_range (r : Z) : bool := (0 <=? r) && (r <=? 1023).

Definition polar_in_range (t mode : Z) : bool :=
  match polar_switch t mode with
  | Some r => in_range r
  | None => true
  end.

(** Both switches stay within ten bits on every 10-bit input, for every
    defined mode: checked by running the code on the 36 x 1024 inputs. *)
Lemma switches_in_range_table :
  forallb (fun mode =>
    forallb (fun t => in_range (clamped_switch t mode) && polar_in_range t mode)
            (upto 1024))
    (upto 36) = true.
Proof. vm_compute. reflexivity. Qed.

Lemma switches_in_range (t mode : Z) :
  0 <= t <= 1023 -> 0 <= mode <= 35 ->
  in_range (clamped_switch t mode) = true /\ polar_in_range t mode = true.
Proof.
  intros Ht Hm.
  pose proof switches_in_range_table as H.
  rewrite forallb_forall in H.
  specialize (H mode (upto_In 36 mode ltac:(lia))).
  rewrite forallb_forall in H.
  specialize (H t (upto_In 1024 t ltac:(lia))).
  apply andb_true_iff in H. exact H.
Qed.

Lemma in_range_spec (r : Z) : in_range r = true -> 0 <= r <= 1023.
Proof. unfold in_range. intros H. apply andb_true_iff in H. lia. Qed.

(** The C++ remainder corrected by [+ 1024] is the Euclidean remainder. *)
Lemma polar_wrap_mod (value : Z) : polar_wrap value = value mod 1024.
Proof.
  unfold polar_wrap, add_i32, to_i32, u32.
  pose proof (Z.quot_rem' value 1024) as Hq.
  assert (Hcases : value <= 0 \/ 0 <= value) by lia.
  destruct Hcases as [Hneg | Hpos].
  - pose proof (Z.rem_bound_pos_neg value 1024 ltac:(lia) Hneg) as Hb.
    destruct (Z.ltb_spec (Z.rem value 1024) 0) as [Hlt | Hge].
    + rewrite (Z.mod_small (Z.rem value 1024 + 1024 + 2147483648)) by lia.
      rewrite Z.mod_small by lia.
      apply Z.mod_unique with (q := Z.quot value 1024 - 1); lia.
    + rewrite Z.mod_small by lia.
      apply Z.mod_unique with (q := Z.quot value 1024); lia.
  - pose proof (Z.rem_bound_pos_pos value 1024 ltac:(lia) Hpos) as Hb.
    destruct (Z.ltb_spec (Z.rem value 1024) 0) as [Hlt | Hge]; [lia|].
    rewrite Z.mod_small by lia.
    apply Z.mod_unique with (q := Z.quot value 1024); lia.
Qed.

Lemma polar_wrap_range (value : Z) : 0 <= polar_wrap value <= 1023.
Proof.
  rewrite polar_wrap_mod.
  pose proof (Z.mod_pos_bound value 1024 ltac:(lia)). lia.
Qed.

Lemma clamp_input_spec (value : Z) :
  is_i32 value -> clamp_input value = Z.max 0 (Z.min value 1023).
Proof.
  unfold is_i32, clamp_input, max_val, u32. intros Hv.
  destruct (Z.ltb_spec value 0); [lia|].
  destruct (Z.gtb_spec value 1023); [lia|].
  rewrite Z.mod_small by lia. lia.
Qed.

Lemma clamp_input_range (value : Z) : 0 <= clamp_input value <= 1023.
Proof.
  unfold clamp_input, max_val, u32.
  destruct (Z.ltb_spec value 0); [lia|].
  destruct (Z.gtb_spec value 1023); [lia|].
  rewrite Z.mod_small by lia. lia.
Qed.

End CurveFacts.

(** C7 (curve range).  For every defined mode [0..35] and every 32-bit
    signed input, [apply_parameter_control_curve] returns a value in
    [[0, 1023]]. *)
Theorem curve_range (x mode : Z) :
  is_i32 x -> 0 <= mode <= 35 ->
  0 <= apply_parameter_control_curve x mode <= 1023.
Proof.
  intros _ Hm. unfold apply_parameter_control_curve.
  pose proof (CurveFacts.switches_in_range (polar_wrap x) mode
                (CurveFacts.polar_wrap_range x) Hm) as [_ Hp].
  pose proof (CurveFacts.switches_in_range (clamp_input x) mode
                (CurveFacts.clamp_input_range x) Hm) as [Hc _].
  unfold CurveFacts.polar_in_range in Hp.
  destruct ((12 <=? mode) && (mode <=? 17)).
  - destruct (polar_switch (polar_wrap x) mode) as [r|].
    + apply CurveFacts.in_range_spec, Hp.
    + apply CurveFacts.in_range_spec, Hc.
  - apply CurveFacts.in_range_spec, Hc.
Qed.

Lemma curve_range_witness :
  0 <= apply_parameter_control_curve (-2147483648) 29 <= 1023.
Proof. apply curve_range; unfold is_i32; lia. Defined.

(** *** Boundary values *)

(** The discrete-step modes [steps_4 .. steps_256] and the height of one
    output step in each (the multiplier, or the value of the re-shifted
    low bit). *)
Definition is_discrete_step_mode (mode : Z) : bool :=
  (Mode.steps_4 <=? mode) && (mode <=? Mode.steps_256).

Definition step_height (mode : Z) : Z :=
  match mode with
  | Mode.steps_4 => 341
  | Mode.steps_8 => 146
  | Mode.steps_16 => 68
  | Mode.steps_32 => 33
  | Mode.steps_64 => 16
  | Mode.steps_128 => 8
  | Mode.steps_256 => 4
  | _ => 0
  end.

(** The modes that scale the input down or wrap a multiple of it: their
    value at 1023 is the scaled or wrapped 1023. *)
Definition scaled_maximum (mode : Z) : option Z :=
  match mode with
  | Mode.linear_half => Some 511
  | Mode.linear_quarter => Some 255
  | Mode.polar_degs_90 => Some 255
  | Mode.polar_degs_180 => Some 511
  | Mode.polar_degs_720 => Some 1022
  | Mode.polar_degs_1440 => Some 1020
  | Mode.polar_degs_2880 => Some 1016
  | _ => None
  end.

(** The value of each mode at 1023, as the code computes it: 1023, except
    for the discrete-step modes whose multiplier or shift does not reach
    it, and for the modes that scale or wrap the input. *)
Definition maximum_at_1023 (mode : Z) : Z :=
  match mode with
  | Mode.linear_half => 511
  | Mode.linear_quarter => 255
  | Mode.steps_8 => 1022
  | Mode.steps_16 => 1020
  | Mode.steps_64 => 1008
  | Mode.steps_128 => 1016
  | Mode.steps_256 => 1020
  | Mode.polar_degs_90 => 255
  | Mode.polar_degs_180 => 511
  | Mode.polar_degs_720 => 1022
  | Mode.polar_degs_1440 => 1020
  | Mode.polar_degs_2880 => 1016
  | _ => 1023
  end.

(** The boundary property of one mode, as the code has it. *)
Definition boundary_ok (mode : Z) : bool :=
  (apply_parameter_control_curve 0 mode =? 0) &&
  (apply_parameter_control_curve 1023 mode =? maximum_at_1023 mode) &&
  match scaled_maximum mode with
  | Some m => apply_parameter_control_curve 1023 mode =? m
  | None =>
      if is_discrete_step_mode mode then
        (1023 - step_height mode <? apply_parameter_control_curve 1023 mode) &&
        (apply_parameter_control_curve 1023 mode <=? 1023)
      else apply_parameter_control_curve 1023 mode =? 1023
  end.

(** C8, the claim as stated fails: [linear_half] is neither a discrete-step
    mode nor [boolean], and its value at 1023 is 511. *)
Lemma curve_boundaries_counterexample :
  apply_parameter_control_curve 1023 Mode.linear_half = 511 /\
  is_discrete_step_mode Mode.linear_half = false /\
  Mode.linear_half <> Mode.boolean.
Proof. repeat split; try reflexivity. discriminate. Qed.

(** C8, amended.  For each of the 36 modes the curve maps 0 to 0.  It maps
    1023 to 1023, except that
      - a discrete-step mode may fall short by less than one step: the
        values are 1022 for [steps_8], 1020 for [steps_16], 1008 for
        [steps_64], 1016 for [steps_128] and 1020 for [steps_256]
        ([steps_4] and [steps_32] reach 1023),
      - [linear_half], [linear_quarter] and the polar modes other than
        [polar_degs_360] return the scaled or wrapped maximum (511, 255,
        255, 511, 1022, 1020, 1016);
    and [boolean] is zero on the whole lower half (every input below 512,
    negative ones included). *)
Theorem curve_boundaries_amended (mode : Z) :
  0 <= mode <= 35 ->
  apply_parameter_control_curve 0 mode = 0 /\
  (match scaled_maximum mode with
   | Some m => apply_parameter_control_curve 1023 mode = m
   | None =>
       if is_discrete_step_mode mode then
         1023 - step_height mode < apply_parameter_control_curve 1023 mode <= 1023
       else apply_parameter_control_curve 1023 mode = 1023
   end) /\
  (forall x, x < 512 -> apply_parameter_control_curve x Mode.boolean = 0) /\
  apply_parameter_control_curve 1023 mode = maximum_at_1023 mode /\
  (apply_parameter_control_curve 1023 Mode.steps_4 = 1023 /\
   apply_parameter_control_curve 1023 Mode.steps_8 = 1022 /\
   apply_parameter_control_curve 1023 Mode.steps_16 = 1020 /\
   apply_parameter_control_curve 1023 Mode.steps_32 = 1023 /\
   apply_parameter_control_curve 1023 Mode.steps_64 = 1008 /\
   apply_parameter_control_curve 1023 Mode.steps_128 = 1016 /\
   apply_parameter_control_curve 1023 Mode.steps_256 = 1020).
Proof.
  intros Hm.
  assert (Htab : forallb boundary_ok (CurveFacts.upto 36) = true)
    by (vm_compute; reflexivity).
  rewrite forallb_forall in Htab.
  specialize (Htab mode (CurveFacts.upto_In 36 mode ltac:(lia))).
  unfold boundary_ok in Htab.
  apply andb_true_iff in Htab. destruct Htab as [H0 H1].
  apply andb_true_iff in H0. destruct H0 as [H0 Hmax].
  split; [lia|]. split; [|split; [|split]].
  - destruct (scaled_maximum mode) as [m|]; [lia|].
    destruct (is_discrete_step_mode mode); [|lia].
    apply andb_true_iff in H1. lia.
  - intros x Hx. unfold apply_parameter_control_curve.
    cbn [andb Z.leb Z.compare Pos.compare Pos.compare_cont].
    pose proof (CurveFacts.clamp_input_range x) as Hr.
    assert (Hlt : clamp_input x < 512).
    { unfold clamp_input, max_val, u32.
      destruct (Z.ltb_spec x 0); [lia|].
      destruct (Z.gtb_spec x 1023); [lia|].
      rewrite Z.mod_small by lia. lia. }
    cbn [clamped_switch].
    destruct (Z.geb_spec (clamp_input x) 512); [lia|]. reflexivity.
  - lia.
  - repeat split; reflexivity.
Qed.

Lemma curve_boundaries_amended_witness :
  apply_parameter_control_curve 0 Mode.steps_64 = 0 /\
  (1023 - 16 < apply_parameter_control_curve 1023 Mode.steps_64 <= 1023) /\
  (forall x, x < 512 -> apply_parameter_control_curve x Mode.boolean = 0) /\
  apply_parameter_control_curve 1023 Mode.steps_64 = 1008 /\
  (apply_parameter_control_curve 1023 Mode.steps_4 = 1023 /\
   apply_parameter_control_curve 1023 Mode.steps_8 = 1022 /\
   apply_parameter_control_curve 1023 Mode.steps_16 = 1020 /\
   apply_parameter_control_curve 1023 Mode.steps_32 = 1023 /\
   apply_parameter_control_curve 1023 Mode.steps_64 = 1008 /\
   apply_parameter_control_curve 1023 Mode.steps_128 = 1016 /\
   apply_parameter_control_curve 1023 Mode.steps_256 = 1020).
Proof. apply (curve_boundaries_amended Mode.steps_64). lia. Defined.

(** *** Polar wrap *)

(** The polar formulas as the specification lists them, on the normalized
    input [t]. *)
Definition spec_polar_formula (t mode : Z) : Z :=
  if mode =? Mode.polar_degs_90 then Z.shiftr t 2
  else if mode =? Mode.polar_degs_180 then Z.shiftr t 1
  else if mode =? Mode.polar_degs_360 then t
  else if mode =? Mode.polar_degs_720 then Z.land (Z.shiftl t 1) 1023
  else if mode =? Mode.polar_degs_1440 then Z.land (Z.shiftl t 2) 1023
  else Z.land (Z.shiftl t 3) 1023.

(** The normalization as the specification writes it, with the C++
    remainder: [((x % 1024) + 1024) % 1024]. *)
Definition spec_polar_normalize (x : Z) : Z :=
  Z.rem (Z.rem x 1024 + 1024) 1024.

Lemma spec_polar_normalize_mod (x : Z) : spec_polar_normalize x = x mod 1024.
Proof.
  unfold spec_polar_normalize.
  pose proof (Z.rem_bound_abs x 1024 ltac:(lia)) as Hb.
  rewrite Z.rem_mod_nonneg by lia.
  pose proof (Z.quot_rem' x 1024) as Hq.
  symmetry.
  rewrite Hq at 1.
  replace (1024 * (x ÷ 1024) + Z.rem x 1024)
    with (Z.rem x 1024 + 1024 + (x ÷ 1024 - 1) * 1024) by lia.
  apply Z.mod_add. lia.
Qed.

Lemma polar_switch_table :
  forallb (fun mode =>
    forallb (fun t =>
      match polar_switch t mode with
      | Some r => r =? spec_polar_formula t mode
      | None => false
      end) (CurveFacts.upto 1024))
    (map (Z.add 12) (CurveFacts.upto 6)) = true.
Proof. vm_compute. reflexivity. Qed.

Lemma polar_switch_spec (t mode : Z) :
  0 <= t <= 1023 -> 12 <= mode <= 17 ->
  polar_switch t mode = Some (spec_polar_formula t mode).
Proof.
  intros Ht Hm.
  pose proof polar_switch_table as H.
  rewrite forallb_forall in H.
  assert (Hin : In mode (map (Z.add 12) (CurveFacts.upto 6))).
  { apply in_map_iff. exists (mode - 12). split; [lia|].
    apply CurveFacts.upto_In. lia. }
  specialize (H mode Hin).
  rewrite forallb_forall in H.
  specialize (H t (CurveFacts.upto_In 1024 t ltac:(lia))).
  destruct (polar_switch t mode) as [r|]; [|discriminate].
  apply Z.eqb_eq in H. now subst.
Qed.

Lemma curve_polar (x mode : Z) :
  12 <= mode <= 17 ->
  apply_parameter_control_curve x mode = spec_polar_formula (x mod 1024) mode.
Proof.
  intros Hm. unfold apply_parameter_control_curve.
  destruct (Z.leb_spec 12 mode); [|lia].
  destruct (Z.leb_spec mode 17); [|lia].
  cbn [andb].
  rewrite polar_switch_spec by (auto using CurveFacts.polar_wrap_range).
  now rewrite CurveFacts.polar_wrap_mod.
Qed.

(** C9 (polar wrap).  [polar_degs_360] has period 1024 under wrapping
    32-bit addition, and every polar mode applies its formula to the
    Euclidean remainder of the input modulo 1024, which is what
    [((x % 1024) + 1024) % 1024] computes: a negative input wraps (it has
    the value of its remainder), it is not clamped to 0. *)
Theorem polar_wrap_euclidean (x : Z) :
  is_i32 x ->
  apply_parameter_control_curve x Mode.polar_degs_360 =
    apply_parameter_control_curve (add_i32 x 1024) Mode.polar_degs_360 /\
  (forall mode, 12 <= mode <= 17 ->
     spec_polar_normalize x = x mod 1024 /\
     0 <= spec_polar_normalize x <= 1023 /\
     apply_parameter_control_curve x mode =
       spec_polar_formula (spec_polar_normalize x) mode /\
     apply_parameter_control_curve x mode =
       apply_parameter_control_curve (x mod 1024) mode).
Proof.
  intros Hx. split.
  - rewrite !curve_polar by lia. f_equal.
    unfold add_i32, to_i32.
    (* 2^32 is a multiple of 1024, so wrapping keeps the remainder *)
    pose proof (Z.div_mod (x + 1024 + 2147483648) 4294967296 ltac:(lia)) as Hd.
    replace ((x + 1024 + 2147483648) mod 4294967296 - 2147483648)
      with (x + (1 - 4194304 * ((x + 1024 + 2147483648) / 4294967296)) * 1024)
      by lia.
    now rewrite Z.mod_add by lia.
  - intros mode Hm.
    pose proof (Z.mod_pos_bound x 1024 ltac:(lia)) as Hb.
    rewrite spec_polar_normalize_mod.
    repeat split; try lia.
    + apply curve_polar, Hm.
    + rewrite !curve_polar by lia. now rewrite Z.mod_mod by lia.
Qed.

Lemma polar_wrap_euclidean_witness :
  apply_parameter_control_curve 2147483647 Mode.polar_degs_360 =
    apply_parameter_control_curve (add_i32 2147483647 1024) Mode.polar_degs_360 /\
  (forall mode, 12 <= mode <= 17 ->
     spec_polar_normalize 2147483647 = 2147483647 mod 1024 /\
     0 <= spec_polar_normalize 2147483647 <= 1023 /\
     apply_parameter_control_curve 2147483647 mode =
       spec_polar_formula (spec_polar_normalize 2147483647) mode /\
     apply_parameter_control_curve 2147483647 mode =
       apply_parameter_control_curve (2147483647 mod 1024) mode).
Proof. apply (polar_wrap_euclidean 2147483647). unfold is_i32. lia. Defined.

(** Scenario 4 of the specification: a negative input wraps. *)
Example polar_720_negative :
  apply_parameter_control_curve (-100) Mode.polar_degs_720 =
  apply_parameter_control_curve 924 Mode.polar_degs_720.
Proof. reflexivity. Qed.

(** *** Modes outside the enumeration *)

Lemma clamped_switch_default (t mode : Z) :
  35 < mode -> clamped_switch t mode = u16 t.
Proof.
  intros Hm. destruct mode as [|p|p]; try lia.
  do 6 (try (destruct p as [p|p|]; try lia)); reflexivity.
Qed.

(** C10 (unknown mode).  For a mode value above 35 the function is total
    and returns the input clamped to [[0, 1023]]; the result is therefore
    never outside that range. *)
Theorem curve_unknown_mode (x mode : Z) :
  is_i32 x -> 35 < mode < 4294967296 ->
  apply_parameter_control_curve x mode = Z.max 0 (Z.min x 1023) /\
  0 <= apply_parameter_control_curve x mode <= 1023.
Proof.
  intros Hx Hm. unfold apply_parameter_control_curve.
  destruct (Z.leb_spec mode 17); [lia|].
  rewrite andb_false_r.
  rewrite clamped_switch_default by lia.
  pose proof (CurveFacts.clamp_input_range x) as Hr.
  unfold u16. rewrite Z.mod_small by lia.
  rewrite CurveFacts.clamp_input_spec by assumption. lia.
Qed.

Lemma curve_unknown_mode_witness :
  apply_parameter_control_curve (-7) 36 = Z.max 0 (Z.min (-7) 1023) /\
  0 <= apply_parameter_control_curve (-7) 36 <= 1023.
Proof. apply curve_unknown_mode; unfold is_i32; lia. Defined.

(** ** Structural validators *)

Module HeaderSpec.

(** The documented constraints on a header, in the documented order, each
    with the code reported when it is violated.  The arithmetic is that of
    the integers: no reduction modulo [2^32]. *)
Definition checks (header : Header.t) (file_size : Z)
  : list (bool * vmprog_validation_result) :=
  [ (Header.magic header =? 0x47504D56, invalid_magic);
    (Header.version_major header =? 1, invalid_version);
    (Header.header_size header =? 64, invalid_header_size);
    ((64 <=? file_size) && (file_size <=? 1048576)
     && (file_size =? Header.file_size header), invalid_file_size);
    ((1 <=? Header.toc_count header) && (Header.toc_count header <=? 256),
     invalid_toc_count);
    ((64 <=? Header.toc_offset header) && (Header.toc_offset header <? file_size),
     invalid_toc_offset);
    ((Header.toc_bytes header =? Header.toc_count header * 64)
     && (Header.toc_offset header + Header.toc_count header * 64 <=? file_size),
     invalid_toc_size) ].

(** The code of the first violated check, [ok] when none is. *)
Fixpoint first_violated (cs : list (bool * vmprog_validation_result))
  : vmprog_validation_result :=
  match cs with
  | [] => ok
  | (holds, code) :: rest => if holds then first_violated rest else code
  end.

End HeaderSpec.

Ltac case_comparisons :=
  repeat match goal with
    | |- context [?a =? ?b] => destruct (Z.eqb_spec a b)
    | |- context [?a <? ?b] => destruct (Z.ltb_spec a b)
    | |- context [?a <=? ?b] => destruct (Z.leb_spec a b)
    | |- context [?a >? ?b] => destruct (Z.gtb_spec a b)
    | |- context [?a >=? ?b] => destruct (Z.geb_spec a b)
    end.

Lemma mul32_toc_size (count : Z) :
  1 <= count <= 256 -> mul32 count Entry.struct_size = count * 64.
Proof.
  intros H. unfold mul32, u32, Entry.struct_size.
  apply Z.mod_small. lia.
Qed.

Lemma add32_small (a b : Z) :
  0 <= a -> 0 <= b -> a + b < 4294967296 -> add32 a b = a + b.
Proof. intros. unfold add32, u32. apply Z.mod_small. lia. Qed.

(** The fields of a header have the ranges of their C++ types. *)
Definition is_u16 (z : Z) : Prop := 0 <= z < 65536.

Definition header_in_range (header : Header.t) : Prop :=
  is_u32 (Header.magic header) /\
  is_u16 (Header.version_major header) /\
  is_u16 (Header.version_minor header) /\
  is_u16 (Header.header_size header) /\
  is_u16 (Header.reserved_pad header) /\
  is_u32 (Header.file_size header) /\
  is_u32 (Header.flags header) /\
  is_u32 (Header.toc_offset header) /\
  is_u32 (Header.toc_bytes header) /\
  is_u32 (Header.toc_count header).

Lemma validate_header_first_violated (header : Header.t) (file_size : Z) :
  header_in_range header ->
  validate_vmprog_header_v1_0 header file_size =
  HeaderSpec.first_violated (HeaderSpec.checks header file_size).
Proof.
  intros (_ & _ & _ & _ & _ & _ & _ & Hoff & _ & Hcount).
  unfold is_u32 in Hoff, Hcount.
  unfold validate_vmprog_header_v1_0, HeaderSpec.checks, HeaderSpec.first_violated,
    Header.expected_magic, Header.struct_size, Header.max_file_size.
  destruct (Z.eqb_spec (Header.magic header) 0x47504D56); cbn [negb]; [|reflexivity].
  destruct (Z.eqb_spec (Header.version_major header) 1); cbn [negb]; [|reflexivity].
  destruct (Z.eqb_spec (Header.header_size header) 64); cbn [negb]; [|reflexivity].
  destruct (Z.ltb_spec file_size 64), (Z.leb_spec 64 file_size); try lia;
    cbn [orb andb]; [reflexivity|].
  destruct (Z.gtb_spec file_size 1048576), (Z.leb_spec file_size 1048576);
    try lia; cbn [orb andb]; [reflexivity|].
  destruct (Z.eqb_spec file_size (Header.file_size header)); cbn [negb];
    [|reflexivity].
  destruct (Z.eqb_spec (Header.toc_count header) 0),
    (Z.leb_spec 1 (Header.toc_count header)); try lia; cbn [orb andb];
    [reflexivity|].
  destruct (Z.gtb_spec (Header.toc_count header) 256),
    (Z.leb_spec (Header.toc_count header) 256); try lia; cbn [orb andb];
    [reflexivity|].
  destruct (Z.ltb_spec (Header.toc_offset header) 64),
    (Z.leb_spec 64 (Header.toc_offset header)); try lia; cbn [orb andb];
    [reflexivity|].
  destruct (Z.geb_spec (Header.toc_offset header) file_size),
    (Z.ltb_spec (Header.toc_offset header) file_size); try lia; cbn [orb andb];
    [reflexivity|].
  rewrite mul32_toc_size by lia.
  rewrite add32_small by lia.
  destruct (Z.eqb_spec (Header.toc_bytes header) (Header.toc_count header * 64));
    cbn [negb orb andb]; [|reflexivity].
  destruct (Z.gtb_spec (Header.toc_offset header + Header.toc_count header * 64)
              file_size),
    (Z.leb_spec (Header.toc_offset header + Header.toc_count header * 64)
       file_size); try lia; reflexivity.
Qed.

(** C4 (header validation).  For a header whose fields have the ranges of
    their types, [validate_vmprog_header_v1_0] returns [ok] exactly when
    every documented constraint holds; otherwise it returns the code of
    the first violated check in the order magic, version major, header
    size, file-size envelope, TOC count bounds, TOC offset bounds, TOC
    byte size consistency; and since the count is bounded before it is
    multiplied, the 32-bit product [toc_count * 64] is the exact one. *)
Theorem validate_header_spec (header : Header.t) (file_size : Z) :
  header_in_range header ->
  (validate_vmprog_header_v1_0 header file_size = ok <->
   Header.magic header = 0x47504D56 /\
   Header.version_major header = 1 /\
   Header.header_size header = 64 /\
   file_size = Header.file_size header /\
   64 <= file_size <= 1048576 /\
   1 <= Header.toc_count header <= 256 /\
   64 <= Header.toc_offset header < file_size /\
   Header.toc_bytes header = Header.toc_count header * 64 /\
   Header.toc_offset header + Header.toc_count header * 64 <= file_size) /\
  validate_vmprog_header_v1_0 header file_size =
    HeaderSpec.first_violated (HeaderSpec.checks header file_size) /\
  (HeaderSpec.first_violated (firstn 5 (HeaderSpec.checks header file_size)) = ok ->
   mul32 (Header.toc_count header) Entry.struct_size
     = Header.toc_count header * 64 /\
   Header.toc_count header * 64 < 4294967296).
Proof.
  intros Hr. split; [|split].
  - rewrite validate_header_first_violated by exact Hr.
    unfold HeaderSpec.checks, HeaderSpec.first_violated.
    split.
    + intros H. revert H. case_comparisons; cbn [andb]; try discriminate; lia.
    + intros H. case_comparisons; cbn [andb]; try reflexivity; lia.
  - apply validate_header_first_violated, Hr.
  - unfold HeaderSpec.checks, HeaderSpec.first_violated. cbn [firstn].
    case_comparisons; cbn [andb]; try discriminate; intros _.
    split; [apply mul32_toc_size|]; lia.
Qed.

(** The header of a 128-byte package with a single TOC entry. *)
Definition example_header : Header.t := {|
  Header.magic := 0x47504D56;
  Header.version_major := 1;
  Header.version_minor := 0;
  Header.header_size := 64;
  Header.reserved_pad := 0;
  Header.file_size := 128;
  Header.flags := 0;
  Header.toc_offset := 64;
  Header.toc_bytes := 64;
  Header.toc_count := 1;
  Header.sha256_package := repeat x00 32
|}.

Lemma validate_header_spec_witness :
  header_in_range example_header /\
  validate_vmprog_header_v1_0 example_header 128 = ok.
Proof.
  assert (Hr : header_in_range example_header)
    by (unfold header_in_range, is_u32, is_u16; cbn; lia).
  split; [exact Hr|].
  apply (proj1 (validate_header_spec example_header 128 Hr)).
  cbn. lia.
Defined.

(** Scenario 1 of the specification: a zeroed magic is reported first. *)
Example magic_check :
  validate_vmprog_header_v1_0
    {| Header.magic := 0; Header.version_major := 7; Header.version_minor := 0;
       Header.header_size := 0; Header.reserved_pad := 0; Header.file_size := 128;
       Header.flags := 0; Header.toc_offset := 0; Header.toc_bytes := 0;
       Header.toc_count := 0; Header.sha256_package := repeat x00 32 |} 128
  = invalid_magic.
Proof. reflexivity. Qed.

(** *** TOC entries *)

(** The documented constraints on a TOC entry, [flags] apart. *)
Definition entry_well_formed (file_size : Z) (e : Entry.t) : Prop :=
  Entry.type e <> EntryType.none /\
  64 <= Entry.offset e < file_size /\
  0 <= Entry.size e /\
  Entry.offset e + Entry.size e <= file_size /\
  Forall (fun r => r = 0) (Entry.reserved e).

Lemma well_formed_entry_valid (file_size : Z) (e : Entry.t) :
  is_u32 file_size -> entry_well_formed file_size e ->
  validate_vmprog_toc_entry_v1_0 e file_size = ok.
Proof.
  intros Hfs (Hty & Hoff & Hsz & Hfit & Hres).
  unfold is_u32 in *. unfold validate_vmprog_toc_entry_v1_0, Header.struct_size.
  destruct (Z.eqb_spec (Entry.type e) 0); [contradiction|].
  destruct (Z.ltb_spec (Entry.offset e) 64); [lia|].
  destruct (Z.geb_spec (Entry.offset e) file_size); [lia|].
  cbn [orb].
  assert (Hsub : sub32 file_size (Entry.size e) = file_size - Entry.size e).
  { unfold sub32, u32. apply Z.mod_small. lia. }
  rewrite Hsub.
  assert (Hbound : (Entry.size e >? 0)
                   && (Entry.offset e >? file_size - Entry.size e) = false).
  { destruct (Z.gtb_spec (Entry.offset e) (file_size - Entry.size e));
      [lia|]. apply andb_false_r. }
  rewrite Hbound.
  assert (Hex : existsb (fun r => negb (r =? 0)) (Entry.reserved e) = false).
  { induction Hres as [|r rest Hr _ IH]; [reflexivity|].
    cbn [existsb]. rewrite IH. subst r. reflexivity. }
  now rewrite Hex.
Qed.

Definition set_entry_flags (entry : Entry.t) (flags : Z) : Entry.t := {|
  Entry.type := Entry.type entry;
  Entry.flags := flags;
  Entry.offset := Entry.offset entry;
  Entry.size := Entry.size entry;
  Entry.sha256 := Entry.sha256 entry;
  Entry.reserved := Entry.reserved entry
|}.

(** A bitstream entry with a payload of 16 bytes at offset 128 and the
    reserved flags word set to 1. *)
Definition flagged_entry : Entry.t := {|
  Entry.type := EntryType.fpga_bitstream;
  Entry.flags := 1;
  Entry.offset := 128;
  Entry.size := 16;
  Entry.sha256 := repeat x00 32;
  Entry.reserved := [0; 0; 0; 0]
|}.

(** C6, the claim as stated fails: an entry that meets every other
    constraint and has a nonzero [flags] word is accepted. *)
Lemma toc_entry_flags_counterexample :
  Entry.flags flagged_entry = 1 /\
  Entry.type flagged_entry = EntryType.fpga_bitstream /\
  64 <= Entry.offset flagged_entry < 144 /\
  Entry.offset flagged_entry + Entry.size flagged_entry <= 144 /\
  Entry.reserved flagged_entry = [0; 0; 0; 0] /\
  validate_vmprog_toc_entry_v1_0 flagged_entry 144 = ok.
Proof. cbn. repeat split; lia. Qed.

(** C6, amended.  [validate_vmprog_toc_entry_v1_0] does not read the
    [flags] word: for every entry, every file size and every value of
    [flags] its result, [ok] or any error code, is the one it gives with
    the entry's own [flags]; in particular an entry that satisfies the
    other documented constraints (nonzero type, offset in
    [[64, file_size)], payload inside the file, reserved words zero) is
    accepted whatever [flags] holds. *)
Theorem toc_entry_flags_ignored (entry : Entry.t) (file_size flags : Z) :
  validate_vmprog_toc_entry_v1_0 (set_entry_flags entry flags) file_size
    = validate_vmprog_toc_entry_v1_0 entry file_size /\
  (forall other : Z,
     validate_vmprog_toc_entry_v1_0 (set_entry_flags entry flags) file_size
       = validate_vmprog_toc_entry_v1_0 (set_entry_flags entry other) file_size) /\
  (is_u32 file_size -> is_u32 (Entry.size entry) ->
   Entry.type entry <> EntryType.none ->
   64 <= Entry.offset entry < file_size ->
   Entry.offset entry + Entry.size entry <= file_size ->
   Forall (fun r => r = 0) (Entry.reserved entry) ->
   validate_vmprog_toc_entry_v1_0 (set_entry_flags entry flags) file_size = ok).
Proof.
  assert (Hsame : forall f,
            validate_vmprog_toc_entry_v1_0 (set_entry_flags entry f) file_size
            = validate_vmprog_toc_entry_v1_0 entry file_size).
  { intros f. unfold validate_vmprog_toc_entry_v1_0, set_entry_flags.
    cbn [Entry.type Entry.offset Entry.size Entry.reserved]. reflexivity. }
  split; [apply Hsame|]. split.
  - intros other. rewrite !Hsame. reflexivity.
  - intros Hfs Hsz Hty Hoff Hfit Hres. rewrite Hsame.
    apply well_formed_entry_valid; [exact Hfs|].
    unfold entry_well_formed, is_u32 in *. repeat split; try assumption; lia.
Qed.

(** An entry that violates another constraint (its offset lies inside the
    header) gets the same error code whatever [flags] holds. *)
Example toc_entry_flags_ignored_on_error :
  validate_vmprog_toc_entry_v1_0
    (set_entry_flags {| Entry.type := EntryType.fpga_bitstream; Entry.flags := 0;
                        Entry.offset := 8; Entry.size := 16;
                        Entry.sha256 := repeat x00 32;
                        Entry.reserved := [0; 0; 0; 0] |} 0xFFFFFFFF) 144
  = invalid_payload_offset.
Proof. reflexivity. Qed.

Lemma toc_entry_flags_ignored_witness :
  validate_vmprog_toc_entry_v1_0 (set_entry_flags flagged_entry 0xFFFFFFFF) 144 = ok /\
  validate_vmprog_toc_entry_v1_0 (set_entry_flags flagged_entry 0xFFFFFFFF) 144
    = validate_vmprog_toc_entry_v1_0 flagged_entry 144.
Proof.
  destruct (toc_entry_flags_ignored flagged_entry 144 0xFFFFFFFF)
    as (Hsame & _ & Hok).
  split; [|exact Hsame].
  apply Hok; unfold is_u32; cbn; try lia.
  repeat constructor.
Defined.

(** ** The display string renderer *)

Module DisplayExamples.

(** A parameter shown from -100 to 100 without decimals, label or suffix
    (scenario 5 of the specification). *)
Definition signed_percent : Param.t := {|
  Param.parameter_id := 1;
  Param.control_mode := Mode.linear;
  Param.min_value := 0;
  Param.max_value := 1023;
  Param.initial_value := 0;
  Param.display_min_value := -100;
  Param.display_max_value := 100;
  Param.display_float_digits := 0;
  Param.value_label_count := 0;
  Param.reserved_pad := [0; 0];
  Param.name_label := repeat x00 32;
  Param.value_labels := repeat (repeat x00 32) 16;
  Param.suffix_label := repeat x00 4;
  Param.reserved := [0; 0]
|}.

Definition rendered (value : Z) (config : Param.t) (out_str_size : nat)
  : option (list byte) :=
  trace <- generate_parameter_value_display_string value config
             (Z.of_nat out_str_size) ;;
  Some (c_string (written_buffer trace (repeat xff out_str_size))).

End DisplayExamples.

Example display_scenario_low :
  DisplayExamples.rendered 0 DisplayExamples.signed_percent 16
  = Some [x2d; x31; x30; x30].
Proof. vm_compute. reflexivity. Qed.

Example display_scenario_high :
  DisplayExamples.rendered 1023 DisplayExamples.signed_percent 16
  = Some [x31; x30; x30].
Proof. vm_compute. reflexivity. Qed.

(** A parameter record that announces 20 value labels, four more than
    the record holds: at the top of the range the label index is 19 and
    the pointer [value_labels[19]] lies beyond the record, so the model
    gives no result; with a label count of 17 the index 16 reads the
    suffix label. *)
Example display_label_beyond_record :
  let config count := {|
    Param.parameter_id := 1;
    Param.control_mode := Mode.linear;
    Param.min_value := 0;
    Param.max_value := 1023;
    Param.initial_value := 0;
    Param.display_min_value := 0;
    Param.display_max_value := 0;
    Param.display_float_digits := 0;
    Param.value_label_count := count;
    Param.reserved_pad := [0; 0];
    Param.name_label := repeat x00 32;
    Param.value_labels := repeat (repeat x00 32) 16;
    Param.suffix_label := [x48; x7a; x00; x00];
    Param.reserved := [0; 0]
  |} in
  generate_parameter_value_display_string 1023 (config 20) 8 = None /\
  DisplayExamples.rendered 1023 (config 17) 8 = Some [x48; x7a].
Proof. vm_compute. split; reflexivity. Qed.

(** C3, at the failing input: with a buffer of one byte and a negative
    scaled value the minus sign is stored at index 0 without a bounds
    test and the terminator at index 1, outside the buffer. *)
Theorem display_string_minus_sign_overflow :
  scaled_display_value 0 DisplayExamples.signed_percent = -100 /\
  generate_parameter_value_display_string 0 DisplayExamples.signed_percent 1
  = Some [(0, x2d); (1, x00)].
Proof. vm_compute. split; reflexivity. Qed.

Module DisplayFacts.

(** Every write made so far lies below the cursor. *)
Definition below_cursor (st : out_state) : Prop :=
  0 <= pos st /\ Forall (fun w => 0 <= fst w < pos st) (writes st).

Lemma below_cursor_init : below_cursor {| pos := 0; writes := [] |}.
Proof. split; cbn; [lia | constructor]. Qed.

Lemma put_below_cursor (st : out_state) (c : byte) :
  below_cursor st -> below_cursor (put st c).
Proof.
  intros [Hp Hw]. split; cbn; [lia|].
  apply Forall_app. split.
  - eapply Forall_impl; [|exact Hw]. cbn. intros w H. lia.
  - constructor; [cbn; lia | constructor].
Qed.

Lemma put_guarded_below_cursor (src : list byte) (size : Z) (st : out_state) :
  below_cursor st -> below_cursor (put_guarded src size st).
Proof.
  revert st. induction src as [|c rest IH]; intros st H; cbn; [exact H|].
  destruct (pos st <? size - 1); [|exact H].
  apply IH, put_below_cursor, H.
Qed.

Lemma put_guarded_pos (src : list byte) (size : Z) (st : out_state) :
  pos st <= size - 1 -> pos (put_guarded src size st) <= size - 1.
Proof.
  revert st. induction src as [|c rest IH]; intros st H; cbn; [exact H|].
  destruct (Z.ltb_spec (pos st) (size - 1)); [|exact H].
  apply IH. cbn. lia.
Qed.

Lemma put_suffix_below_cursor (src : list byte) (size : Z) (st : out_state) :
  below_cursor st -> below_cursor (put_suffix src size st).
Proof.
  revert st. induction src as [|c rest IH]; intros st H; cbn; [exact H|].
  destruct (negb (is_nul c) && (pos st <? size - 1)); [|exact H].
  apply IH, put_below_cursor, H.
Qed.

Lemma put_suffix_pos (src : list byte) (size : Z) (st : out_state) :
  pos st <= size - 1 -> pos (put_suffix src size st) <= size - 1.
Proof.
  revert st. induction src as [|c rest IH]; intros st H; cbn; [exact H|].
  destruct (negb (is_nul c)); cbn [andb]; [|exact H].
  destruct (Z.ltb_spec (pos st) (size - 1)); [|exact H].
  apply IH. cbn. lia.
Qed.

Lemma fold_put_below_cursor (l : list byte) (st : out_state) :
  below_cursor st -> below_cursor (fold_left put l st).
Proof.
  revert st. induction l as [|c rest IH]; intros st H; cbn; [exact H|].
  apply IH, put_below_cursor, H.
Qed.

Lemma fold_put_pos (l : list byte) (st : out_state) :
  pos (fold_left put l st) = pos st + Z.of_nat (length l).
Proof.
  revert st. induction l as [|c rest IH]; intros st; cbn [fold_left length].
  - lia.
  - rewrite IH. cbn [put pos]. lia.
Qed.

Lemma fast_strcpy_loop_length (src : list byte) (room : nat) (copied : list byte) :
  fast_strcpy_loop src room = Some copied -> (length copied <= room)%nat.
Proof.
  revert src copied. induction room as [|room IH]; intros src copied H; cbn in H.
  - injection H as <-. cbn. lia.
  - destruct src as [|c rest]; [discriminate|].
    destruct (is_nul c); [injection H as <-; cbn; lia|].
    destruct (fast_strcpy_loop rest room) as [tail|] eqn:E; [|discriminate].
    cbn in H. injection H as <-. cbn. apply IH in E. lia.
Qed.

(** The terminator closes the trace, at the cursor. *)
Lemma terminated_trace (size : Z) (st : out_state) :
  below_cursor st -> pos st <= size - 1 ->
  Forall (fun w => 0 <= fst w < size) (writes (put st x00)) /\
  exists earlier i,
    writes (put st x00) = earlier ++ [(i, x00)] /\ 0 <= i < size.
Proof.
  intros [Hp Hw] Hle. split.
  - cbn. apply Forall_app. split.
    + eapply Forall_impl; [|exact Hw]. cbn. intros w H. lia.
    + constructor; [cbn; lia | constructor].
  - exists (writes st), (pos st). cbn. split; [reflexivity | lia].
Qed.

End DisplayFacts.

(** X1 (renderer bounds).
    The renderer stays inside its buffer and ends with a terminator inside
    it whenever the buffer has at least two bytes, and with a buffer of one
    byte whenever no minus sign is due (a label is shown, or the scaled
    value is not negative). *)
Theorem display_string_in_bounds
  (value : Z) (config : Param.t) (out_str_size : Z) (trace : list (Z * byte)) :
  1 <= out_str_size ->
  (out_str_size = 1 ->
   2 <= Param.value_label_count config \/ 0 <= scaled_display_value value config) ->
  generate_parameter_value_display_string value config out_str_size = Some trace ->
  Forall (fun w => 0 <= fst w < out_str_size) trace /\
  exists earlier i, trace = earlier ++ [(i, x00)] /\ 0 <= i < out_str_size.
Proof.
  intros Hsize Hone. unfold generate_parameter_value_display_string.
  destruct (Z.eqb_spec out_str_size 0); [lia|].
  destruct (Z.geb_spec (Param.value_label_count config) 2) as [Hlab | Hnolab].
  - (* a value label is copied *)
    unfold fast_strcpy.
    destruct (Z.eqb_spec out_str_size 0); [lia|].
    destruct (fast_strcpy_loop _ _) as [copied|] eqn:E; [|discriminate].
    cbn [bind]. intros H. injection H as <-.
    apply DisplayFacts.fast_strcpy_loop_length in E.
    apply DisplayFacts.terminated_trace.
    + apply DisplayFacts.fold_put_below_cursor, DisplayFacts.below_cursor_init.
    + rewrite DisplayFacts.fold_put_pos. cbn [pos]. lia.
  - (* the number is formatted *)
    intros H. injection H as <-.
    set (sign := if scaled_display_value value config <? 0
                 then put {| pos := 0; writes := [] |} (byte_of_Z 45)
                 else {| pos := 0; writes := [] |}).
    assert (Hsign : DisplayFacts.below_cursor sign /\ pos sign <= out_str_size - 1).
    { subst sign.
      destruct (Z.ltb_spec (scaled_display_value value config) 0).
      - split.
        + apply DisplayFacts.put_below_cursor, DisplayFacts.below_cursor_init.
        + cbn. destruct (Z.eq_dec out_str_size 1) as [E1|]; [|lia].
          destruct (Hone E1); lia.
      - split; [apply DisplayFacts.below_cursor_init | cbn; lia]. }
    destruct Hsign as [Hb Hp].
    set (int_done := put_guarded _ out_str_size sign).
    assert (Hint : DisplayFacts.below_cursor int_done /\ pos int_done <= out_str_size - 1).
    { subst int_done. split.
      - apply DisplayFacts.put_guarded_below_cursor, Hb.
      - apply DisplayFacts.put_guarded_pos, Hp. }
    destruct Hint as [Hb1 Hp1].
    set (frac_done := if _ && (pos int_done <? out_str_size - 1) then _ else int_done).
    assert (Hfrac : DisplayFacts.below_cursor frac_done /\ pos frac_done <= out_str_size - 1).
    { subst frac_done.
      destruct (Param.display_float_digits config >? 0); cbn [andb];
        [|split; assumption].
      destruct (Z.ltb_spec (pos int_done) (out_str_size - 1)); [|split; assumption].
      split.
      - do 2 apply DisplayFacts.put_guarded_below_cursor.
        apply DisplayFacts.put_below_cursor, Hb1.
      - do 2 apply DisplayFacts.put_guarded_pos. unfold put. cbn [pos]. lia. }
    destruct Hfrac as [Hb2 Hp2].
    set (suffix_done := if _ && (pos frac_done <? out_str_size - 1) then _ else frac_done).
    assert (Hsuf : DisplayFacts.below_cursor suffix_done /\ pos suffix_done <= out_str_size - 1).
    { subst suffix_done.
      destruct (negb _ && (pos frac_done <? out_str_size - 1)); [|split; assumption].
      split.
      - apply DisplayFacts.put_suffix_below_cursor, Hb2.
      - apply DisplayFacts.put_suffix_pos, Hp2. }
    destruct Hsuf as [Hb3 Hp3].
    apply DisplayFacts.terminated_trace; assumption.
Qed.

Lemma display_string_in_bounds_witness :
  Forall (fun w => 0 <= fst w < 3) [(0, x2d); (1, x31); (2, x00)] /\
  exists earlier i,
    [(0, x2d); (1, x31); (2, x00)] = earlier ++ [(i, x00)] /\ 0 <= i < 3.
Proof.
  apply (display_string_in_bounds 0 DisplayExamples.signed_percent 3).
  - lia.
  - intros H. discriminate H.
  - vm_compute. reflexivity.
Defined.

(** ** Package validation *)

(** *** Concrete packages

    The bytes of a package depend on the hash function (the TOC stores the
    hash of every payload), so concrete packages need concrete primitives.
    The two below stand in for Monocypher's BLAKE2b and Ed25519 when a
    package is written out; the validators are never specialised to
    them. *)
Module Fixture.

Definition stand_in_blake2b (m : list byte) : list byte :=
  let sums :=
    fold_left
      (fun acc b =>
         let a := (fst acc * 131 + byte_to_Z b + 1) mod 65521 in
         (a, (snd acc + a) mod 65521))
      m (7, 11) in
  map (fun i => byte_of_Z (fst sums * (i + 1) + snd sums * (2 * i + 3) + i))
      (indices 32).

Definition bytes_eqb (a b : list byte) : bool :=
  (length a =? length b)%nat
  && forallb (fun p => Byte.eqb (fst p) (snd p)) (combine a b).

(** The signature of [msg] under [pub] is the digest of [pub ++ msg]
    followed by the digest of [msg ++ pub]. *)
Definition stand_in_sign (pub msg : list byte) : list byte :=
  stand_in_blake2b (pub ++ msg) ++ stand_in_blake2b (msg ++ pub).

Definition stand_in_ed25519_check (sig pub msg : list byte) : Z :=
  if bytes_eqb sig (stand_in_sign pub msg) then 0 else -1.

(** Little-endian encoding on [n] bytes. *)
Definition le_bytes (n : nat) (z : Z) : list byte :=
  map (fun i => byte_of_Z (Z.shiftr z (8 * i))) (indices n).

Definition zeros (n : Z) : list byte := repeat x00 (Z.to_nat n).

Definition encode_header (flags file_size toc_count : Z) : list byte :=
  le_bytes 4 Header.expected_magic ++ le_bytes 2 1 ++ le_bytes 2 0
  ++ le_bytes 2 64 ++ le_bytes 2 0 ++ le_bytes 4 file_size ++ le_bytes 4 flags
  ++ le_bytes 4 64 ++ le_bytes 4 (64 * toc_count) ++ le_bytes 4 toc_count
  ++ zeros 32.

Definition encode_entry (type offset : Z) (hash payload : list byte) : list byte :=
  le_bytes 4 type ++ le_bytes 4 0 ++ le_bytes 4 offset
  ++ le_bytes 4 (Z.of_nat (length payload)) ++ hash ++ zeros 16.

(** The TOC entries of the sections, the first payload at [offset]. *)
Fixpoint encode_toc (hash : list byte -> list byte) (offset : Z)
  (sections : list (Z * list byte)) : list byte :=
  match sections with
  | [] => []
  | (type, payload) :: rest =>
      encode_entry type offset (hash payload) payload
      ++ encode_toc hash (offset + Z.of_nat (length payload)) rest
  end.

(** A package: header, TOC, then the payloads back to back; the package
    hash is left absent (all zero). *)
Definition build_package (hash : list byte -> list byte) (flags : Z)
  (sections : list (Z * list byte)) : list byte :=
  let toc_count := Z.of_nat (length sections) in
  let payloads := concat (map snd sections) in
  let file_size := 64 + 64 * toc_count + Z.of_nat (length payloads) in
  encode_header flags file_size toc_count
  ++ encode_toc hash (64 + 64 * toc_count) sections
  ++ payloads.

(** A program configuration that validates: identifier "p", name "n",
    ABI range [1.0, 2.0), hardware [rev_a], core [yuv444_30b], no
    parameters. *)
Definition config_bytes : list byte :=
  [x70] ++ zeros 63
  ++ le_bytes 2 1 ++ le_bytes 2 0 ++ le_bytes 2 0
  ++ le_bytes 2 1 ++ le_bytes 2 0 ++ le_bytes 2 2 ++ le_bytes 2 0
  ++ le_bytes 4 1 ++ le_bytes 4 1
  ++ [x6e] ++ zeros 31
  ++ zeros 7254.

(** A signed descriptor without artifacts and with the given
    [config_sha256]. *)
Definition descriptor_bytes (config_sha256 : list byte) : list byte :=
  config_sha256 ++ zeros 4 ++ zeros 288 ++ le_bytes 4 0 ++ le_bytes 4 1.

Definition bitstream_bytes : list byte := le_bytes 16 0x0123456789ABCDEF.

Definition public_key : list byte :=
  [xd4; xda; x2b; x01; x98; x06; x77; x89; x21; x75; x3d; xa9; x1d; xb8; xef; x9b;
   xb7; x9a; xac; xf4; x13; x66; x70; xfd; x7c; x8d; x48; x69; x1a; xd7; x4e; x4b].

End Fixture.

(** *** Byte comparison *)

Lemma byte_to_Z_range (b : byte) : 0 <= byte_to_Z b < 256.
Proof.
  unfold byte_to_Z. pose proof (Byte.to_N_bounded b) as H.
  lia.
Qed.

Lemma byte_to_Z_inj (a b : byte) : byte_to_Z a = byte_to_Z b -> a = b.
Proof.
  unfold byte_to_Z. intros H. apply N2Z.inj in H.
  pose proof (Byte.of_to_N a) as Ha. pose proof (Byte.of_to_N b) as Hb.
  rewrite H in Ha. rewrite Ha in Hb. now injection Hb.
Qed.

Lemma lor_fold_zero (g : nat -> Z) (l : list nat) (acc : Z) :
  fold_left (fun diff i => Z.lor diff (g i)) l acc = 0 ->
  acc = 0 /\ Forall (fun i => g i = 0) l.
Proof.
  revert acc. induction l as [|i rest IH]; intros acc H; cbn in H.
  - split; [exact H | constructor].
  - apply IH in H. destruct H as [H0 Hrest].
    apply Z.lor_eq_0_iff in H0. destruct H0 as [Hacc Hg].
    split; [exact Hacc | constructor; assumption].
Qed.

Lemma lor_fold_high_bits (g : nat -> Z) (l : list nat) (acc : Z) :
  Z.shiftr acc 8 = 0 -> (forall i, Z.shiftr (g i) 8 = 0) ->
  Z.shiftr (fold_left (fun diff i => Z.lor diff (g i)) l acc) 8 = 0.
Proof.
  revert acc. induction l as [|i rest IH]; intros acc Hacc Hg; cbn; [exact Hacc|].
  apply IH; [|exact Hg].
  rewrite Z.shiftr_lor, Hacc, Hg. reflexivity.
Qed.

Lemma lxor_bytes_high_bits (a b : byte) :
  Z.shiftr (Z.lxor (byte_to_Z a) (byte_to_Z b)) 8 = 0.
Proof.
  rewrite Z.shiftr_lxor.
  pose proof (byte_to_Z_range a). pose proof (byte_to_Z_range b).
  rewrite !Z.shiftr_div_pow2 by lia.
  change (2 ^ 8) with 256.
  rewrite !Z.div_small by lia. reflexivity.
Qed.

(** [secure_compare] accepts exactly when the first [n] bytes agree. *)
Lemma secure_compare_true (a b : list byte) (n : nat) :
  secure_compare a b n = true ->
  forall i, (i < n)%nat -> nth i a x00 = nth i b x00.
Proof.
  unfold secure_compare, u8. intros H i Hi.
  apply Z.eqb_eq in H.
  pose (g := fun i => Z.lxor (byte_to_Z (nth i a x00)) (byte_to_Z (nth i b x00))).
  pose proof (lor_fold_high_bits g (seq 0 n) 0 eq_refl
                (fun i => lxor_bytes_high_bits _ _)) as Hhigh.
  pose (diff := fold_left (fun diff i => Z.lor diff (g i)) (seq 0 n) 0).
  change (diff mod 256 = 0) in H.
  change (Z.shiftr diff 8 = 0) in Hhigh.
  assert (Hdiff : diff = 0).
  { rewrite Z.shiftr_div_pow2 in Hhigh by lia. change (2 ^ 8) with 256 in Hhigh.
    pose proof (Z.div_mod diff 256 ltac:(lia)). lia. }
  apply lor_fold_zero in Hdiff. destruct Hdiff as [_ Hall].
  rewrite Forall_forall in Hall.
  specialize (Hall i ltac:(apply in_seq; lia)). unfold g in Hall.
  apply Z.lxor_eq in Hall. apply byte_to_Z_inj, Hall.
Qed.

Lemma secure_compare_refl (a : list byte) (n : nat) : secure_compare a a n = true.
Proof.
  unfold secure_compare.
  assert (H : forall l acc, acc = 0 ->
            fold_left (fun diff i =>
              Z.lor diff (Z.lxor (byte_to_Z (nth i a x00)) (byte_to_Z (nth i a x00))))
              l acc = 0).
  { induction l as [|i rest IH]; intros acc ->; cbn; [reflexivity|].
    apply IH. now rewrite Z.lxor_nilpotent. }
  now rewrite H.
Qed.

Lemma secure_compare_hash_eq (a b : list byte) :
  length a = 32%nat -> length b = 32%nat ->
  secure_compare_hash a b = true -> a = b.
Proof.
  unfold secure_compare_hash.
  intros Ha Hb H. apply (nth_ext a b x00 x00); [congruence|].
  intros i Hi. apply (secure_compare_true a b 32 H). lia.
Qed.

(** *** Reading the result of the monadic steps *)

Lemma bind_Some {A B : Type} (x : option A) (k : A -> option B) (y : B) :
  bind x k = Some y -> exists a, x = Some a /\ k a = Some y.
Proof. destruct x as [a|]; cbn; [eauto | discriminate]. Qed.

Lemma check_ok (r : vmprog_validation_result)
  (k : option vmprog_validation_result) :
  check r k = Some ok -> r = ok /\ k = Some ok.
Proof. destruct r; cbn; intros H; try discriminate; auto. Qed.

Lemma load_bytes_Some (data : list byte) (off len : Z) (bs : list byte) :
  load_bytes data off len = Some bs ->
  bs = firstn (Z.to_nat len) (skipn (Z.to_nat off) data) /\
  0 <= off /\ 0 <= len /\ off + len <= Z.of_nat (length data).
Proof.
  unfold load_bytes.
  destruct (Z.leb_spec 0 off), (Z.leb_spec 0 len),
    (Z.leb_spec (off + len) (Z.of_nat (length data)));
    cbn [andb]; intros Hload; try discriminate.
  injection Hload as <-. auto.
Qed.

Lemma load_bytes_inside (data : list byte) (off len : Z) :
  0 <= off -> 0 <= len -> off + len <= Z.of_nat (length data) ->
  load_bytes data off len = Some (firstn (Z.to_nat len) (skipn (Z.to_nat off) data)).
Proof.
  intros. unfold load_bytes.
  destruct (Z.leb_spec 0 off), (Z.leb_spec 0 len),
    (Z.leb_spec (off + len) (Z.of_nat (length data))); try lia.
  reflexivity.
Qed.

Lemma load_bytes_length (data : list byte) (off len : Z) (bs : list byte) :
  load_bytes data off len = Some bs -> length bs = Z.to_nat len.
Proof.
  intros H. apply load_bytes_Some in H. destruct H as (-> & H0 & H1 & H2).
  rewrite length_firstn, length_skipn. lia.
Qed.

(** The hash field of every entry of a TOC read from a buffer has 32
    bytes. *)
Lemma toc_at_sha256_length (data : list byte) (count : nat) :
  forall off toc, toc_at data off count = Some toc ->
  Forall (fun e => length (Entry.sha256 e) = 32%nat) toc.
Proof.
  induction count as [|n IH]; intros off toc H; cbn in H.
  - injection H as <-. constructor.
  - apply bind_Some in H. destruct H as (e & He & H).
    apply bind_Some in H. destruct H as (rest & Hrest & H).
    injection H as <-. constructor; [|eapply IH; eassumption].
    unfold toc_entry_at in He. apply bind_Some in He.
    destruct He as (bs & Hbs & He). injection He as <-.
    apply load_bytes_length in Hbs.
    cbn [Entry.view Entry.sha256]. unfold field_bytes.
    rewrite length_firstn, length_skipn, Hbs.
    unfold Entry.struct_size. lia.
Qed.

(** Header validation bounds the file size. *)
Lemma validate_header_ok_file_size (header : Header.t) (file_size : Z) :
  validate_vmprog_header_v1_0 header file_size = ok -> 64 <= file_size <= 1048576.
Proof.
  unfold validate_vmprog_header_v1_0, Header.struct_size, Header.max_file_size.
  destruct (negb _); [discriminate|].
  destruct (negb _); [discriminate|].
  destruct (negb _); [discriminate|].
  destruct (Z.ltb_spec file_size 64); cbn [orb]; [discriminate|].
  destruct (Z.gtb_spec file_size 1048576); cbn [orb]; [discriminate|].
  intros _. lia.
Qed.

Lemma first_error_ok_intro {A : Type} (body : A -> vmprog_validation_result)
  (l : list A) :
  Forall (fun a => body a = ok) l -> first_error body l = ok.
Proof.
  induction 1 as [|a rest Ha _ IH]; cbn; [reflexivity|]. now rewrite Ha.
Qed.

Lemma first_error_ok_elim {A : Type} (body : A -> vmprog_validation_result)
  (l : list A) :
  first_error body l = ok -> Forall (fun a => body a = ok) l.
Proof.
  induction l as [|a rest IH]; cbn; intros H; [constructor|].
  destruct (body a) eqn:E; try discriminate.
  constructor; auto.
Qed.

Lemma find_toc_entry_In (toc : list Entry.t) (type : Z) (e : Entry.t) :
  find_toc_entry toc type = Some e -> In e toc /\ Entry.type e = type.
Proof.
  unfold find_toc_entry. intros H. apply find_some in H.
  destruct H as [Hin Heq]. apply Z.eqb_eq in Heq. auto.
Qed.

(** *** What acceptance establishes *)

Section PackageFacts.

Variable crypto_blake2b : list byte -> list byte.
Variable crypto_ed25519_check : list byte -> list byte -> list byte -> Z.

Local Abbreviation validate_package :=
  (validate_vmprog_package crypto_blake2b crypto_ed25519_check).
Local Abbreviation payload_loop := (verify_payload_hashes_loop crypto_blake2b).

(** The payload a TOC entry points to. *)
Definition payload_of (data : list byte) (e : Entry.t) : list byte :=
  firstn (Z.to_nat (Entry.size e)) (skipn (Z.to_nat (Entry.offset e)) data).

(** The stages an accepted package has passed. *)
Lemma validate_package_ok_stages (data : list byte) (file_size : Z)
  (verify_hashes verify_signature : bool) (public_key : option (list byte)) :
  validate_package data file_size verify_hashes verify_signature public_key
    = Some ok ->
  exists header toc,
    header_at data 0 = Some header /\
    validate_vmprog_header_v1_0 header file_size = ok /\
    toc_at data (Header.toc_offset header) (Z.to_nat (Header.toc_count header))
      = Some toc /\
    first_error (fun e => validate_vmprog_toc_entry_v1_0 e file_size) toc = ok /\
    (verify_hashes = true ->
     package_hashes_step crypto_blake2b data file_size header = Some ok) /\
    package_config_step data toc = Some ok /\
    package_descriptor_step crypto_ed25519_check data toc header
      verify_signature public_key = Some ok.
Proof.
  unfold validate_vmprog_package.
  destruct (file_size <? Header.struct_size); [discriminate|].
  intros H.
  apply bind_Some in H. destruct H as (header & Hh & H).
  apply check_ok in H. destruct H as [Hv H].
  apply bind_Some in H. destruct H as (toc & Ht & H).
  apply check_ok in H. destruct H as [Hes H].
  apply bind_Some in H. destruct H as (hashes & Hhash & H).
  apply check_ok in H. destruct H as [-> H].
  apply bind_Some in H. destruct H as (cfg & Hcfg & H).
  apply check_ok in H. destruct H as [-> Hdesc].
  exists header, toc. repeat split; try assumption.
  intros ->. exact Hhash.
Qed.

Lemma payload_loop_ok_elim (data : list byte) (file_size : Z) (toc : list Entry.t) :
  payload_loop data file_size toc = Some ok ->
  Forall (fun e =>
            Entry.size e <> 0 ->
            exists payload,
              load_bytes data (Entry.offset e) (Entry.size e) = Some payload /\
              verify_hash crypto_blake2b payload (Entry.sha256 e) = true) toc.
Proof.
  induction toc as [|e rest IH]; cbn [verify_payload_hashes_loop]; intros H;
    [constructor|].
  destruct (Z.eqb_spec (Entry.size e) 0) as [Hz | Hnz].
  - constructor; [intros Hne; contradiction | auto].
  - apply check_ok in H. destruct H as [_ H].
    apply bind_Some in H. destruct H as (payload & Hload & H).
    destruct (verify_hash crypto_blake2b payload (Entry.sha256 e)) eqn:Ev;
      cbn [negb] in H; [|discriminate].
    constructor; [|auto].
    intros _. exists payload. auto.
Qed.

Lemma payload_loop_ok_intro (data : list byte) (file_size : Z) (toc : list Entry.t) :
  is_u32 file_size -> file_size <= Z.of_nat (length data) ->
  Forall (entry_well_formed file_size) toc ->
  Forall (fun e => Entry.size e = 0 \/
                   verify_hash crypto_blake2b (payload_of data e) (Entry.sha256 e)
                   = true) toc ->
  payload_loop data file_size toc = Some ok.
Proof.
  intros Hfs Hlen Hwf Hhash.
  induction toc as [|e rest IH]; cbn [verify_payload_hashes_loop]; [reflexivity|].
  inversion Hwf as [|? ? Hwe Hwrest]; subst.
  inversion Hhash as [|? ? Hhe Hhrest]; subst.
  destruct (Z.eqb_spec (Entry.size e) 0) as [Hz | Hnz]; [auto|].
  rewrite (well_formed_entry_valid file_size e Hfs Hwe). cbn [check].
  destruct Hwe as (_ & Hoff & Hsz & Hfit & _).
  rewrite load_bytes_inside by lia. cbn [bind].
  destruct Hhe as [Hz | Hv]; [contradiction|].
  unfold payload_of in Hv. rewrite Hv. cbn [negb]. auto.
Qed.

Lemma verify_hash_unfold (payload expected : list byte) :
  verify_hash crypto_blake2b payload expected
  = secure_compare_hash (crypto_blake2b payload) expected.
Proof. reflexivity. Qed.

Lemma verify_hash_eq (payload expected : list byte) :
  (forall m, length (crypto_blake2b m) = 32%nat) ->
  length expected = 32%nat ->
  verify_hash crypto_blake2b payload expected = true ->
  expected = crypto_blake2b payload.
Proof.
  intros Hlen Hexp Hver. symmetry.
  rewrite verify_hash_unfold in Hver.
  exact (secure_compare_hash_eq _ _ (Hlen payload) Hexp Hver).
Qed.

Lemma hashes_step_ok_elim (data : list byte) (file_size : Z) (header : Header.t)
  (toc : list Entry.t) :
  (forall m, length (crypto_blake2b m) = 32%nat) ->
  toc_at data (Header.toc_offset header) (Z.to_nat (Header.toc_count header))
    = Some toc ->
  package_hashes_step crypto_blake2b data file_size header = Some ok ->
  forall e, In e toc -> Entry.size e <> 0 ->
    exists payload,
      load_bytes data (Entry.offset e) (Entry.size e) = Some payload /\
      Entry.sha256 e = crypto_blake2b payload.
Proof.
  intros Hlen Ht Hhash.
  unfold package_hashes_step in Hhash.
  apply bind_Some in Hhash. destruct Hhash as (r & Hall & Hpkg).
  apply check_ok in Hpkg. destruct Hpkg as [-> _].
  unfold verify_all_payload_hashes in Hall. rewrite Ht in Hall.
  apply payload_loop_ok_elim in Hall.
  pose proof (toc_at_sha256_length _ _ _ _ Ht) as Hsha.
  rewrite Forall_forall in Hall, Hsha.
  intros e Hin Hnz. destruct (Hall e Hin Hnz) as (payload & Hload & Hver).
  exists payload. split; [exact Hload|].
  apply verify_hash_eq; auto.
Qed.

Lemma config_step_ok_elim (data : list byte) (toc : list Entry.t)
  (config_entry : Entry.t) (payload : list byte) :
  package_config_step data toc = Some ok ->
  find_toc_entry toc EntryType.config = Some config_entry ->
  Entry.size config_entry = Config.struct_size ->
  load_bytes data (Entry.offset config_entry) Config.struct_size = Some payload ->
  validate_vmprog_program_config_v1_0 (Config.view payload) = ok.
Proof.
  unfold package_config_step, program_config_at.
  intros Hcfg Hfind Hsize Hload.
  rewrite Hfind in Hcfg.
  apply Z.eqb_eq in Hsize. rewrite Hsize in Hcfg.
  rewrite Hload in Hcfg.
  exact (f_equal (fun o => match o with Some r => r | None => ok end) Hcfg).
Qed.

(** C2, amended.  A package accepted with [verify_hashes = true] has, for
    every TOC entry with a payload, the hash of the payload bytes as
    stored in the entry's own [sha256] field; in particular the first
    [config] entry, when its size is 7372, carries the hash of the config
    payload, and that payload validates as a program configuration.  The
    descriptor's [config_sha256] field takes no part in this: the
    validator never reads it. *)
Theorem accepted_package_payload_hashes (data : list byte) (file_size : Z)
  (verify_signature : bool) (public_key : option (list byte)) :
  (forall m, length (crypto_blake2b m) = 32%nat) ->
  validate_package data file_size true verify_signature public_key = Some ok ->
  exists header toc,
    header_at data 0 = Some header /\
    toc_at data (Header.toc_offset header) (Z.to_nat (Header.toc_count header))
      = Some toc /\
    (forall e, In e toc -> Entry.size e <> 0 ->
       exists payload,
         load_bytes data (Entry.offset e) (Entry.size e) = Some payload /\
         Entry.sha256 e = crypto_blake2b payload) /\
    (forall config_entry,
       find_toc_entry toc EntryType.config = Some config_entry ->
       Entry.size config_entry = Config.struct_size ->
       exists payload,
         load_bytes data (Entry.offset config_entry) Config.struct_size
           = Some payload /\
         Entry.sha256 config_entry = crypto_blake2b payload /\
         validate_vmprog_program_config_v1_0 (Config.view payload) = ok).
Proof.
  intros Hlen H.
  apply validate_package_ok_stages in H.
  destruct H as (header & toc & Hh & Hv & Ht & Hes & Hhash & Hcfg & Hdesc).
  exists header, toc. split; [exact Hh|]. split; [exact Ht|].
  pose proof (hashes_step_ok_elim data file_size header toc Hlen Ht (Hhash eq_refl))
    as Hentries.
  split; [exact Hentries|].
  intros ce Hfind Hsize.
  destruct (find_toc_entry_In _ _ _ Hfind) as [Hin _].
  assert (Hnz : Entry.size ce <> 0)
    by (intros Hz; rewrite Hz in Hsize; discriminate Hsize).
  destruct (Hentries ce Hin Hnz) as (payload & Hload & Heq).
  exists payload.
  assert (Hload' : load_bytes data (Entry.offset ce) Config.struct_size = Some payload)
    by (rewrite <- Hsize; exact Hload).
  split; [exact Hload'|]. split; [exact Heq|].
  exact (config_step_ok_elim data toc ce payload Hcfg Hfind Hsize Hload').
Qed.

(** *** The verdict on a structurally valid package *)

(** The first [config] entry, when it has the size of the record, holds a
    valid program configuration. *)
Definition first_config_accepted (data : list byte) (toc : list Entry.t) : Prop :=
  forall config_entry,
    find_toc_entry toc EntryType.config = Some config_entry ->
    Entry.size config_entry = Config.struct_size ->
    validate_vmprog_program_config_v1_0
      (Config.view (payload_of data config_entry)) = ok.

(** The first [signed_descriptor] entry, when it has the size of the
    record, holds a valid descriptor, and (when signature verification is
    requested and the header is flagged signed) a key is given and the
    first [signature] entry has 64 bytes that verify over the descriptor
    bytes. *)
Definition first_descriptor_accepted (data : list byte) (toc : list Entry.t)
  (header : Header.t) (verify_signature : bool) (public_key : option (list byte))
  : Prop :=
  forall desc_entry,
    find_toc_entry toc EntryType.signed_descriptor = Some desc_entry ->
    Entry.size desc_entry = Descriptor.struct_size ->
    validate_vmprog_signed_descriptor_v1_0
      (Descriptor.view (payload_of data desc_entry)) = ok /\
    (verify_signature = true -> is_package_signed header = true ->
     exists key sig_entry,
       public_key = Some key /\
       find_toc_entry toc EntryType.signature = Some sig_entry /\
       Entry.size sig_entry = VMPROG_SIGNATURE_SIZE /\
       ed25519_verify crypto_ed25519_check (payload_of data sig_entry) key
         (payload_of data desc_entry) = true).

Lemma load_payload (data : list byte) (file_size : Z) (toc : list Entry.t)
  (e : Entry.t) :
  file_size <= Z.of_nat (length data) ->
  Forall (entry_well_formed file_size) toc -> In e toc ->
  load_bytes data (Entry.offset e) (Entry.size e) = Some (payload_of data e).
Proof.
  intros Hlen Hwf Hin. rewrite Forall_forall in Hwf.
  destruct (Hwf e Hin) as (_ & Hoff & Hsz & Hfit & _).
  apply load_bytes_inside; lia.
Qed.

Lemma config_step_value (data : list byte) (file_size : Z) (toc : list Entry.t) :
  file_size <= Z.of_nat (length data) ->
  Forall (entry_well_formed file_size) toc ->
  exists r, package_config_step data toc = Some r /\
            (r = ok <-> first_config_accepted data toc).
Proof.
  intros Hlen Hwf. unfold package_config_step, first_config_accepted.
  destruct (find_toc_entry toc 1) as [ce|] eqn:Hfind.
  - destruct (find_toc_entry_In _ _ _ Hfind) as [Hin _].
    pose proof (load_payload data file_size toc ce Hlen Hwf Hin) as Hload.
    destruct (Z.eqb_spec (Entry.size ce) Config.struct_size) as [Hsz | Hsz].
    + assert (Hload' : load_bytes data (Entry.offset ce) Config.struct_size
                       = Some (payload_of data ce))
        by (rewrite <- Hsz; exact Hload).
      unfold program_config_at. rewrite Hload'.
      eexists. split; [reflexivity|]. split.
      * intros Hok ce' Hce' _. injection Hce' as <-. exact Hok.
      * intros Hacc. apply Hacc; [reflexivity | exact Hsz].
    + exists ok. split; [reflexivity|]. split; [|reflexivity].
      intros _ ce' Hce' Hsz'. injection Hce' as <-. contradiction.
  - exists ok. split; [reflexivity|]. split; [|reflexivity].
    intros _ ce' Hce'. discriminate.
Qed.

(** The verdict of the signature block. *)
Lemma signature_step_value (data : list byte) (file_size : Z)
  (toc : list Entry.t) (public_key : option (list byte)) (descriptor : list byte) :
  file_size <= Z.of_nat (length data) ->
  Forall (entry_well_formed file_size) toc ->
  exists r,
    package_signature_step crypto_ed25519_check data toc public_key descriptor
      = Some r /\
    (r = ok <->
     exists key sig_entry,
       public_key = Some key /\
       find_toc_entry toc EntryType.signature = Some sig_entry /\
       Entry.size sig_entry = VMPROG_SIGNATURE_SIZE /\
       ed25519_verify crypto_ed25519_check (payload_of data sig_entry) key
         descriptor = true).
Proof.
  intros Hlen Hwf. unfold package_signature_step.
  destruct public_key as [key|].
  2:{ exists invalid_hash. split; [reflexivity|]. split; [discriminate|].
      intros (k & se & Hk & _). discriminate. }
  destruct (find_toc_entry toc 3) as [se|] eqn:Hfs.
  2:{ exists invalid_hash. split; [reflexivity|]. split; [discriminate|].
      intros (k & se & _ & Hse & _). discriminate. }
  destruct (find_toc_entry_In _ _ _ Hfs) as [Hin_se _].
  pose proof (load_payload data file_size toc se Hlen Hwf Hin_se) as Hload.
  destruct (Z.eqb_spec (Entry.size se) VMPROG_SIGNATURE_SIZE) as [Hss | Hss];
    cbn [negb].
  2:{ exists invalid_hash. split; [reflexivity|]. split; [discriminate|].
      intros (k & se' & _ & Hse & Hsz' & _). injection Hse as <-. contradiction. }
  assert (Hload' : load_bytes data (Entry.offset se) VMPROG_SIGNATURE_SIZE
                   = Some (payload_of data se))
    by (rewrite <- Hss; exact Hload).
  rewrite Hload'. cbn [bind]. unfold verify_ed25519_signature.
  destruct (ed25519_verify crypto_ed25519_check (payload_of data se) key descriptor)
    eqn:Hver; cbn [negb].
  - exists ok. split; [reflexivity|]. split; [|reflexivity].
    intros _. exists key, se. auto.
  - exists invalid_hash. split; [reflexivity|]. split; [discriminate|].
    intros (k & se' & Hk & Hse & _ & Hv).
    injection Hk as <-. injection Hse as <-. congruence.
Qed.

Lemma descriptor_step_value (data : list byte) (file_size : Z)
  (toc : list Entry.t) (header : Header.t) (verify_signature : bool)
  (public_key : option (list byte)) :
  file_size <= Z.of_nat (length data) ->
  Forall (entry_well_formed file_size) toc ->
  exists r,
    package_descriptor_step crypto_ed25519_check data toc header
      verify_signature public_key = Some r /\
    (r = ok <->
     first_descriptor_accepted data toc header verify_signature public_key).
Proof.
  intros Hlen Hwf. unfold package_descriptor_step, first_descriptor_accepted.
  destruct (find_toc_entry toc 2) as [de|] eqn:Hfind.
  2:{ exists ok. split; [reflexivity|]. split; [|reflexivity].
      intros _ de' Hde'. discriminate. }
  destruct (find_toc_entry_In _ _ _ Hfind) as [Hin _].
  pose proof (load_payload data file_size toc de Hlen Hwf Hin) as Hload.
  destruct (Z.eqb_spec (Entry.size de) Descriptor.struct_size) as [Hsz | Hsz].
  2:{ exists ok. split; [reflexivity|]. split; [|reflexivity].
      intros _ de' Hde' Hsz'. injection Hde' as <-. contradiction. }
  assert (Hload' : load_bytes data (Entry.offset de) Descriptor.struct_size
                   = Some (payload_of data de))
    by (rewrite <- Hsz; exact Hload).
  rewrite Hload'. cbn [bind].
  destruct (result_eqb (validate_vmprog_signed_descriptor_v1_0
                          (Descriptor.view (payload_of data de))) ok) eqn:Hval.
  2:{ (* the descriptor is structurally invalid *)
      exists (validate_vmprog_signed_descriptor_v1_0
                (Descriptor.view (payload_of data de))).
      split.
      - destruct (validate_vmprog_signed_descriptor_v1_0 _);
          try reflexivity; discriminate.
      - split.
        + intros Hok. rewrite Hok in Hval. discriminate.
        + intros Hacc. destruct (Hacc de eq_refl Hsz) as [Hok _].
          rewrite Hok in Hval. discriminate. }
  assert (Hok : validate_vmprog_signed_descriptor_v1_0
                  (Descriptor.view (payload_of data de)) = ok)
    by (destruct (validate_vmprog_signed_descriptor_v1_0 _);
        try reflexivity; discriminate).
  rewrite Hok. cbn [check].
  destruct (verify_signature && is_package_signed header) eqn:Hreq.
  2:{ exists ok. split; [reflexivity|]. split; [|reflexivity].
      intros _ de' Hde' _. injection Hde' as <-. split; [exact Hok|].
      intros -> Hs. rewrite Hs in Hreq. discriminate. }
  apply andb_true_iff in Hreq. destruct Hreq as [Hvs Hsigned].
  destruct (signature_step_value data file_size toc public_key (payload_of data de)
              Hlen Hwf) as (r & Hr & Hiff).
  exists r. split; [exact Hr|]. split.
  - intros Hrok de' Hde' _. injection Hde' as <-. split; [exact Hok|].
    intros _ _. apply Hiff, Hrok.
  - intros Hacc. destruct (Hacc de eq_refl Hsz) as [_ Hsig].
    apply Hiff, Hsig; assumption.
Qed.

(** The verdict of the buffer-based validator, as the code computes it,
    on a package whose header and TOC entries are structurally valid and
    whose hashes verify: [validate_vmprog_package] never counts the
    entries of a type; it consults only the first entry of each of the
    types [config], [signed_descriptor] and [signature] (what
    [find_toc_entry] returns), and its result is [ok] exactly when those
    pass.  Two consequences: nothing is asked of a package without a
    descriptor entry of 332 bytes, and further entries of a type have no
    influence. *)
Theorem package_verdict_from_first_entries (data : list byte) (file_size : Z)
  (verify_hashes verify_signature : bool) (public_key : option (list byte))
  (header : Header.t) (toc : list Entry.t) :
  Z.of_nat (length data) = file_size ->
  header_at data 0 = Some header ->
  validate_vmprog_header_v1_0 header file_size = ok ->
  toc_at data (Header.toc_offset header) (Z.to_nat (Header.toc_count header))
    = Some toc ->
  Forall (entry_well_formed file_size) toc ->
  Forall (fun e => Entry.size e = 0 \/
                   verify_hash crypto_blake2b (payload_of data e) (Entry.sha256 e)
                   = true) toc ->
  (is_hash_zero (Header.sha256_package header) = true \/
   verify_package_sha256 crypto_blake2b data file_size = Some true) ->
  (validate_package data file_size verify_hashes verify_signature public_key
     = Some ok <->
   first_config_accepted data toc /\
   first_descriptor_accepted data toc header verify_signature public_key).
Proof.
  intros Hlen Hh Hv Ht Hwf Hhash Hpkg.
  pose proof (validate_header_ok_file_size _ _ Hv) as Hfs.
  assert (Hu32 : is_u32 file_size) by (unfold is_u32; lia).
  assert (Hle : file_size <= Z.of_nat (length data)) by lia.
  unfold validate_vmprog_package, Header.struct_size.
  destruct (Z.ltb_spec file_size 64); [lia|].
  rewrite Hh. cbn [bind]. rewrite Hv. cbn [check]. rewrite Ht. cbn [bind].
  rewrite first_error_ok_intro.
  2:{ eapply Forall_impl; [|exact Hwf]. intros e He.
      apply well_formed_entry_valid; assumption. }
  cbn [check].
  assert (Hstep : (if verify_hashes
                   then package_hashes_step crypto_blake2b data file_size header
                   else Some ok) = Some ok).
  { destruct verify_hashes; [|reflexivity].
    unfold package_hashes_step, verify_all_payload_hashes.
    rewrite Ht. cbn [bind].
    rewrite payload_loop_ok_intro by assumption. cbn [bind check].
    destruct Hpkg as [Hzero | Hver].
    - rewrite Hzero. reflexivity.
    - destruct (is_hash_zero (Header.sha256_package header)); [reflexivity|].
      cbn [negb]. rewrite Hver. reflexivity. }
  rewrite Hstep. cbn [bind check].
  destruct (config_step_value data file_size toc Hle Hwf) as (rc & Hc & Hciff).
  destruct (descriptor_step_value data file_size toc header verify_signature
              public_key Hle Hwf) as (rd & Hd & Hdiff).
  rewrite Hc. cbn [bind]. rewrite Hd.
  split.
  - intros Hres. apply check_ok in Hres. destruct Hres as [Hrc Hrd].
    injection Hrd as Hrd. split; [apply Hciff | apply Hdiff]; assumption.
  - intros [Hca Hda]. apply Hciff in Hca. apply Hdiff in Hda. subst. reflexivity.
Qed.

End PackageFacts.

(** *** Concrete packages *)

Module Packages.
Import Fixture.

Lemma stand_in_blake2b_length (m : list byte) :
  length (stand_in_blake2b m) = 32%nat.
Proof. unfold stand_in_blake2b, indices. now rewrite !length_map, length_seq. Qed.

(** A package flagged as signed from which the signed descriptor and the
    signature have been removed: a header, one TOC entry and a bitstream
    payload of 16 bytes (144 bytes in all). *)
Definition stripped_package : list byte :=
  build_package stand_in_blake2b vmprog_header_flags_v1_0.signed_pkg
    [(EntryType.fpga_bitstream, bitstream_bytes)].

(** A signed package with a valid descriptor, its signature, and a second
    [signature] entry of 64 zero bytes. *)
Definition plain_descriptor : list byte :=
  descriptor_bytes (stand_in_blake2b config_bytes).

Definition two_signatures_package : list byte :=
  build_package stand_in_blake2b vmprog_header_flags_v1_0.signed_pkg
    [(EntryType.signed_descriptor, plain_descriptor);
     (EntryType.signature, stand_in_sign public_key plain_descriptor);
     (EntryType.signature, zeros 64)].

(** A signed package with a program configuration, a descriptor whose
    [config_sha256] is 32 bytes [0xAA], and the signature of that
    descriptor. *)
Definition mismatched_descriptor : list byte := descriptor_bytes (repeat xaa 32).

Definition mismatched_package : list byte :=
  build_package stand_in_blake2b vmprog_header_flags_v1_0.signed_pkg
    [(EntryType.config, config_bytes);
     (EntryType.signed_descriptor, mismatched_descriptor);
     (EntryType.signature, stand_in_sign public_key mismatched_descriptor)].

(** The package of the repository's test [test_package_multiple_configs]:
    an unsigned package whose TOC holds two [config] entries, each with
    the valid configuration as payload and its hash. *)
Definition two_configs_package : list byte :=
  build_package stand_in_blake2b vmprog_header_flags_v1_0.none
    [(EntryType.config, config_bytes); (EntryType.config, config_bytes)].

(** The header and the TOC of a package laid out by [build_package]. *)
Definition header_of (data : list byte) : Header.t := Header.view data.

Definition entry_of (data : list byte) (i : Z) : Entry.t :=
  Entry.view (skipn (Z.to_nat (64 + 64 * i)) data).

Definition toc_of (data : list byte) (count : nat) : list Entry.t :=
  map (entry_of data) (indices count).

End Packages.

(** C1, at the failing input: the header is flagged signed, signature
    verification is requested with a key, the TOC has neither a
    [signed_descriptor] nor a [signature] entry, and the buffer-based
    validator returns [ok], whatever the hash and signature primitives
    are (and also with [verify_hashes = true]). *)
Theorem signed_package_without_descriptor_accepted
  (crypto_blake2b : list byte -> list byte)
  (crypto_ed25519_check : list byte -> list byte -> list byte -> Z) :
  is_package_signed (Packages.header_of Packages.stripped_package) = true /\
  toc_at Packages.stripped_package 64 1
    = Some (Packages.toc_of Packages.stripped_package 1) /\
  find_toc_entry (Packages.toc_of Packages.stripped_package 1)
    EntryType.signed_descriptor = None /\
  find_toc_entry (Packages.toc_of Packages.stripped_package 1)
    EntryType.signature = None /\
  validate_vmprog_package crypto_blake2b crypto_ed25519_check
    Packages.stripped_package 144 false true (Some Fixture.public_key) = Some ok /\
  validate_vmprog_package Fixture.stand_in_blake2b crypto_ed25519_check
    Packages.stripped_package 144 true true (Some Fixture.public_key) = Some ok.
Proof. vm_compute. repeat split; reflexivity. Qed.

(** C5, at the failing inputs.  The package of the repository's test
    [test_package_multiple_configs], which the test calls invalid, has a
    valid header, two valid [config] entries whose hashes verify, and
    [count_toc_entries] finds both; the package with a descriptor and two
    [signature] entries likewise.  [validate_vmprog_package] returns [ok]
    on both with hash and signature verification: it never counts the
    entries of a type.  The stream-based validator accepts both as well. *)
Theorem duplicate_entries_accepted :
  (toc_at Packages.two_configs_package 64 2
     = Some (Packages.toc_of Packages.two_configs_package 2) /\
   count_toc_entries (Packages.toc_of Packages.two_configs_package 2)
     EntryType.config = 2 /\
   validate_vmprog_header_v1_0
     (Packages.header_of Packages.two_configs_package) 14936 = ok /\
   first_error (fun e => validate_vmprog_toc_entry_v1_0 e 14936)
     (Packages.toc_of Packages.two_configs_package 2) = ok /\
   verify_all_payload_hashes Fixture.stand_in_blake2b
     Packages.two_configs_package 14936
     (Packages.header_of Packages.two_configs_package) = Some ok /\
   validate_vmprog_package Fixture.stand_in_blake2b Fixture.stand_in_ed25519_check
     Packages.two_configs_package 14936 true true (Some Fixture.public_key)
     = Some ok /\
   fst (validate_vmprog_package_stream Fixture.stand_in_blake2b
          Fixture.stand_in_ed25519_check
          {| data_ := Packages.two_configs_package; position_ := 0 |}
          14936 true true (Some Fixture.public_key) true 8192) = ok) /\
  (toc_at Packages.two_signatures_package 64 3
     = Some (Packages.toc_of Packages.two_signatures_package 3) /\
   count_toc_entries (Packages.toc_of Packages.two_signatures_package 3)
     EntryType.signature = 2 /\
   validate_vmprog_header_v1_0
     (Packages.header_of Packages.two_signatures_package) 716 = ok /\
   first_error (fun e => validate_vmprog_toc_entry_v1_0 e 716)
     (Packages.toc_of Packages.two_signatures_package 3) = ok /\
   verify_all_payload_hashes Fixture.stand_in_blake2b
     Packages.two_signatures_package 716
     (Packages.header_of Packages.two_signatures_package) = Some ok /\
   validate_vmprog_package Fixture.stand_in_blake2b Fixture.stand_in_ed25519_check
     Packages.two_signatures_package 716 true true (Some Fixture.public_key)
     = Some ok /\
   fst (validate_vmprog_package_stream Fixture.stand_in_blake2b
          Fixture.stand_in_ed25519_check
          {| data_ := Packages.two_signatures_package; position_ := 0 |}
          716 true true (Some Fixture.public_key) true 1024) = ok).
Proof. vm_compute. repeat split; reflexivity. Qed.

Lemma package_verdict_from_first_entries_witness :
  validate_vmprog_package Fixture.stand_in_blake2b Fixture.stand_in_ed25519_check
    Packages.two_signatures_package 716 true true (Some Fixture.public_key)
    = Some ok <->
  first_config_accepted Packages.two_signatures_package
    (Packages.toc_of Packages.two_signatures_package 3) /\
  first_descriptor_accepted Fixture.stand_in_ed25519_check
    Packages.two_signatures_package
    (Packages.toc_of Packages.two_signatures_package 3)
    (Packages.header_of Packages.two_signatures_package) true
    (Some Fixture.public_key).
Proof.
  apply (package_verdict_from_first_entries
           Fixture.stand_in_blake2b Fixture.stand_in_ed25519_check
           Packages.two_signatures_package 716 true true
           (Some Fixture.public_key)
           (Packages.header_of Packages.two_signatures_package)
           (Packages.toc_of Packages.two_signatures_package 3)).
  - vm_compute. reflexivity.
  - vm_compute. reflexivity.
  - vm_compute. reflexivity.
  - vm_compute. reflexivity.
  - repeat constructor; vm_compute; first [reflexivity | discriminate].
  - repeat constructor; right; vm_compute; reflexivity.
  - left. vm_compute. reflexivity.
Defined.

(** C2, the claim as stated fails: the package is accepted with hash and
    signature verification, its TOC has a [config] entry of 7372 bytes and
    a [signed_descriptor] entry of 332 bytes, and the descriptor's
    [config_sha256] (32 bytes [0xAA]) is not the hash of the config
    payload. *)
Lemma config_hash_counterexample :
  validate_vmprog_package Fixture.stand_in_blake2b Fixture.stand_in_ed25519_check
    Packages.mismatched_package 8024 true true (Some Fixture.public_key)
    = Some ok /\
  find_toc_entry (Packages.toc_of Packages.mismatched_package 3) EntryType.config
    = Some (Packages.entry_of Packages.mismatched_package 0) /\
  Entry.size (Packages.entry_of Packages.mismatched_package 0) = 7372 /\
  find_toc_entry (Packages.toc_of Packages.mismatched_package 3)
    EntryType.signed_descriptor
    = Some (Packages.entry_of Packages.mismatched_package 1) /\
  Entry.size (Packages.entry_of Packages.mismatched_package 1) = 332 /\
  Descriptor.config_sha256
    (Descriptor.view
       (payload_of Packages.mismatched_package
          (Packages.entry_of Packages.mismatched_package 1)))
    = repeat xaa 32 /\
  Fixture.bytes_eqb (repeat xaa 32)
    (Fixture.stand_in_blake2b
       (payload_of Packages.mismatched_package
          (Packages.entry_of Packages.mismatched_package 0))) = false.
Proof. vm_compute. repeat split; reflexivity. Qed.

Lemma accepted_package_payload_hashes_witness :
  exists header toc,
    header_at Packages.mismatched_package 0 = Some header /\
    toc_at Packages.mismatched_package (Header.toc_offset header)
      (Z.to_nat (Header.toc_count header)) = Some toc /\
    (forall e, In e toc -> Entry.size e <> 0 ->
       exists payload,
         load_bytes Packages.mismatched_package (Entry.offset e) (Entry.size e)
           = Some payload /\
         Entry.sha256 e = Fixture.stand_in_blake2b payload) /\
    (forall config_entry,
       find_toc_entry toc EntryType.config = Some config_entry ->
       Entry.size config_entry = Config.struct_size ->
       exists payload,
         load_bytes Packages.mismatched_package (Entry.offset config_entry)
           Config.struct_size = Some payload /\
         Entry.sha256 config_entry = Fixture.stand_in_blake2b payload /\
         validate_vmprog_program_config_v1_0 (Config.view payload) = ok).
Proof.
  apply (accepted_package_payload_hashes
           Fixture.stand_in_blake2b Fixture.stand_in_ed25519_check
           Packages.mismatched_package 8024 true (Some Fixture.public_key)).
  - exact Packages.stand_in_blake2b_length.
  - vm_compute. reflexivity.
Defined.

(** ** The stream-based validator *)

Section StreamFacts.

Variable crypto_blake2b : list byte -> list byte.
Variable crypto_ed25519_check : list byte -> list byte -> list byte -> Z.
Context {S : Type} {stream : vmprog_stream S}.

Lemma read_signed_descriptor_done (s s' : S) (entry : Entry.t) (bytes : list byte) :
  read_signed_descriptor s entry = (Done bytes, s') ->
  Entry.size entry = Descriptor.struct_size /\
  Z.of_nat (length bytes) = Descriptor.struct_size /\
  exists s1, seek s (Entry.offset entry) = (true, s1) /\
             read s1 Descriptor.struct_size = (bytes, s').
Proof.
  unfold read_signed_descriptor.
  destruct (Entry.type entry =? 2); cbn [negb]; [|discriminate].
  destruct (Z.eqb_spec (Entry.size entry) Descriptor.struct_size) as [Hsz|];
    cbn [negb]; [|discriminate].
  destruct (seek s (Entry.offset entry)) as [sought s1] eqn:Hseek.
  destruct sought; cbn [negb]; [|discriminate].
  destruct (read s1 Descriptor.struct_size) as [bs s2] eqn:Hread.
  destruct (Z.eqb_spec (Z.of_nat (length bs)) Descriptor.struct_size) as [Hlen|];
    cbn [negb]; [|discriminate].
  intros H. injection H as <- <-. eauto.
Qed.

Lemma read_signature_some (s s' : S) (entry : Entry.t) (bytes : list byte) :
  read_signature s entry = (Some bytes, s') ->
  Entry.size entry = VMPROG_SIGNATURE_SIZE /\
  Z.of_nat (length bytes) = VMPROG_SIGNATURE_SIZE /\
  exists s1, seek s (Entry.offset entry) = (true, s1) /\
             read s1 VMPROG_SIGNATURE_SIZE = (bytes, s').
Proof.
  unfold read_signature.
  destruct (Entry.type entry =? 3); cbn [negb]; [|discriminate].
  destruct (Z.eqb_spec (Entry.size entry) VMPROG_SIGNATURE_SIZE) as [Hsz|];
    cbn [negb]; [|discriminate].
  destruct (seek s (Entry.offset entry)) as [sought s1] eqn:Hseek.
  destruct sought; cbn [negb]; [|discriminate].
  destruct (read s1 VMPROG_SIGNATURE_SIZE) as [bs s2] eqn:Hread.
  destruct (Z.eqb_spec (Z.of_nat (length bs)) VMPROG_SIGNATURE_SIZE) as [Hlen|];
    [|discriminate].
  intros H. injection H as <- <-. eauto.
Qed.

(** What a run of the signature readers delivers, from the stream state
    [s] to the stream state [s']: the first [signed_descriptor] entry of
    the TOC has the size of the record, the descriptor is what the stream
    returns for a read of 332 bytes after a seek from [s] to that entry's
    offset, and it validates; the first [signature] entry has 64 bytes,
    and the signature is what the stream returns for a read of 64 bytes
    after a seek, from the state the descriptor read has left, to that
    entry's offset; that read leaves the stream in [s']. *)
Definition delivered (s s' : S) (toc : list Entry.t)
  (descriptor signature : list byte) : Prop :=
  exists desc_entry sig_entry s1 s2 s3,
    find_toc_entry toc EntryType.signed_descriptor = Some desc_entry /\
    Entry.size desc_entry = Descriptor.struct_size /\
    seek s (Entry.offset desc_entry) = (true, s1) /\
    read s1 Descriptor.struct_size = (descriptor, s2) /\
    Z.of_nat (length descriptor) = Descriptor.struct_size /\
    validate_vmprog_signed_descriptor_v1_0 (Descriptor.view descriptor) = ok /\
    find_toc_entry toc EntryType.signature = Some sig_entry /\
    Entry.size sig_entry = VMPROG_SIGNATURE_SIZE /\
    seek s2 (Entry.offset sig_entry) = (true, s3) /\
    read s3 VMPROG_SIGNATURE_SIZE = (signature, s') /\
    Z.of_nat (length signature) = VMPROG_SIGNATURE_SIZE.

Lemma read_descriptor_and_signature_done (s s' : S) (toc : list Entry.t)
  (descriptor signature : list byte) :
  read_descriptor_and_signature s toc = (Done (descriptor, signature), s') ->
  delivered s s' toc descriptor signature.
Proof.
  unfold read_descriptor_and_signature, read_and_validate_signed_descriptor.
  destruct (find_toc_entry toc 2) as [de|] eqn:Hde; [|discriminate].
  destruct (read_signed_descriptor s de) as [[code|d] s1] eqn:Hrd; [discriminate|].
  destruct (validate_vmprog_signed_descriptor_v1_0 (Descriptor.view d)) eqn:Hval;
    try discriminate.
  destruct (find_toc_entry toc 3) as [se|] eqn:Hse; [|discriminate].
  destruct (read_signature s1 se) as [[sg|] s2] eqn:Hrs; [|discriminate].
  intros H. injection H as <- <- <-.
  apply read_signed_descriptor_done in Hrd.
  destruct Hrd as (Hdsz & Hdlen & sb & Hseek_d & Hread_d).
  apply read_signature_some in Hrs.
  destruct Hrs as (Hssz & Hslen & sb' & Hseek_s & Hread_s).
  exists de, se, sb, s1, sb'. repeat split; assumption.
Qed.

Lemma verify_with_builtin_keys_from_some (keys : list (list byte)) (i j : Z)
  (signature descriptor : list byte) :
  verify_with_builtin_keys_from crypto_ed25519_check keys i signature descriptor
    = Some j ->
  exists key, In key keys /\
    ed25519_verify crypto_ed25519_check signature key descriptor = true.
Proof.
  revert i. induction keys as [|key rest IH]; intros i; cbn; [discriminate|].
  unfold verify_ed25519_signature at 1.
  destruct (ed25519_verify crypto_ed25519_check signature key descriptor) eqn:Hv.
  - intros _. exists key. auto.
  - intros H. apply IH in H. destruct H as (k & Hin & Hk). exists k. auto.
Qed.

(** The readers never report a failure with the code [ok]. *)
Ltac break_match_in H :=
  match type of H with
  | context [match ?x with _ => _ end] =>
      lazymatch x with
      | context [match _ with _ => _ end] => fail
      | _ => destruct x eqn:?
      end
  end.

Ltac failure_code H :=
  repeat (break_match_in H; try discriminate H);
  try (injection H as <- <-; discriminate).

Lemma read_vmprog_header_failed (s s' : S) (code : vmprog_validation_result) :
  read_vmprog_header s = (Failed code, s') -> code <> ok.
Proof. unfold read_vmprog_header. intros H. failure_code H. Qed.

Lemma read_and_validate_vmprog_header_failed (s s' : S) (file_size : Z)
  (code : vmprog_validation_result) :
  read_and_validate_vmprog_header s file_size = (Failed code, s') -> code <> ok.
Proof.
  unfold read_and_validate_vmprog_header. intros H.
  destruct (read_vmprog_header s) as [[c|h] s0] eqn:Hr.
  - injection H as <- <-. eapply read_vmprog_header_failed, Hr.
  - failure_code H.
Qed.

Lemma read_vmprog_toc_failed (s s' : S) (header : Header.t) (n : Z)
  (code : vmprog_validation_result) :
  read_vmprog_toc s header n = (Failed code, s') -> code <> ok.
Proof. unfold read_vmprog_toc. intros H. failure_code H. Qed.

Lemma read_and_validate_vmprog_toc_failed (s s' : S) (header : Header.t)
  (file_size n : Z) (code : vmprog_validation_result) :
  read_and_validate_vmprog_toc s header file_size n = (Failed code, s') ->
  code <> ok.
Proof.
  unfold read_and_validate_vmprog_toc. intros H.
  destruct (read_vmprog_toc s header n) as [[c|t] s0] eqn:Hr.
  - injection H as <- <-. eapply read_vmprog_toc_failed, Hr.
  - failure_code H.
Qed.

Lemma read_signed_descriptor_failed (s s' : S) (entry : Entry.t)
  (code : vmprog_validation_result) :
  read_signed_descriptor s entry = (Failed code, s') -> code <> ok.
Proof. unfold read_signed_descriptor. intros H. failure_code H. Qed.

Lemma read_descriptor_and_signature_failed (s s' : S) (toc : list Entry.t)
  (code : vmprog_validation_result) :
  read_descriptor_and_signature s toc = (Failed code, s') -> code <> ok.
Proof.
  unfold read_descriptor_and_signature, read_and_validate_signed_descriptor.
  intros H.
  destruct (find_toc_entry toc 2) as [de|]; [|failure_code H].
  destruct (read_signed_descriptor s de) as [[c|d] s0] eqn:Hr.
  - injection H as <- <-. eapply read_signed_descriptor_failed, Hr.
  - failure_code H.
Qed.

(** X2 (signature required).
    The stream-based validator does what the buffer-based one misses: on
    a package flagged signed it returns [ok] with [verify_signature = true]
    only if, in this very run (after the header, the TOC, the hash step
    and the configuration step, from the stream state these have left to
    the final state), the TOC has a [signed_descriptor] entry of 332
    bytes and a [signature] entry of 64 bytes, the stream has delivered
    a valid descriptor and a signature at their offsets, and that
    signature verifies over those descriptor bytes, with the supplied key
    or, when none is supplied, with a built-in key. *)
Theorem stream_validator_requires_signature (s s' : S) (file_size : Z)
  (verify_hashes : bool) (public_key : option (list byte))
  (scratch_buffer : bool) (scratch_buffer_size : Z) :
  validate_vmprog_package_stream crypto_blake2b crypto_ed25519_check s file_size
    verify_hashes true public_key scratch_buffer scratch_buffer_size = (ok, s') ->
  exists header s1 toc s2,
    read_and_validate_vmprog_header s file_size = (Done header, s1) /\
    read_and_validate_vmprog_toc s1 header file_size vmprog_stream_max_toc_entries
      = (Done toc, s2) /\
    (is_package_signed header = true ->
     exists s3 s4 descriptor signature key,
       stream_hashes_step crypto_blake2b s2 toc verify_hashes scratch_buffer
         scratch_buffer_size = (ok, s3) /\
       stream_config_step crypto_blake2b s3 toc verify_hashes = (ok, s4) /\
       read_descriptor_and_signature s4 toc = (Done (descriptor, signature), s') /\
       delivered s4 s' toc descriptor signature /\
       ed25519_verify crypto_ed25519_check signature key descriptor = true /\
       (public_key = Some key \/
        public_key = None /\ In key vmprog_public_keys)).
Proof.
  unfold validate_vmprog_package_stream.
  destruct (read_and_validate_vmprog_header s file_size) as [[code|header] s1]
    eqn:Hh.
  { intros H. injection H as -> _.
    now apply read_and_validate_vmprog_header_failed in Hh. }
  destruct (read_and_validate_vmprog_toc s1 header file_size
              vmprog_stream_max_toc_entries) as [[code|toc] s2] eqn:Ht.
  { intros H. injection H as -> _.
    now apply read_and_validate_vmprog_toc_failed in Ht. }
  intros H. exists header, s1, toc, s2.
  split; [reflexivity|]. split; [exact Ht|].
  intros Hsigned.
  destruct (stream_hashes_step crypto_blake2b s2 toc verify_hashes scratch_buffer
              scratch_buffer_size) as [hr s3] eqn:Hhs.
  destruct hr; try (injection H as Hbad _; discriminate Hbad).
  destruct (stream_config_step crypto_blake2b s3 toc verify_hashes) as [cr s4]
    eqn:Hcs.
  destruct cr; try (injection H as Hbad _; discriminate Hbad).
  unfold stream_signature_step in H.
  rewrite Hsigned in H. cbn [andb] in H.
  destruct public_key as [key|].
  - unfold verify_package_signature_stream in H.
    destruct (read_descriptor_and_signature s4 toc) as [[c|[d sg]] s5] eqn:Hrd.
    { injection H as -> _.
      now apply read_descriptor_and_signature_failed in Hrd. }
    unfold verify_ed25519_signature in H.
    destruct (ed25519_verify crypto_ed25519_check sg key d) eqn:Hv;
      cbn [negb] in H; [|injection H as Hbad _; discriminate Hbad].
    injection H as <-.
    exists s3, s4, d, sg, key.
    split; [reflexivity|]. split; [exact Hcs|]. split; [exact Hrd|].
    split; [|auto].
    apply read_descriptor_and_signature_done, Hrd.
  - unfold verify_package_signature_builtin_keys_stream in H.
    destruct (read_descriptor_and_signature s4 toc) as [[c|[d sg]] s5] eqn:Hrd.
    { injection H as -> _.
      now apply read_descriptor_and_signature_failed in Hrd. }
    destruct (verify_with_builtin_keys crypto_ed25519_check sg d) as [i|] eqn:Hb;
      [|injection H as Hbad _; discriminate Hbad].
    injection H as <-.
    apply verify_with_builtin_keys_from_some in Hb.
    destruct Hb as (key & Hin & Hv).
    exists s3, s4, d, sg, key.
    split; [reflexivity|]. split; [exact Hcs|]. split; [exact Hrd|].
    split; [|auto].
    apply read_descriptor_and_signature_done, Hrd.
Qed.

End StreamFacts.

(** The mock stream over the signed package with two [signature] entries,
    positioned at the start. *)
Definition signed_package_stream : mock_vmprog_stream :=
  {| data_ := Packages.two_signatures_package; position_ := 0 |}.

Lemma stream_validator_requires_signature_witness :
  exists header s1 toc s2,
    read_and_validate_vmprog_header signed_package_stream 716 = (Done header, s1) /\
    read_and_validate_vmprog_toc s1 header 716 vmprog_stream_max_toc_entries
      = (Done toc, s2) /\
    (is_package_signed header = true ->
     exists s3 s4 descriptor signature key,
       stream_hashes_step Fixture.stand_in_blake2b s2 toc true true 1024
         = (ok, s3) /\
       stream_config_step Fixture.stand_in_blake2b s3 toc true = (ok, s4) /\
       read_descriptor_and_signature s4 toc
         = (Done (descriptor, signature),
            {| data_ := Packages.two_signatures_package; position_ := 652 |}) /\
       delivered s4 {| data_ := Packages.two_signatures_package; position_ := 652 |}
         toc descriptor signature /\
       ed25519_verify Fixture.stand_in_ed25519_check signature key descriptor
         = true /\
       (Some Fixture.public_key = Some key \/
        Some Fixture.public_key = None /\ In key vmprog_public_keys)).
Proof.
  apply (stream_validator_requires_signature
           Fixture.stand_in_blake2b Fixture.stand_in_ed25519_check
           signed_package_stream
           {| data_ := Packages.two_signatures_package; position_ := 652 |}
           716 true (Some Fixture.public_key) true 1024).
  vm_compute. reflexivity.
Defined.

(** * Further properties of the code *)

(** ** Constant-time comparison and hash verification ([vmprog_crypto.hpp]) *)

Lemma lor_fold_all_zero (g : nat -> Z) (l : list nat) :
  (forall i, In i l -> g i = 0) ->
  fold_left (fun diff i => Z.lor diff (g i)) l 0 = 0.
Proof.
  induction l as [|i rest IH]; intros H; cbn; [reflexivity|].
  rewrite (H i (or_introl eq_refl)). cbn. apply IH.
  intros j Hj. apply H. now right.
Qed.

Lemma secure_compare_agree (a b : list byte) (n : nat) :
  (forall i, (i < n)%nat -> nth i a x00 = nth i b x00) ->
  secure_compare a b n = true.
Proof.
  intros H. unfold secure_compare.
  rewrite (lor_fold_all_zero
             (fun i => Z.lxor (byte_to_Z (nth i a x00)) (byte_to_Z (nth i b x00)))).
  - reflexivity.
  - intros i Hi. apply in_seq in Hi. rewrite H by lia. apply Z.lxor_nilpotent.
Qed.

Lemma firstn_nth_agree (a b : list byte) (n : nat) :
  (n <= length a)%nat -> (n <= length b)%nat ->
  (firstn n a = firstn n b <->
   forall i, (i < n)%nat -> nth i a x00 = nth i b x00).
Proof.
  intros Ha Hb. split.
  - intros H i Hi.
    rewrite <- (firstn_skipn n a), <- (firstn_skipn n b), H.
    rewrite !app_nth1 by (rewrite length_firstn; lia). reflexivity.
  - intros H. apply (nth_ext _ _ x00 x00).
    + rewrite !length_firstn. lia.
    + intros i Hi. rewrite length_firstn in Hi.
      rewrite !nth_firstn.
      destruct (Nat.ltb_spec i n); [apply H; lia | reflexivity].
Qed.

(** X3 (constant-time comparison).
    [secure_compare(a, b, length)] on two buffers of at least [length]
    bytes is [true] exactly when their first [length] bytes are equal: a
    difference in any bit of any of these bytes makes it [false]. *)
Theorem secure_compare_exact (a b : list byte) (n : nat) :
  (n <= length a)%nat -> (n <= length b)%nat ->
  (secure_compare a b n = true <-> firstn n a = firstn n b).
Proof.
  intros Ha Hb. rewrite firstn_nth_agree by assumption. split.
  - apply secure_compare_true.
  - apply secure_compare_agree.
Qed.

Lemma secure_compare_exact_witness :
  secure_compare [x01; x02; x03] [x01; x02; xff] 2 = true <->
  firstn 2 [x01; x02; x03] = firstn 2 [x01; x02; xff].
Proof. apply secure_compare_exact; cbn; lia. Defined.

Section HashFacts.

Variable crypto_blake2b : list byte -> list byte.
Hypothesis blake2b_length : forall m, length (crypto_blake2b m) = 32%nat.

(** X4 (hash verification).
    [verify_hash(data, length, expected_hash)] accepts exactly the hash of
    the data: it is [true] if and only if the 32 expected bytes are the
    digest, so the digest itself always verifies and any other 32 bytes
    never do. *)
Theorem verify_hash_exact (data expected_hash : list byte) :
  length expected_hash = 32%nat ->
  (verify_hash crypto_blake2b data expected_hash = true <->
   expected_hash = crypto_blake2b data).
Proof.
  intros Hexp.
  assert (Hunfold : verify_hash crypto_blake2b data expected_hash
                    = secure_compare_hash (crypto_blake2b data) expected_hash)
    by reflexivity.
  rewrite Hunfold. split.
  - intros H. symmetry.
    apply secure_compare_hash_eq; [apply blake2b_length | exact Hexp | exact H].
  - intros ->. apply secure_compare_refl.
Qed.

End HashFacts.

Lemma verify_hash_exact_witness :
  verify_hash Fixture.stand_in_blake2b [x01; x02]
    (Fixture.stand_in_blake2b [x01; x02]) = true <->
  Fixture.stand_in_blake2b [x01; x02] = Fixture.stand_in_blake2b [x01; x02].
Proof.
  apply (verify_hash_exact Fixture.stand_in_blake2b
           Packages.stand_in_blake2b_length).
  apply Packages.stand_in_blake2b_length.
Defined.

(** ** TOC lookups ([vmprog_format.hpp]) *)

Definition has_type (type : Z) (e : Entry.t) : bool := Entry.type e =? type.

Lemma count_toc_entries_from (toc : list Entry.t) (type count : Z) :
  0 <= count -> count + Z.of_nat (length toc) < 4294967296 ->
  fold_left (fun count e => if Entry.type e =? type then add32 count 1 else count)
    toc count
  = count + Z.of_nat (length (filter (has_type type) toc)).
Proof.
  revert count. induction toc as [|e rest IH]; intros count H0 Hlt;
    cbn [fold_left filter length] in *; [lia|].
  unfold has_type at 1.
  destruct (Entry.type e =? type).
  - rewrite IH.
    + rewrite add32_small by lia. cbn [length]. lia.
    + unfold add32, u32. apply Z.mod_pos_bound. lia.
    + rewrite add32_small by lia. lia.
  - apply IH; lia.
Qed.

Lemma find_first_split (toc : list Entry.t) (type : Z) (e : Entry.t) :
  find_toc_entry toc type = Some e ->
  exists before after,
    toc = before ++ e :: after /\
    Forall (fun e' => Entry.type e' <> type) before.
Proof.
  unfold find_toc_entry.
  induction toc as [|e' rest IH]; cbn [find]; [discriminate|].
  destruct (Z.eqb_spec (Entry.type e') type) as [Heq | Hne].
  - intros H. injection H as <-. exists [], rest. split; [reflexivity | constructor].
  - intros H. destruct (IH H) as (before & after & -> & Hb).
    exists (e' :: before), after. split; [reflexivity | constructor; assumption].
Qed.

(** X5 (TOC queries).
    The three TOC queries agree.  On a TOC of fewer than 2^32 entries,
    [count_toc_entries] is the number of entries of the type;
    [has_toc_entry] is [true] exactly when that number is positive; and
    the entry [find_toc_entry] returns has the type and is the first such
    entry (none of the entries before it has the type), while [nullptr]
    means no entry has it. *)
Theorem toc_queries_agree (toc : list Entry.t) (type : Z) :
  Z.of_nat (length toc) < 4294967296 ->
  count_toc_entries toc type = Z.of_nat (length (filter (has_type type) toc)) /\
  (has_toc_entry toc type = true <-> 0 < count_toc_entries toc type) /\
  (forall e, find_toc_entry toc type = Some e ->
     Entry.type e = type /\
     exists before after,
       toc = before ++ e :: after /\
       Forall (fun e' => Entry.type e' <> type) before) /\
  (find_toc_entry toc type = None <->
   Forall (fun e => Entry.type e <> type) toc).
Proof.
  intros Hlen.
  assert (Hcount : count_toc_entries toc type
                   = Z.of_nat (length (filter (has_type type) toc))).
  { unfold count_toc_entries. rewrite count_toc_entries_from by lia. lia. }
  assert (Hnone : find_toc_entry toc type = None <->
                  Forall (fun e => Entry.type e <> type) toc).
  { unfold find_toc_entry. split.
    - intros H. apply Forall_forall. intros e Hin Heq.
      pose proof (find_none _ _ H e Hin) as Hf. cbn in Hf.
      apply Z.eqb_neq in Hf. contradiction.
    - intros H. rewrite Forall_forall in H.
      destruct (find _ toc) as [e|] eqn:Hf; [|reflexivity].
      apply find_some in Hf. destruct Hf as [Hin Heq].
      apply Z.eqb_eq in Heq. now apply H in Hin. }
  split; [exact Hcount|]. split; [|split; [|exact Hnone]].
  - rewrite Hcount. unfold has_toc_entry.
    destruct Hnone as [Hnone _].
    destruct (find_toc_entry toc type) as [e|] eqn:Hf.
    + split; [intros _|reflexivity].
      destruct (find_toc_entry_In _ _ _ Hf) as [Hin Hty].
      assert (Hfin : In e (filter (has_type type) toc)).
      { apply filter_In. split; [exact Hin|]. unfold has_type.
        now apply Z.eqb_eq. }
      destruct (filter (has_type type) toc); [contradiction | cbn; lia].
    + split; [discriminate|]. intros Hpos.
      specialize (Hnone eq_refl). rename Hnone into Hall. clear Hf.
      assert (Hf := Hall).
      assert (Hempty : filter (has_type type) toc = []).
      { clear -Hf. induction Hf as [|e rest He _ IH]; cbn; [reflexivity|].
        unfold has_type at 1. apply Z.eqb_neq in He. now rewrite He. }
      rewrite Hempty in Hpos. cbn in Hpos. lia.
  - intros e Hf. split.
    + apply (find_toc_entry_In _ _ _ Hf).
    + apply find_first_split, Hf.
Qed.

Lemma toc_queries_agree_witness :
  count_toc_entries (Packages.toc_of Packages.two_signatures_package 3)
    EntryType.signature
  = Z.of_nat (length (filter (has_type EntryType.signature)
                        (Packages.toc_of Packages.two_signatures_package 3))) /\
  (has_toc_entry (Packages.toc_of Packages.two_signatures_package 3)
     EntryType.signature = true <->
   0 < count_toc_entries (Packages.toc_of Packages.two_signatures_package 3)
         EntryType.signature) /\
  (forall e,
     find_toc_entry (Packages.toc_of Packages.two_signatures_package 3)
       EntryType.signature = Some e ->
     Entry.type e = EntryType.signature /\
     exists before after,
       Packages.toc_of Packages.two_signatures_package 3 = before ++ e :: after /\
       Forall (fun e' => Entry.type e' <> EntryType.signature) before) /\
  (find_toc_entry (Packages.toc_of Packages.two_signatures_package 3)
     EntryType.signature = None <->
   Forall (fun e => Entry.type e <> EntryType.signature)
     (Packages.toc_of Packages.two_signatures_package 3)).
Proof.
  apply (toc_queries_agree (Packages.toc_of Packages.two_signatures_package 3)
           EntryType.signature).
  vm_compute. reflexivity.
Defined.

(** ** TOC entry bounds ([validate_vmprog_toc_entry_v1_0]) *)

Definition entry_in_range (e : Entry.t) : Prop :=
  is_u32 (Entry.type e) /\ is_u32 (Entry.offset e) /\ is_u32 (Entry.size e).

Lemma reserved_all_zero (reserved : list Z) :
  existsb (fun r => negb (r =? 0)) reserved = false <->
  Forall (fun r => r = 0) reserved.
Proof.
  induction reserved as [|r rest IH]; cbn [existsb].
  - split; [constructor | reflexivity].
  - rewrite orb_false_iff, IH. split.
    + intros [Hr Hrest]. constructor; [|exact Hrest].
      destruct (Z.eqb_spec r 0); [assumption | discriminate].
    + intros H. inversion H as [|? ? Hr Hrest]; subst. auto.
Qed.

Lemma valid_entry_well_formed (e : Entry.t) (file_size : Z) :
  is_u32 file_size -> entry_in_range e ->
  Entry.size e <= file_size ->
  validate_vmprog_toc_entry_v1_0 e file_size = ok ->
  entry_well_formed file_size e.
Proof.
  intros Hfs (Hty & Hoff & Hsz) Hle. unfold is_u32 in *.
  unfold validate_vmprog_toc_entry_v1_0, entry_well_formed, Header.struct_size.
  destruct (Z.eqb_spec (Entry.type e) 0); [discriminate|].
  destruct (Z.ltb_spec (Entry.offset e) 64); [discriminate|].
  destruct (Z.geb_spec (Entry.offset e) file_size); [discriminate|].
  cbn [orb].
  assert (Hsub : sub32 file_size (Entry.size e) = file_size - Entry.size e).
  { unfold sub32, u32. apply Z.mod_small. lia. }
  rewrite Hsub.
  destruct (Z.gtb_spec (Entry.size e) 0);
    destruct (Z.gtb_spec (Entry.offset e) (file_size - Entry.size e));
    cbn [andb]; try discriminate;
    (destruct (existsb _ (Entry.reserved e)) eqn:Hres; [discriminate|];
     intros _; apply reserved_all_zero in Hres; repeat split; try assumption; lia).
Qed.

(** X6 (TOC entry bounds).
    When the payload size does not exceed the file size,
    [validate_vmprog_toc_entry_v1_0] returns [ok] exactly for the entries
    that meet the documented constraints: nonzero type, offset in
    [[64, file_size)], payload end [offset + size] inside the file, and
    reserved words zero. *)
Theorem validate_toc_entry_exact (e : Entry.t) (file_size : Z) :
  is_u32 file_size -> entry_in_range e ->
  Entry.size e <= file_size ->
  (validate_vmprog_toc_entry_v1_0 e file_size = ok <->
   entry_well_formed file_size e).
Proof.
  intros Hfs Hrange Hle. split.
  - apply valid_entry_well_formed; assumption.
  - apply well_formed_entry_valid. exact Hfs.
Qed.

Lemma validate_toc_entry_exact_witness :
  validate_vmprog_toc_entry_v1_0 flagged_entry 144 = ok <->
  entry_well_formed 144 flagged_entry.
Proof.
  apply validate_toc_entry_exact; unfold is_u32, entry_in_range, is_u32; cbn; lia.
Defined.

(** X7 (oversized payload).
    When the payload size exceeds the file size, the bounds test
    [offset > file_size - size] is evaluated modulo 2^32 and no longer
    protects the payload end: the entry is accepted as soon as its type is
    nonzero, its offset lies in [[64, file_size)], its reserved words are
    zero and [offset + size <= file_size + 2^32]. *)
Theorem validate_toc_entry_oversized (e : Entry.t) (file_size : Z) :
  is_u32 file_size -> entry_in_range e ->
  file_size < Entry.size e ->
  (validate_vmprog_toc_entry_v1_0 e file_size = ok <->
   Entry.type e <> EntryType.none /\
   64 <= Entry.offset e < file_size /\
   Entry.offset e + Entry.size e <= file_size + 4294967296 /\
   Forall (fun r => r = 0) (Entry.reserved e)).
Proof.
  intros Hfs (Hty & Hoff & Hsz) Hlt. unfold is_u32 in *.
  unfold validate_vmprog_toc_entry_v1_0, Header.struct_size.
  assert (Hsub : sub32 file_size (Entry.size e)
                 = file_size - Entry.size e + 4294967296).
  { unfold sub32, u32.
    symmetry. apply Z.mod_unique with (q := -1); lia. }
  rewrite Hsub. rewrite <- reserved_all_zero.
  destruct (Z.eqb_spec (Entry.type e) 0);
    [split; [discriminate | intros (Hx & _); contradiction]|].
  destruct (Z.ltb_spec (Entry.offset e) 64);
    [split; [discriminate | intros (_ & Hx & _); lia]|].
  destruct (Z.geb_spec (Entry.offset e) file_size);
    [split; [discriminate | intros (_ & Hx & _); lia]|].
  cbn [orb].
  destruct (Z.gtb_spec (Entry.size e) 0); [|lia].
  destruct (Z.gtb_spec (Entry.offset e)
              (file_size - Entry.size e + 4294967296)); cbn [andb].
  - split; [discriminate | intros (_ & _ & Hx & _); lia].
  - destruct (existsb _ (Entry.reserved e)).
    + split; [discriminate | intros (_ & _ & _ & Hx); discriminate].
    + split; [intros _; repeat split; auto; lia | reflexivity].
Qed.

(** A bitstream entry at offset 64 whose size field is 2^32 - 1. *)
Definition oversized_entry : Entry.t := {|
  Entry.type := EntryType.fpga_bitstream;
  Entry.flags := 0;
  Entry.offset := 64;
  Entry.size := 4294967295;
  Entry.sha256 := repeat x00 32;
  Entry.reserved := [0; 0; 0; 0]
|}.

Lemma validate_toc_entry_oversized_witness :
  validate_vmprog_toc_entry_v1_0 oversized_entry 128 = ok <->
  Entry.type oversized_entry <> EntryType.none /\
  64 <= Entry.offset oversized_entry < 128 /\
  Entry.offset oversized_entry + Entry.size oversized_entry <= 128 + 4294967296 /\
  Forall (fun r => r = 0) (Entry.reserved oversized_entry).
Proof.
  apply validate_toc_entry_oversized;
    unfold is_u32, entry_in_range, is_u32; cbn; lia.
Defined.

Example oversized_entry_accepted :
  validate_vmprog_toc_entry_v1_0 oversized_entry 128 = ok.
Proof. reflexivity. Qed.

(** ** The curve on every mode value, and the scaled parameter *)

Lemma u16_small (z : Z) : 0 <= z < 65536 -> u16 z = z.
Proof. intros H. unfold u16. apply Z.mod_small, H. Qed.

Lemma clamped_switch_range (t mode : Z) :
  0 <= t <= 1023 -> 0 <= mode -> 0 <= clamped_switch t mode <= 1023.
Proof.
  intros Ht Hm. destruct (Z.le_gt_cases mode 35) as [Hle | Hgt].
  - apply CurveFacts.in_range_spec.
    apply (CurveFacts.switches_in_range t mode Ht). lia.
  - rewrite clamped_switch_default by lia. rewrite u16_small; lia.
Qed.

Lemma curve_in_range (value mode : Z) :
  0 <= mode -> 0 <= apply_parameter_control_curve value mode <= 1023.
Proof.
  intros Hm. unfold apply_parameter_control_curve.
  pose proof (clamped_switch_range (clamp_input value) mode
                (CurveFacts.clamp_input_range value) Hm) as Hc.
  destruct ((12 <=? mode) && (mode <=? 17)) eqn:Hpolar; [|exact Hc].
  apply andb_true_iff in Hpolar.
  pose proof (CurveFacts.switches_in_range (polar_wrap value) mode
                (CurveFacts.polar_wrap_range value) ltac:(lia)) as [_ Hp].
  unfold CurveFacts.polar_in_range in Hp.
  destruct (polar_switch (polar_wrap value) mode) as [r|]; [|exact Hc].
  apply CurveFacts.in_range_spec, Hp.
Qed.

(** X8 (scaled parameter).
    For a parameter whose range is ordered ([min_value <= max_value], as
    [validate_vmprog_parameter_config_v1_0] requires),
    [apply_parameter_control_curve_and_scaling] involves no wrap-around:
    it returns [min_value + curved * (max_value - min_value) / 1023], a
    value of the parameter's range [[min_value, max_value]], for every
    input and every mode value. *)
Theorem scaling_in_parameter_range (value mode min_value max_value : Z) :
  0 <= mode ->
  0 <= min_value <= max_value -> max_value < 65536 ->
  apply_parameter_control_curve_and_scaling value mode min_value max_value
  = min_value
    + apply_parameter_control_curve value mode * (max_value - min_value) / 1023 /\
  min_value
  <= apply_parameter_control_curve_and_scaling value mode min_value max_value
  <= max_value.
Proof.
  intros Hm Hrange Hmax.
  unfold apply_parameter_control_curve_and_scaling.
  pose proof (curve_in_range value mode Hm) as Hc.
  set (curved := apply_parameter_control_curve value mode) in *.
  set (span := max_value - min_value).
  assert (Hspan : 0 <= span < 65536) by (subst span; lia).
  assert (Hprod : 0 <= curved * span <= 1023 * span) by nia.
  assert (Hquot : 0 <= curved * span / 1023 <= span).
  { split.
    - apply Z.div_pos; lia.
    - apply Z.div_le_upper_bound; lia. }
  unfold add32, mul32, div32, u32.
  rewrite (Z.mod_small curved) by lia.
  rewrite (Z.mod_small span) by lia.
  rewrite (Z.mod_small (curved * span)) by lia.
  rewrite (Z.mod_small (min_value + _)) by lia.
  rewrite u16_small by lia.
  split; [reflexivity | lia].
Qed.

Lemma scaling_in_parameter_range_witness :
  apply_parameter_control_curve_and_scaling 700 Mode.quad_in 100 900
  = 100 + apply_parameter_control_curve 700 Mode.quad_in * (900 - 100) / 1023 /\
  100 <= apply_parameter_control_curve_and_scaling 700 Mode.quad_in 100 900 <= 900.
Proof. apply scaling_in_parameter_range; lia. Defined.

(** With an inverted range the subtraction wraps to a large [uint32_t]
    and the result leaves the interval between the two bounds. *)
Example scaling_inverted_range :
  apply_parameter_control_curve_and_scaling 512 Mode.linear 900 100 = 4599.
Proof. vm_compute. reflexivity. Qed.

(** *** Monotonicity *)

Definition is_polar_mode (mode : Z) : bool :=
  (Mode.polar_degs_90 <=? mode) && (mode <=? Mode.polar_degs_2880).

Definition steps_upward (mode : Z) : bool :=
  forallb (fun t => clamped_switch t mode <=? clamped_switch (t + 1) mode)
    (CurveFacts.upto 1023).

Lemma clamped_switch_steps_table :
  forallb steps_upward (CurveFacts.upto 36) = true.
Proof. vm_compute. reflexivity. Qed.

Lemma clamped_switch_step (t mode : Z) :
  0 <= t < 1023 -> 0 <= mode ->
  clamped_switch t mode <= clamped_switch (t + 1) mode.
Proof.
  intros Ht Hm. destruct (Z.le_gt_cases mode 35) as [Hle | Hgt].
  - pose proof clamped_switch_steps_table as H.
    rewrite forallb_forall in H.
    specialize (H mode (CurveFacts.upto_In 36 mode ltac:(lia))).
    unfold steps_upward in H. rewrite forallb_forall in H.
    specialize (H t (CurveFacts.upto_In 1023 t ltac:(lia))).
    apply Z.leb_le, H.
  - rewrite !clamped_switch_default by lia. rewrite !u16_small; lia.
Qed.

Lemma clamped_switch_monotone (mode : Z) (n : nat) (t : Z) :
  0 <= mode -> 0 <= t -> t + Z.of_nat n <= 1023 ->
  clamped_switch t mode <= clamped_switch (t + Z.of_nat n) mode.
Proof.
  intros Hm Ht. induction n as [|n IH]; intros Hn.
  - replace (t + Z.of_nat 0) with t by lia. lia.
  - replace (t + Z.of_nat (S n)) with (t + Z.of_nat n + 1) by lia.
    etransitivity; [apply IH; lia|].
    apply clamped_switch_step; lia.
Qed.

Lemma clamp_input_monotone (x y : Z) :
  x <= y -> clamp_input x <= clamp_input y.
Proof.
  intros Hxy. unfold clamp_input, max_val, u32.
  destruct (Z.ltb_spec x 0); destruct (Z.ltb_spec y 0);
    destruct (Z.gtb_spec x 1023); destruct (Z.gtb_spec y 1023);
    rewrite ?Z.mod_small by lia; lia.
Qed.

(** X9 (monotone curves).
    Outside the polar modes the curve is monotone: a larger input never
    gives a smaller output, for every mode value (the 30 non-polar modes
    of the enumeration and the values above it) and over the whole
    [int32_t] range. *)
Theorem curve_monotone (x y mode : Z) :
  0 <= mode -> is_polar_mode mode = false -> x <= y ->
  apply_parameter_control_curve x mode <= apply_parameter_control_curve y mode.
Proof.
  intros Hm Hpolar Hxy. unfold apply_parameter_control_curve.
  unfold is_polar_mode in Hpolar. rewrite Hpolar.
  pose proof (clamp_input_monotone x y Hxy) as Hc.
  pose proof (CurveFacts.clamp_input_range x) as Hx.
  pose proof (CurveFacts.clamp_input_range y) as Hy.
  replace (clamp_input y)
    with (clamp_input x + Z.of_nat (Z.to_nat (clamp_input y - clamp_input x)))
    by lia.
  apply clamped_switch_monotone; lia.
Qed.

Lemma curve_monotone_witness :
  apply_parameter_control_curve (-5) Mode.quint_in_out
  <= apply_parameter_control_curve 600 Mode.quint_in_out.
Proof. apply curve_monotone; [lia | reflexivity | lia]. Defined.

(** The polar modes that multiply the angle are not monotone. *)
Example polar_720_not_monotone :
  apply_parameter_control_curve 511 Mode.polar_degs_720 = 1022 /\
  apply_parameter_control_curve 512 Mode.polar_degs_720 = 0.
Proof. split; reflexivity. Qed.

(** ** Number and string utilities ([vmprog_parameter_utils.hpp]) *)

Definition digit_value (c : byte) : Z := byte_to_Z c - 48.

Definition is_digit (c : byte) : bool :=
  (48 <=? byte_to_Z c) && (byte_to_Z c <=? 57).

(** The number a string of decimal digits denotes. *)
Definition decimal_value (s : list byte) : Z :=
  fold_left (fun acc c => 10 * acc + digit_value c) s 0.

Lemma byte_to_of_Z (z : Z) : 0 <= z < 256 -> byte_to_Z (byte_of_Z z) = z.
Proof.
  intros Hz. unfold byte_to_Z, byte_of_Z.
  rewrite Z.mod_small by exact Hz.
  destruct (Byte.of_N (Z.to_N z)) as [b|] eqn:E.
  - apply Byte.to_of_N in E. lia.
  - pose proof (Byte.to_of_N_option_map (Z.to_N z)) as H.
    rewrite E in H. cbn in H.
    destruct (N.leb_spec (Z.to_N z) 255); [discriminate | lia].
Qed.

Lemma reversed_digits_spec (room : nat) (temp : Z) :
  0 <= temp ->
  Forall (fun c => is_digit c = true) (reversed_digits room temp) /\
  (length (reversed_digits room temp) <= room)%nat /\
  fold_right (fun c acc => 10 * acc + digit_value c) 0 (reversed_digits room temp)
  = temp mod 10 ^ Z.of_nat room.
Proof.
  revert temp. induction room as [|room IH]; intros temp Ht.
  - cbn [reversed_digits fold_right length]. rewrite Z.pow_0_r, Z.mod_1_r.
    repeat split; [constructor | lia].
  - cbn [reversed_digits].
    destruct (Z.gtb_spec temp 0) as [Hpos | Hzero].
    + pose proof (Z.mod_pos_bound temp 10 ltac:(lia)) as Hd.
      assert (Hq : 0 <= temp / 10) by (apply Z.div_pos; lia).
      destruct (IH (temp / 10) Hq) as (Hdig & Hlen & Hval).
      assert (Hb : byte_to_Z (byte_of_Z (48 + temp mod 10)) = 48 + temp mod 10)
        by (apply byte_to_of_Z; lia).
      repeat split.
      * constructor; [|exact Hdig]. unfold is_digit. rewrite Hb. lia.
      * cbn [length]. lia.
      * cbn [fold_right]. rewrite Hval. unfold digit_value. rewrite Hb.
        rewrite Nat2Z.inj_succ, Z.pow_succ_r by lia.
        rewrite Z.rem_mul_r by lia. lia.
    + assert (temp = 0) by lia. subst temp.
      rewrite Zmod_0_l. repeat split; [constructor | cbn; lia].
Qed.

Lemma decimal_value_rev (l : list byte) :
  decimal_value (rev l)
  = fold_right (fun c acc => 10 * acc + digit_value c) 0 l.
Proof.
  unfold decimal_value.
  rewrite <- (rev_involutive l) at 2.
  rewrite fold_left_rev_right. reflexivity.
Qed.

(** X10 (decimal digits).
    [uint32_to_string] writes decimal digits only, at most
    [buffer_size - 1] of them and at least one, and the number they
    denote is the value modulo [10 ^ (buffer_size - 1)]: the value itself
    when it fits (always, with the 12-byte buffer the renderer passes),
    its low-order digits when the buffer is too small. *)
Theorem uint32_to_string_decimal (value buffer_size : Z) :
  0 <= value -> 2 <= buffer_size ->
  Forall (fun c => is_digit c = true) (uint32_to_string value buffer_size) /\
  1 <= Z.of_nat (length (uint32_to_string value buffer_size)) <= buffer_size - 1 /\
  decimal_value (uint32_to_string value buffer_size)
  = value mod 10 ^ (buffer_size - 1).
Proof.
  intros Hv Hsize. unfold uint32_to_string.
  destruct (Z.ltb_spec buffer_size 2); [lia|].
  destruct (Z.eqb_spec value 0) as [-> | Hnz].
  - rewrite Zmod_0_l. repeat split; try (cbn; lia).
    constructor; [reflexivity | constructor].
  - destruct (reversed_digits_spec (Z.to_nat (buffer_size - 1)) value Hv)
      as (Hdig & Hlen & Hval).
    rewrite Z2Nat.id in Hval by lia.
    repeat split.
    + apply Forall_rev, Hdig.
    + rewrite length_rev.
      destruct (Z.to_nat (buffer_size - 1)) as [|room] eqn:Hroom; [lia|].
      cbn [reversed_digits].
      destruct (Z.gtb_spec value 0); [cbn [length]; lia | lia].
    + rewrite length_rev. lia.
    + rewrite decimal_value_rev. exact Hval.
Qed.

Lemma uint32_to_string_decimal_witness :
  Forall (fun c => is_digit c = true) (uint32_to_string 4294967295 12) /\
  1 <= Z.of_nat (length (uint32_to_string 4294967295 12)) <= 12 - 1 /\
  decimal_value (uint32_to_string 4294967295 12) = 4294967295 mod 10 ^ (12 - 1).
Proof. apply uint32_to_string_decimal; lia. Defined.

(** With a 4-byte buffer, the three low-order digits remain. *)
Example uint32_to_string_small_buffer :
  uint32_to_string 12345 4 = [x33; x34; x35].
Proof. reflexivity. Qed.

Lemma Forall_take {A : Type} (P : A -> Prop) (n : nat) (l : list A) :
  Forall P l -> Forall P (firstn n l).
Proof.
  revert n. induction l as [|a l IH]; intros n H; destruct n; cbn;
    try constructor; inversion H; subst; auto.
Qed.

Lemma c_string_no_nul (buf : list byte) :
  Forall (fun c => is_nul c = false) (c_string buf).
Proof.
  induction buf as [|c rest IH]; cbn [c_string]; [constructor|].
  destruct (is_nul c) eqn:E; constructor; assumption.
Qed.

Lemma fast_strcpy_loop_prefix (src : list byte) (room : nat) :
  (is_string_terminated src = true \/ (room <= length src)%nat) ->
  fast_strcpy_loop src room = Some (firstn room (c_string src)).
Proof.
  revert src. induction room as [|room IH]; intros src H; [reflexivity|].
  destruct src as [|c rest]; cbn [fast_strcpy_loop].
  - destruct H as [H | H]; [discriminate | cbn in H; lia].
  - cbn [c_string]. destruct (is_nul c) eqn:E; [reflexivity|].
    rewrite IH.
    + reflexivity.
    + destruct H as [H | H].
      * left. cbn [is_string_terminated existsb] in H. rewrite E in H. exact H.
      * right. cbn [length] in H. lia.
Qed.

(** X11 (string copy).
    [fast_strcpy] copies the C string at [src] cut to [max_len - 1]
    characters; the copy holds no terminator of its own, so the
    terminator stored after it ends the destination string.  The scan
    stays inside the source memory when that holds a terminator, or at
    least [max_len - 1] bytes. *)
Theorem fast_strcpy_prefix (src : list byte) (max_len : Z) :
  1 <= max_len ->
  (is_string_terminated src = true \/ max_len - 1 <= Z.of_nat (length src)) ->
  exists copied,
    fast_strcpy src max_len = Some copied /\
    copied = firstn (Z.to_nat (max_len - 1)) (c_string src) /\
    Z.of_nat (length copied) <= max_len - 1 /\
    Forall (fun c => is_nul c = false) copied.
Proof.
  intros Hlen Hsrc. unfold fast_strcpy.
  destruct (Z.eqb_spec max_len 0); [lia|].
  exists (firstn (Z.to_nat (max_len - 1)) (c_string src)). split; [|split; [|split]].
  - apply fast_strcpy_loop_prefix. destruct Hsrc; [left; assumption | right; lia].
  - reflexivity.
  - rewrite length_firstn. lia.
  - apply Forall_take, c_string_no_nul.
Qed.

Lemma fast_strcpy_prefix_witness :
  exists copied,
    fast_strcpy [x4f; x6e; x00; x58] 2 = Some copied /\
    copied = firstn (Z.to_nat (2 - 1)) (c_string [x4f; x6e; x00; x58]) /\
    Z.of_nat (length copied) <= 2 - 1 /\
    Forall (fun c => is_nul c = false) copied.
Proof.
  apply fast_strcpy_prefix; [lia | left; reflexivity].
Defined.

(** ** String helpers of fixed-size fields ([vmprog_format.hpp]) *)

Lemma safe_strlen_c_string (str : list byte) :
  safe_strlen str = length (c_string str).
Proof.
  induction str as [|c rest IH]; cbn; [reflexivity|].
  destruct (is_nul c); cbn; congruence.
Qed.

Lemma c_string_nth (str : list byte) (i : nat) :
  (i < length (c_string str))%nat ->
  nth i (c_string str) x00 = nth i str x00.
Proof.
  revert i. induction str as [|c rest IH]; intros i Hi; cbn in *; [lia|].
  destruct (is_nul c); cbn in *; [lia|].
  destruct i as [|i]; [reflexivity|]. apply IH. lia.
Qed.

Lemma nth_ext_eq (a b : list byte) :
  length a = length b ->
  (forall i, (i < length a)%nat -> nth i a x00 = nth i b x00) -> a = b.
Proof.
  intros Hlen H. apply (nth_ext a b x00 x00 Hlen H).
Qed.

(** X12 (string helpers).
    The helpers of fixed-size string fields agree with the C string held
    in the field (the bytes before the first terminator, or the whole
    field when there is none): [safe_strlen] is its length,
    [is_string_terminated] holds exactly when that length is below the
    field size, [is_string_empty] exactly when it is zero, and
    [safe_strcmp] exactly when the two strings are equal, whatever the
    field sizes and the bytes after the terminators. *)
Theorem string_helpers_agree (str1 str2 : list byte) :
  safe_strlen str1 = length (c_string str1) /\
  (is_string_terminated str1 = true <-> (safe_strlen str1 < length str1)%nat) /\
  (is_string_empty str1 = true <-> safe_strlen str1 = O) /\
  (safe_strcmp str1 str2 = true <-> c_string str1 = c_string str2).
Proof.
  split; [apply safe_strlen_c_string|]. split; [|split].
  - induction str1 as [|c rest IH]; cbn [is_string_terminated existsb safe_strlen length].
    + split; [discriminate | lia].
    + destruct (is_nul c); cbn [orb].
      * split; [lia | reflexivity].
      * unfold is_string_terminated in IH. rewrite IH. lia.
  - unfold is_string_empty. destruct str1 as [|c rest]; cbn.
    + split; reflexivity.
    + destruct (is_nul c); split; try reflexivity; discriminate.
  - unfold safe_strcmp. rewrite !safe_strlen_c_string.
    destruct (Nat.eqb_spec (length (c_string str1)) (length (c_string str2)))
      as [Hlen | Hlen]; cbn [negb].
    + rewrite forallb_forall. split.
      * intros H. apply nth_ext_eq; [exact Hlen|]. intros i Hi.
        specialize (H i ltac:(apply in_seq; lia)).
        rewrite !c_string_nth by lia.
        apply Byte.byte_dec_bl, H.
      * intros Heq i Hi. apply in_seq in Hi.
        rewrite <- (c_string_nth str1), <- (c_string_nth str2) by lia.
        rewrite Heq. apply Byte.byte_dec_lb. reflexivity.
    + split; [discriminate | intros Heq; rewrite Heq in Hlen; contradiction].
Qed.

Lemma safe_strncpy_copy_prefix (src : list byte) (room : nat) :
  (is_string_terminated src = true \/ (room <= length src)%nat) ->
  safe_strncpy_copy src room = Some (firstn room (c_string src)).
Proof.
  revert src. induction room as [|room IH]; intros src H; [reflexivity|].
  destruct src as [|c rest]; cbn [safe_strncpy_copy].
  - destruct H as [H | H]; [discriminate | cbn in H; lia].
  - cbn [c_string]. destruct (is_nul c) eqn:E; [reflexivity|].
    rewrite IH.
    + reflexivity.
    + destruct H as [H | H].
      * left. cbn [is_string_terminated existsb] in H. rewrite E in H. exact H.
      * right. cbn [length] in H. lia.
Qed.

Lemma c_string_app_nul (s rest : list byte) :
  Forall (fun c => is_nul c = false) s -> c_string (s ++ x00 :: rest) = s.
Proof.
  induction s as [|c s IH]; intros H; cbn; [reflexivity|].
  inversion H as [|? ? Hc Hs]; subst. rewrite Hc. f_equal. apply IH, Hs.
Qed.

(** X13 (safe_strncpy).
    [safe_strncpy] into a non-empty field, from a terminated source:
    the field keeps its size, is terminated, holds the source string cut
    to [size - 1] characters, and every byte after that string is zero
    whatever the field held before. *)
Theorem safe_strncpy_field (dest src : list byte) :
  dest <> [] -> is_string_terminated src = true ->
  exists field,
    safe_strncpy dest src = Some field /\
    length field = length dest /\
    is_string_terminated field = true /\
    c_string field = firstn (length dest - 1) (c_string src) /\
    field = c_string field ++ repeat x00 (length dest - length (c_string field)).
Proof.
  intros Hdest Hsrc. unfold safe_strncpy.
  assert (Hlen : (0 < length dest)%nat) by (destruct dest; [contradiction | cbn; lia]).
  destruct (Z.eqb_spec (Z.of_nat (length dest)) 0); [lia|].
  rewrite safe_strncpy_copy_prefix by (left; exact Hsrc). cbn [bind].
  set (copied := firstn (length dest - 1) (c_string src)).
  assert (Hcl : (length copied <= length dest - 1)%nat)
    by (subst copied; rewrite length_firstn; lia).
  assert (Hnn : Forall (fun c => is_nul c = false) copied)
    by (subst copied; apply Forall_take, c_string_no_nul).
  assert (Hpad : repeat x00 (length dest - length copied)
                 = x00 :: repeat x00 (length dest - length copied - 1)).
  { replace (length dest - length copied)%nat
      with (S (length dest - length copied - 1)) at 1 by lia.
    reflexivity. }
  assert (Hcs : c_string (copied ++ repeat x00 (length dest - length copied)) = copied).
  { rewrite Hpad. apply c_string_app_nul, Hnn. }
  eexists. split; [reflexivity|]. split; [|split; [|split]].
  - rewrite length_app, repeat_length. lia.
  - unfold is_string_terminated. rewrite existsb_app, Hpad. cbn.
    apply orb_true_r.
  - exact Hcs.
  - rewrite Hcs. reflexivity.
Qed.

Lemma safe_strncpy_field_witness :
  exists field,
    safe_strncpy [xff; xff; xff; xff] [x56; x69; x64; x65; x6f; x00] = Some field /\
    length field = length [xff; xff; xff; xff] /\
    is_string_terminated field = true /\
    c_string field
    = firstn (length [xff; xff; xff; xff] - 1)
        (c_string [x56; x69; x64; x65; x6f; x00]) /\
    field = c_string field
            ++ repeat x00 (length [xff; xff; xff; xff] - length (c_string field)).
Proof.
  apply safe_strncpy_field; [discriminate | reflexivity].
Defined.

(** ** The rendered text and its truncation *)

(** The writes that store [text] and its terminator at the indices
    [0, 1, ..., length text], in this order. *)
Definition sequential (text : list byte) : list (Z * byte) :=
  combine (indices (S (length text))) (text ++ [x00]).

Module RenderFacts.

(** The renderer state after storing [t] from index 0 on. *)
Definition seq_state (t : list byte) : out_state :=
  {| pos := Z.of_nat (length t); writes := combine (indices (length t)) t |}.

(** The text [T] cut to a buffer of [k] bytes. *)
Definition cut (k : Z) (T : list byte) : list byte := firstn (Z.to_nat (k - 1)) T.

Lemma indices_S (n : nat) : indices (S n) = indices n ++ [Z.of_nat n].
Proof. unfold indices. rewrite seq_S, map_app. reflexivity. Qed.

Lemma indices_length (n : nat) : length (indices n) = n.
Proof. unfold indices. rewrite length_map, length_seq. reflexivity. Qed.

Lemma combine_snoc {A B : Type} (l : list A) (l' : list B) (a : A) (b : B) :
  length l = length l' ->
  combine (l ++ [a]) (l' ++ [b]) = combine l l' ++ [(a, b)].
Proof.
  revert l'. induction l as [|x l IH]; intros [|y l'] H; cbn in *;
    try discriminate; [reflexivity|].
  f_equal. apply IH. lia.
Qed.

Lemma seq_state_put (t : list byte) (c : byte) :
  put (seq_state t) c = seq_state (t ++ [c]).
Proof.
  unfold put, seq_state. cbn [pos writes].
  rewrite length_app. cbn [length]. rewrite Nat.add_1_r.
  rewrite indices_S, combine_snoc by apply indices_length.
  f_equal. lia.
Qed.

Lemma writes_terminated (t : list byte) :
  writes (put (seq_state t) x00) = sequential t.
Proof.
  rewrite seq_state_put. unfold seq_state, sequential. cbn [writes].
  rewrite length_app. cbn [length]. rewrite Nat.add_1_r. reflexivity.
Qed.

Lemma fold_put_seq_state (l t : list byte) :
  fold_left put l (seq_state t) = seq_state (t ++ l).
Proof.
  revert t. induction l as [|c l IH]; intros t; cbn [fold_left].
  - rewrite app_nil_r. reflexivity.
  - rewrite seq_state_put, IH, <- app_assoc. reflexivity.
Qed.

Lemma cut_full (k : Z) (T piece : list byte) :
  k - 1 <= Z.of_nat (length T) -> cut k (T ++ piece) = cut k T.
Proof.
  intros H. unfold cut. rewrite firstn_app.
  replace (Z.to_nat (k - 1) - length T)%nat with O by lia.
  cbn [firstn]. apply app_nil_r.
Qed.

Lemma cut_room (k : Z) (T : list byte) :
  Z.of_nat (length T) <= k - 1 -> cut k T = T.
Proof. intros H. unfold cut. apply firstn_all2. lia. Qed.

Lemma cut_length (k : Z) (T : list byte) :
  1 <= k -> Z.of_nat (length (cut k T)) = Z.min (k - 1) (Z.of_nat (length T)).
Proof. intros H. unfold cut. rewrite length_firstn. lia. Qed.

Lemma pos_cut_room (k : Z) (T : list byte) :
  1 <= k ->
  (pos (seq_state (cut k T)) <? k - 1) = (Z.of_nat (length T) <? k - 1).
Proof.
  intros H. cbn [seq_state pos]. rewrite cut_length by exact H.
  destruct (Z.ltb_spec (Z.of_nat (length T)) (k - 1));
    destruct (Z.ltb_spec (Z.min (k - 1) (Z.of_nat (length T))) (k - 1));
    try reflexivity; lia.
Qed.

Lemma put_cut (k : Z) (T : list byte) (c : byte) :
  Z.of_nat (length T) < k - 1 ->
  put (seq_state (cut k T)) c = seq_state (cut k (T ++ [c])).
Proof.
  intros H. rewrite seq_state_put.
  rewrite (cut_room k T) by lia.
  rewrite cut_room; [reflexivity|]. rewrite length_app. cbn [length]. lia.
Qed.

Lemma put_guarded_cut (piece : list byte) (k : Z) (T : list byte) :
  1 <= k ->
  put_guarded piece k (seq_state (cut k T)) = seq_state (cut k (T ++ piece)).
Proof.
  intros Hk. revert T. induction piece as [|c rest IH]; intros T;
    cbn [put_guarded].
  - rewrite app_nil_r. reflexivity.
  - rewrite pos_cut_room by exact Hk.
    destruct (Z.ltb_spec (Z.of_nat (length T)) (k - 1)) as [Hlt | Hge].
    + rewrite put_cut by exact Hlt. rewrite IH, <- app_assoc. reflexivity.
    + rewrite cut_full by lia. reflexivity.
Qed.

Lemma put_suffix_cut (suffix : list byte) (k : Z) (T : list byte) :
  1 <= k ->
  put_suffix suffix k (seq_state (cut k T))
  = seq_state (cut k (T ++ c_string suffix)).
Proof.
  intros Hk. revert T. induction suffix as [|c rest IH]; intros T;
    cbn [put_suffix c_string].
  - rewrite app_nil_r. reflexivity.
  - destruct (is_nul c); cbn [negb andb].
    + rewrite app_nil_r. reflexivity.
    + rewrite pos_cut_room by exact Hk.
      destruct (Z.ltb_spec (Z.of_nat (length T)) (k - 1)) as [Hlt | Hge].
      * rewrite put_cut by exact Hlt. rewrite IH, <- app_assoc. reflexivity.
      * rewrite cut_full by lia. reflexivity.
Qed.

(** The text of the number branch, before it is cut to the buffer. *)
Definition number_text (value : Z) (config : Param.t) : list byte :=
  let scaled_int := scaled_display_value value config in
  let abs_value :=
    if scaled_int <? 0 then u32 (- scaled_int) else u32 scaled_int in
  let divisor :=
    if Param.display_float_digits config <? 7
    then nth (Z.to_nat (Param.display_float_digits config))
             vmprog_parameter_display_divisor_lut 1
    else 1000000 in
  let int_digits := uint32_to_string (abs_value / divisor) 12 in
  let frac_digits := uint32_to_string (abs_value mod divisor) 12 in
  (((if scaled_int <? 0 then [byte_of_Z 45] else [])
    ++ int_digits)
   ++ (if Param.display_float_digits config >? 0
       then ([byte_of_Z 46]
             ++ repeat (byte_of_Z 48)
                  (Z.to_nat (Param.display_float_digits config
                             - Z.of_nat (length frac_digits))))
            ++ frac_digits
       else []))
  ++ c_string (firstn 4 (Param.suffix_label config)).

Lemma number_branch (value : Z) (config : Param.t) (k : Z) :
  2 <= k -> (Param.value_label_count config >=? 2) = false ->
  generate_parameter_value_display_string value config k
  = Some (sequential (cut k (number_text value config))).
Proof.
  intros Hk Hlab. unfold generate_parameter_value_display_string.
  destruct (Z.eqb_spec k 0); [lia|]. rewrite Hlab. cbv zeta.
  unfold number_text. cbv zeta.
  set (scaled_int := scaled_display_value value config).
  set (abs_value := if scaled_int <? 0 then u32 (- scaled_int) else u32 scaled_int).
  set (divisor := if Param.display_float_digits config <? 7 then _ else 1000000).
  set (int_digits := uint32_to_string (abs_value / divisor) 12).
  set (frac_digits := uint32_to_string (abs_value mod divisor) 12).
  set (sign := if scaled_int <? 0 then [byte_of_Z 45] else []).
  assert (Hsign : (if scaled_int <? 0
                   then put {| pos := 0; writes := [] |} (byte_of_Z 45)
                   else {| pos := 0; writes := [] |})
                  = seq_state (cut k sign)).
  { subst sign. destruct (scaled_int <? 0).
    - rewrite cut_room by (cbn; lia). reflexivity.
    - rewrite cut_room by (cbn; lia). reflexivity. }
  rewrite Hsign. clear Hsign.
  rewrite put_guarded_cut by lia.
  set (T1 := sign ++ int_digits).
  set (frac := if Param.display_float_digits config >? 0 then _ else []).
  assert (Hfrac :
    (if (Param.display_float_digits config >? 0)
        && (pos (seq_state (cut k T1)) <? k - 1)
     then
       put_guarded frac_digits k
         (put_guarded
            (repeat (byte_of_Z 48)
               (Z.to_nat (Param.display_float_digits config
                          - Z.of_nat (length frac_digits))))
            k (put (seq_state (cut k T1)) (byte_of_Z 46)))
     else seq_state (cut k T1))
    = seq_state (cut k (T1 ++ frac))).
  { subst frac. destruct (Param.display_float_digits config >? 0); cbn [andb].
    - rewrite pos_cut_room by lia.
      destruct (Z.ltb_spec (Z.of_nat (length T1)) (k - 1)) as [Hlt | Hge].
      + rewrite put_cut by exact Hlt.
        rewrite !put_guarded_cut by lia.
        rewrite <- !app_assoc. reflexivity.
      + rewrite cut_full by lia. reflexivity.
    - rewrite app_nil_r. reflexivity. }
  rewrite Hfrac. clear Hfrac.
  set (T2 := T1 ++ frac).
  assert (Hsuf :
    (if negb (is_nul (nth 0 (Param.suffix_label config) x00))
        && (pos (seq_state (cut k T2)) <? k - 1)
     then put_suffix (firstn 4 (Param.suffix_label config)) k (seq_state (cut k T2))
     else seq_state (cut k T2))
    = seq_state (cut k (T2 ++ c_string (firstn 4 (Param.suffix_label config))))).
  { destruct (Param.suffix_label config) as [|c rest] eqn:Hs.
    - cbn. rewrite app_nil_r. reflexivity.
    - cbn [nth]. destruct (is_nul c) eqn:Hc; cbn [negb andb].
      + cbn [firstn c_string]. rewrite Hc, app_nil_r. reflexivity.
      + rewrite pos_cut_room by lia.
        destruct (Z.ltb_spec (Z.of_nat (length T2)) (k - 1)) as [Hlt | Hge].
        * apply put_suffix_cut. lia.
        * rewrite cut_full by lia. reflexivity. }
  rewrite Hsuf. clear Hsuf.
  rewrite writes_terminated. reflexivity.
Qed.

Lemma fast_strcpy_loop_Some (src : list byte) (room : nat) (copied : list byte) :
  fast_strcpy_loop src room = Some copied ->
  copied = firstn room (c_string src) /\
  forall room', (room' <= room)%nat ->
    fast_strcpy_loop src room' = Some (firstn room' (c_string src)).
Proof.
  revert src copied. induction room as [|room IH]; intros src copied H.
  - cbn in H. injection H as <-. split; [reflexivity|].
    intros room' Hle. replace room' with O by lia. reflexivity.
  - cbn [fast_strcpy_loop] in H. destruct src as [|c rest]; [discriminate|].
    cbn [c_string]. destruct (is_nul c) eqn:Hc.
    + injection H as <-. split; [reflexivity|].
      intros [|room'] Hle; [reflexivity|].
      cbn [fast_strcpy_loop]. rewrite Hc. reflexivity.
    + destruct (fast_strcpy_loop rest room) as [tail|] eqn:E; [|discriminate].
      cbn [bind] in H. injection H as <-.
      destruct (IH rest tail E) as [-> Hless].
      split; [reflexivity|].
      intros [|room'] Hle; [reflexivity|].
      cbn [fast_strcpy_loop]. rewrite Hc.
      rewrite Hless by lia. reflexivity.
Qed.

Lemma label_branch (value : Z) (config : Param.t) (k : Z) (trace : list (Z * byte)) :
  1 <= k -> (Param.value_label_count config >=? 2) = true ->
  generate_parameter_value_display_string value config k = Some trace ->
  exists label,
    trace = sequential (cut k (c_string label)) /\
    forall k', 1 <= k' <= k ->
      generate_parameter_value_display_string value config k'
      = Some (sequential (cut k' (c_string label))).
Proof.
  intros Hk Hlab. unfold generate_parameter_value_display_string.
  destruct (Z.eqb_spec k 0); [lia|]. rewrite Hlab. cbv zeta.
  set (label := label_memory config _).
  unfold fast_strcpy. destruct (Z.eqb_spec k 0); [lia|].
  destruct (fast_strcpy_loop label (Z.to_nat (k - 1))) as [copied|] eqn:E;
    [|discriminate].
  cbn [bind]. intros H. injection H as <-.
  destruct (fast_strcpy_loop_Some _ _ _ E) as [-> Hless].
  exists label. split.
  - change {| pos := 0; writes := [] |} with (seq_state []).
    rewrite fold_put_seq_state. cbn [app]. apply writes_terminated.
  - intros k' Hk'. destruct (Z.eqb_spec k' 0); [lia|].
    rewrite Hless by lia. cbn [bind].
    change {| pos := 0; writes := [] |} with (seq_state []).
    rewrite fold_put_seq_state. cbn [app]. rewrite writes_terminated.
    reflexivity.
Qed.

Lemma cut_cut (k' k : Z) (T : list byte) :
  1 <= k' <= k -> cut k' (cut k T) = cut k' T.
Proof.
  intros H. unfold cut. rewrite firstn_firstn. f_equal. lia.
Qed.

Lemma number_text_no_nul (value : Z) (config : Param.t) :
  Forall (fun c => is_nul c = false) (number_text value config).
Proof.
  assert (Hdigits : forall v, Forall (fun c => is_nul c = false) (uint32_to_string v 12)).
  { intros v. unfold uint32_to_string. cbn [Z.ltb Z.compare].
    destruct (v =? 0); [repeat constructor|].
    apply Forall_rev.
    generalize (Z.to_nat (12 - 1)). intros room. revert v.
    induction room as [|room IH]; intros v; cbn [reversed_digits]; [constructor|].
    destruct (v >? 0); [|constructor].
    constructor; [|apply IH].
    pose proof (Z.mod_pos_bound v 10 ltac:(lia)) as Hd.
    destruct (is_nul (byte_of_Z (48 + v mod 10))) eqn:E; [|reflexivity].
    apply Byte.byte_dec_bl in E.
    pose proof (byte_to_of_Z (48 + v mod 10) ltac:(lia)) as Hb.
    rewrite E in Hb. change (byte_to_Z x00) with 0 in Hb. lia. }
  unfold number_text. cbv zeta.
  apply Forall_app. split; [apply Forall_app; split; [apply Forall_app; split|]|].
  - destruct (_ <? 0); repeat constructor.
  - apply Hdigits.
  - destruct (_ >? 0); [|constructor].
    apply Forall_app. split; [apply Forall_app; split|].
    + repeat constructor.
    + apply Forall_forall. intros c Hc. apply repeat_spec in Hc. subst c.
      reflexivity.
    + apply Hdigits.
  - apply c_string_no_nul.
Qed.

End RenderFacts.

(** X14 (truncation).
    Whatever the renderer writes into a buffer of
    [out_str_size >= 2] bytes is a text without terminator followed by
    its terminator, stored at the consecutive indices from 0 on, each
    exactly once and in order; and with any smaller buffer of
    [smaller >= 2] bytes the renderer writes the first [smaller - 1]
    characters of that same text followed by the terminator: a short
    buffer cuts the text, it never changes it. *)
Theorem display_string_truncation
  (value : Z) (config : Param.t) (out_str_size smaller : Z)
  (trace : list (Z * byte)) :
  2 <= smaller <= out_str_size ->
  generate_parameter_value_display_string value config out_str_size = Some trace ->
  exists text,
    trace = sequential text /\
    Forall (fun c => is_nul c = false) text /\
    Z.of_nat (length text) <= out_str_size - 1 /\
    generate_parameter_value_display_string value config smaller
    = Some (sequential (firstn (Z.to_nat (smaller - 1)) text)).
Proof.
  intros Hk Hgen.
  destruct (Param.value_label_count config >=? 2) eqn:Hlab.
  - destruct (RenderFacts.label_branch value config out_str_size trace
                ltac:(lia) Hlab Hgen) as (label & -> & Hless).
    exists (RenderFacts.cut out_str_size (c_string label)).
    split; [reflexivity|]. split; [|split].
    + apply Forall_take, c_string_no_nul.
    + rewrite RenderFacts.cut_length by lia. lia.
    + rewrite Hless by lia.
      fold (RenderFacts.cut smaller (RenderFacts.cut out_str_size (c_string label))).
      rewrite RenderFacts.cut_cut by lia. reflexivity.
  - rewrite RenderFacts.number_branch in Hgen by (lia || exact Hlab).
    injection Hgen as <-.
    exists (RenderFacts.cut out_str_size (RenderFacts.number_text value config)).
    split; [reflexivity|]. split; [|split].
    + apply Forall_take, RenderFacts.number_text_no_nul.
    + rewrite RenderFacts.cut_length by lia. lia.
    + rewrite RenderFacts.number_branch by (lia || exact Hlab).
      fold (RenderFacts.cut smaller
              (RenderFacts.cut out_str_size (RenderFacts.number_text value config))).
      rewrite RenderFacts.cut_cut by lia. reflexivity.
Qed.

Lemma display_string_truncation_witness :
  exists text,
    [(0, x2d); (1, x31); (2, x30); (3, x30); (4, x00)] = sequential text /\
    Forall (fun c => is_nul c = false) text /\
    Z.of_nat (length text) <= 8 - 1 /\
    generate_parameter_value_display_string 0 DisplayExamples.signed_percent 3
    = Some (sequential (firstn (Z.to_nat (3 - 1)) text)).
Proof.
  apply (display_string_truncation 0 DisplayExamples.signed_percent 8 3).
  - lia.
  - vm_compute. reflexivity.
Defined.

(** ** The package hash ([calculate_package_sha256], [verify_package_sha256]) *)

(** The file [data] with the 32 bytes [stored] in the header's
    [sha256_package] field (offsets 32 to 63). *)
Definition with_package_hash (stored data : list byte) : list byte :=
  firstn 32 data ++ stored ++ skipn 64 data.

Section PackageHashFacts.

Variable crypto_blake2b : list byte -> list byte.
Hypothesis blake2b_length : forall m, length (crypto_blake2b m) = 32%nat.

Lemma with_package_hash_length (stored data : list byte) :
  (64 <= length data)%nat -> length stored = 32%nat ->
  length (with_package_hash stored data) = length data.
Proof.
  intros Hd Hs. unfold with_package_hash.
  rewrite !length_app, length_firstn, length_skipn. lia.
Qed.

Lemma firstn_exact_app (a r : list byte) (n : nat) :
  length a = n -> firstn n (a ++ r) = a.
Proof.
  intros <-. rewrite firstn_app, Nat.sub_diag, firstn_O, app_nil_r.
  apply firstn_all.
Qed.

Lemma skipn_exact_app (a r : list byte) (n : nat) :
  length a = n -> skipn n (a ++ r) = r.
Proof.
  intros <-. rewrite skipn_app, skipn_all, Nat.sub_diag. reflexivity.
Qed.

Lemma with_package_hash_prefix (stored data : list byte) :
  (64 <= length data)%nat ->
  firstn 32 (with_package_hash stored data) = firstn 32 data.
Proof.
  intros Hd. unfold with_package_hash.
  apply firstn_exact_app. rewrite length_firstn. lia.
Qed.

Lemma with_package_hash_rest (stored data : list byte) :
  (64 <= length data)%nat -> length stored = 32%nat ->
  skipn 64 (with_package_hash stored data) = skipn 64 data.
Proof.
  intros Hd Hs. unfold with_package_hash.
  rewrite app_assoc. apply skipn_exact_app.
  rewrite length_app, length_firstn. lia.
Qed.

Lemma with_package_hash_field (stored data : list byte) :
  (64 <= length data)%nat -> length stored = 32%nat ->
  firstn 32 (skipn 32 (with_package_hash stored data)) = stored.
Proof.
  intros Hd Hs. unfold with_package_hash.
  rewrite skipn_exact_app by (rewrite length_firstn; lia).
  apply firstn_exact_app, Hs.
Qed.

(** The digest [calculate_package_sha256] computes for a file of
    [file_size >= 64] bytes. *)
Definition package_digest (file_data : list byte) (file_size : Z) : list byte :=
  crypto_blake2b
    (firstn 32 file_data ++ repeat x00 32
     ++ firstn (Z.to_nat (file_size - 64)) (skipn 64 file_data)).

Lemma calculate_package_sha256_value (file_data : list byte) (file_size : Z) :
  64 <= file_size <= Z.of_nat (length file_data) ->
  calculate_package_sha256 crypto_blake2b file_data file_size
  = Some (Some (package_digest file_data file_size)).
Proof.
  intros Hsize. unfold calculate_package_sha256, Header.struct_size.
  destruct (Z.ltb_spec file_size 64); [lia|].
  rewrite load_bytes_inside by lia. cbn [bind].
  unfold package_digest, sha256_final, sha256_update, sha256_init.
  destruct (Z.gtb_spec file_size 64) as [Hgt | Hle].
  - rewrite load_bytes_inside by lia. cbn [bind app].
    do 3 apply f_equal. symmetry. apply (app_assoc (firstn 32 file_data)).
  - cbn [bind app]. replace (Z.to_nat (file_size - 64)) with O by lia.
    do 3 apply f_equal. cbn [firstn]. rewrite app_nil_r. reflexivity.
Qed.

(** X15 (package hash).
    The package hash does not depend on the content of the header's
    [sha256_package] field, and [verify_package_sha256] accepts a file
    exactly when that field holds the hash: storing the value of
    [calculate_package_sha256] in the field makes the file verify, and
    with any other 32 bytes in the field it does not. *)
Theorem package_hash_sealed (stored file_data : list byte) (file_size : Z) :
  64 <= file_size <= Z.of_nat (length file_data) ->
  length stored = 32%nat ->
  exists digest,
    calculate_package_sha256 crypto_blake2b file_data file_size
    = Some (Some digest) /\
    calculate_package_sha256 crypto_blake2b
      (with_package_hash stored file_data) file_size
    = Some (Some digest) /\
    (verify_package_sha256 crypto_blake2b
       (with_package_hash stored file_data) file_size = Some true
     <-> stored = digest).
Proof.
  intros Hsize Hstored.
  assert (Hd : (64 <= length file_data)%nat) by lia.
  pose proof (with_package_hash_length stored file_data Hd Hstored) as Hlen.
  exists (package_digest file_data file_size).
  assert (Hsame : package_digest (with_package_hash stored file_data) file_size
                  = package_digest file_data file_size).
  { unfold package_digest.
    rewrite with_package_hash_prefix, with_package_hash_rest by assumption.
    reflexivity. }
  split; [apply calculate_package_sha256_value; lia|].
  split.
  - rewrite calculate_package_sha256_value by (rewrite Hlen; lia).
    rewrite Hsame. reflexivity.
  - unfold verify_package_sha256, Header.struct_size.
    destruct (Z.ltb_spec file_size 64); [lia|].
    unfold header_at, Header.struct_size.
    rewrite load_bytes_inside by (rewrite ?Hlen; lia). cbn [bind].
    rewrite calculate_package_sha256_value by (rewrite Hlen; lia).
    cbn [bind]. rewrite Hsame.
    cbn [Header.view Header.sha256_package]. unfold field_bytes.
    change (Z.to_nat 32) with 32%nat. change (Z.to_nat 64) with 64%nat.
    change (Z.to_nat 0) with 0%nat. rewrite skipn_O.
    assert (Hfield : firstn 32 (skipn 32 (firstn 64 (with_package_hash stored file_data)))
                     = stored).
    { rewrite skipn_firstn_comm. change (64 - 32)%nat with 32%nat.
      rewrite firstn_firstn. change (Nat.min 32 32) with 32%nat.
      apply with_package_hash_field; assumption. }
    rewrite Hfield.
    split.
    + intros Hcmp. injection Hcmp as Hcmp. symmetry.
      apply secure_compare_hash_eq;
        [unfold package_digest; apply blake2b_length | exact Hstored | exact Hcmp].
    + intros ->. f_equal. apply secure_compare_refl.
Qed.

End PackageHashFacts.

Lemma package_hash_sealed_witness :
  exists digest,
    calculate_package_sha256 Fixture.stand_in_blake2b
      Packages.stripped_package 144
    = Some (Some digest) /\
    calculate_package_sha256 Fixture.stand_in_blake2b
      (with_package_hash (repeat xaa 32) Packages.stripped_package) 144
    = Some (Some digest) /\
    (verify_package_sha256 Fixture.stand_in_blake2b
       (with_package_hash (repeat xaa 32) Packages.stripped_package) 144
     = Some true
     <-> repeat xaa 32 = digest).
Proof.
  apply (package_hash_sealed Fixture.stand_in_blake2b
           Packages.stand_in_blake2b_length).
  - vm_compute. split; discriminate.
  - reflexivity.
Defined.

(** ** What validation guarantees to the renderer *)

(** The index of the value label shown for [value]. *)
Definition label_index (value : Z) (config : Param.t) : Z :=
  u16 (Z.quot (clamp_u16 value 0 1023 * (Param.value_label_count config - 1)) 1023).

Lemma clamp_u16_range (value : Z) : 0 <= clamp_u16 value 0 1023 <= 1023.
Proof.
  unfold clamp_u16.
  destruct (Z.ltb_spec value 0); [rewrite u16_small; lia|].
  destruct (Z.gtb_spec value 1023); rewrite u16_small; lia.
Qed.

Lemma label_index_range (value : Z) (config : Param.t) :
  1 <= Param.value_label_count config <= 16 ->
  0 <= label_index value config <= Param.value_label_count config - 1.
Proof.
  intros Hc. unfold label_index.
  pose proof (clamp_u16_range value) as Hv.
  set (c := clamp_u16 value 0 1023) in *.
  set (n := Param.value_label_count config - 1) in *.
  assert (Hn : 0 <= n <= 15) by lia.
  rewrite Z.quot_div_nonneg by nia.
  assert (Hq : 0 <= c * n / 1023 <= n).
  { split; [apply Z.div_pos; nia | apply Z.div_le_upper_bound; nia]. }
  rewrite u16_small; lia.
Qed.

Lemma c_string_app_terminated (a b : list byte) :
  is_string_terminated a = true -> c_string (a ++ b) = c_string a.
Proof.
  induction a as [|c a IH]; cbn; [discriminate|].
  destruct (is_nul c); cbn [orb]; [reflexivity|].
  intros H. f_equal. apply IH, H.
Qed.

Lemma terminated_app (a b : list byte) :
  is_string_terminated a = true -> is_string_terminated (a ++ b) = true.
Proof.
  unfold is_string_terminated. intros H. rewrite existsb_app, H. reflexivity.
Qed.

Lemma validated_labels_terminated (param : Param.t) :
  validate_vmprog_parameter_config_v1_0 param = ok ->
  0 <= Param.value_label_count param ->
  Param.value_label_count param <= 16 /\
  Param.min_value param <= Param.max_value param /\
  Param.display_min_value param <= Param.display_max_value param /\
  Param.control_mode param <= 35 /\
  Forall (fun label => is_string_terminated label = true)
    (firstn (Z.to_nat (Param.value_label_count param)) (Param.value_labels param)).
Proof.
  unfold validate_vmprog_parameter_config_v1_0, Param.max_value_labels.
  intros H Hc.
  destruct (Z.gtb_spec (Param.parameter_id param) 12); [discriminate|].
  destruct (Z.gtb_spec (Param.control_mode param) 35); [discriminate|].
  destruct (Z.gtb_spec (Param.value_label_count param) 16); [discriminate|].
  destruct (Z.gtb_spec (Param.min_value param) (Param.max_value param));
    [discriminate|].
  destruct (_ || _); [discriminate|].
  destruct (Z.gtb_spec (Param.display_min_value param)
              (Param.display_max_value param)); [discriminate|].
  destruct (_ || _); [discriminate|].
  destruct (first_error _ (firstn _ (Param.value_labels param))) eqn:Hlabels;
    try discriminate.
  repeat split; try lia.
  apply first_error_ok_elim in Hlabels.
  eapply Forall_impl; [|exact Hlabels]. cbn. intros label Hl.
  destruct (is_string_terminated label); [reflexivity | discriminate].
Qed.

Lemma validated_label_memory (value : Z) (param : Param.t) :
  validate_vmprog_parameter_config_v1_0 param = ok ->
  length (Param.value_labels param) = 16%nat ->
  2 <= Param.value_label_count param ->
  exists label rest,
    0 <= label_index value param < Param.value_label_count param /\
    nth_error (Param.value_labels param) (Z.to_nat (label_index value param))
    = Some label /\
    is_string_terminated label = true /\
    label_memory param (label_index value param) = label ++ rest.
Proof.
  intros Hvalid Hlen Hcount.
  destruct (validated_labels_terminated param Hvalid ltac:(lia))
    as (Hmax & _ & _ & _ & Hterm).
  pose proof (label_index_range value param ltac:(lia)) as Hidx.
  set (index := label_index value param) in *.
  destruct (nth_error (Param.value_labels param) (Z.to_nat index))
    as [label|] eqn:Hnth.
  2:{ apply nth_error_None in Hnth. lia. }
  assert (Hlabel : is_string_terminated label = true).
  { rewrite Forall_forall in Hterm. apply Hterm.
    apply nth_error_In with (n := Z.to_nat index).
    rewrite nth_error_firstn.
    destruct (Nat.ltb_spec (Z.to_nat index)
                (Z.to_nat (Param.value_label_count param))); [exact Hnth | lia]. }
  unfold label_memory, Param.max_value_labels.
  destruct (Z.leb_spec index 16); [|lia].
  apply nth_error_split in Hnth. destruct Hnth as (before & after & Hsplit & Hb).
  exists label. eexists. split; [lia|]. split; [|split; [exact Hlabel|]].
  - reflexivity.
  - rewrite Hsplit. rewrite skipn_app.
    rewrite skipn_all2 by lia. rewrite Hb, Nat.sub_diag. cbn [app skipn concat].
    rewrite <- app_assoc. reflexivity.
Qed.

Lemma terminated_label_rendered (value : Z) (param : Param.t) (out_str_size : Z)
  (label rest : list byte) :
  2 <= Param.value_label_count param -> 1 <= out_str_size ->
  is_string_terminated label = true ->
  label_memory param (label_index value param) = label ++ rest ->
  generate_parameter_value_display_string value param out_str_size
  = Some (sequential (firstn (Z.to_nat (out_str_size - 1)) (c_string label))).
Proof.
  intros Hcount Hsize Hlabel Hmem.
  unfold generate_parameter_value_display_string.
  destruct (Z.eqb_spec out_str_size 0); [lia|].
  destruct (Z.geb_spec (Param.value_label_count param) 2); [|lia].
  fold (label_index value param). rewrite Hmem.
  unfold fast_strcpy. destruct (Z.eqb_spec out_str_size 0); [lia|].
  rewrite fast_strcpy_loop_prefix by (left; apply terminated_app, Hlabel).
  cbn [bind]. rewrite c_string_app_terminated by exact Hlabel.
  change {| pos := 0; writes := [] |} with (RenderFacts.seq_state []).
  rewrite RenderFacts.fold_put_seq_state. cbn [app].
  rewrite RenderFacts.writes_terminated. reflexivity.
Qed.

(** X16 (value labels).
    A parameter record accepted by
    [validate_vmprog_parameter_config_v1_0] with at least two value
    labels: for every input and every buffer of at least one byte the
    renderer reads inside the record; the label index it computes is
    below [value_label_count], and what it writes is that label, cut to
    [out_str_size - 1] characters, followed by the terminator. *)
Theorem validated_label_shown
  (value : Z) (param : Param.t) (out_str_size : Z) :
  validate_vmprog_parameter_config_v1_0 param = ok ->
  length (Param.value_labels param) = 16%nat ->
  2 <= Param.value_label_count param -> 1 <= out_str_size ->
  exists label,
    0 <= label_index value param < Param.value_label_count param /\
    nth_error (Param.value_labels param) (Z.to_nat (label_index value param))
    = Some label /\
    generate_parameter_value_display_string value param out_str_size
    = Some (sequential (firstn (Z.to_nat (out_str_size - 1)) (c_string label))).
Proof.
  intros Hvalid Hlen Hcount Hsize.
  destruct (validated_label_memory value param Hvalid Hlen Hcount)
    as (label & rest & Hidx & Hnth & Hlabel & Hmem).
  exists label. split; [exact Hidx|]. split; [exact Hnth|].
  eapply terminated_label_rendered; eassumption.
Qed.

(** A parameter with the two value labels [Off] and [On]. *)
Definition switch_parameter : Param.t := {|
  Param.parameter_id := 1;
  Param.control_mode := Mode.boolean;
  Param.min_value := 0;
  Param.max_value := 1023;
  Param.initial_value := 0;
  Param.display_min_value := 0;
  Param.display_max_value := 1;
  Param.display_float_digits := 0;
  Param.value_label_count := 2;
  Param.reserved_pad := [0; 0];
  Param.name_label := repeat x00 32;
  Param.value_labels :=
    ([x4f; x66; x66] ++ repeat x00 29)
    :: ([x4f; x6e] ++ repeat x00 30)
    :: repeat (repeat x00 32) 14;
  Param.suffix_label := repeat x00 4;
  Param.reserved := [0; 0]
|}.

Lemma validated_label_shown_witness :
  exists label,
    0 <= label_index 1023 switch_parameter
      < Param.value_label_count switch_parameter /\
    nth_error (Param.value_labels switch_parameter)
      (Z.to_nat (label_index 1023 switch_parameter))
    = Some label /\
    generate_parameter_value_display_string 1023 switch_parameter 8
    = Some (sequential (firstn (Z.to_nat (8 - 1)) (c_string label))).
Proof.
  apply validated_label_shown.
  - reflexivity.
  - reflexivity.
  - cbn. lia.
  - lia.
Defined.

Lemma scaled_display_value_exact (value : Z) (param : Param.t) :
  0 <= Param.control_mode param ->
  -32768 <= Param.display_min_value param ->
  Param.display_min_value param <= Param.display_max_value param ->
  Param.display_max_value param <= 32767 ->
  scaled_display_value value param
  = Param.display_min_value param
    + apply_parameter_control_curve value (Param.control_mode param)
      * (Param.display_max_value param - Param.display_min_value param) / 1023 /\
  Param.display_min_value param <= scaled_display_value value param
  <= Param.display_max_value param.
Proof.
  intros Hmode Hlo Hle Hhi. unfold scaled_display_value.
  pose proof (curve_in_range value (Param.control_mode param) Hmode) as Hc.
  set (curved := apply_parameter_control_curve value (Param.control_mode param)) in *.
  set (lo := Param.display_min_value param) in *.
  set (hi := Param.display_max_value param) in *.
  assert (Hi32 : forall z, -2147483648 <= z < 2147483648 -> to_i32 z = z).
  { intros z Hz. unfold to_i32. rewrite Z.mod_small by lia. lia. }
  rewrite (Hi32 (hi - lo)) by lia.
  assert (Hprod : 0 <= curved * (hi - lo) <= 1023 * (hi - lo)) by nia.
  rewrite (Hi32 (curved * (hi - lo))) by lia.
  rewrite Z.quot_div_nonneg by lia.
  assert (Hq : 0 <= curved * (hi - lo) / 1023 <= hi - lo).
  { split; [apply Z.div_pos; lia | apply Z.div_le_upper_bound; lia]. }
  rewrite Hi32 by lia. split; [reflexivity | lia].
Qed.

(** X17 (display value).
    A parameter record accepted by the validator, whose display bounds
    are [int16_t] values: the number the renderer formats is
    [display_min + curved * (display_max - display_min) / 1023] computed
    without overflow, and lies between the two display bounds. *)
Theorem validated_display_value_in_range (value : Z) (param : Param.t) :
  validate_vmprog_parameter_config_v1_0 param = ok ->
  0 <= Param.control_mode param -> 0 <= Param.value_label_count param ->
  -32768 <= Param.display_min_value param ->
  Param.display_max_value param <= 32767 ->
  scaled_display_value value param
  = Param.display_min_value param
    + apply_parameter_control_curve value (Param.control_mode param)
      * (Param.display_max_value param - Param.display_min_value param) / 1023 /\
  Param.display_min_value param <= scaled_display_value value param
  <= Param.display_max_value param.
Proof.
  intros Hvalid Hmode Hcount Hlo Hhi.
  destruct (validated_labels_terminated param Hvalid Hcount)
    as (_ & _ & Hle & _ & _).
  apply scaled_display_value_exact; assumption.
Qed.

Lemma validated_display_value_in_range_witness :
  scaled_display_value 300 DisplayExamples.signed_percent
  = Param.display_min_value DisplayExamples.signed_percent
    + apply_parameter_control_curve 300
        (Param.control_mode DisplayExamples.signed_percent)
      * (Param.display_max_value DisplayExamples.signed_percent
         - Param.display_min_value DisplayExamples.signed_percent) / 1023 /\
  Param.display_min_value DisplayExamples.signed_percent
  <= scaled_display_value 300 DisplayExamples.signed_percent
  <= Param.display_max_value DisplayExamples.signed_percent.
Proof.
  apply validated_display_value_in_range.
  - reflexivity.
  - cbn. lia.
  - cbn. lia.
  - cbn. lia.
  - cbn. lia.
Defined.

(** ** The signed descriptor *)

Lemma existsb_nonzero (l : list Z) :
  existsb (fun r => negb (r =? 0)) l = false <-> Forall (fun r => r = 0) l.
Proof. apply reserved_all_zero. Qed.

Lemma existsb_non_nul (l : list byte) :
  existsb (fun b => negb (is_nul b)) l = false <-> Forall (fun b => b = x00) l.
Proof.
  induction l as [|b rest IH]; cbn [existsb].
  - split; [constructor | reflexivity].
  - rewrite orb_false_iff, IH. unfold is_nul. split.
    + intros [Hb Hrest]. constructor; [|exact Hrest].
      apply Byte.byte_dec_bl. destruct (Byte.eqb b x00); [reflexivity | discriminate].
    + intros H. inversion H as [|? ? Hb Hrest]; subst. auto.
Qed.

Lemma Forall_equiv {A : Type} (P Q : A -> Prop) (l : list A) :
  (forall a, P a <-> Q a) -> (Forall P l <-> Forall Q l).
Proof.
  intros H. split; intros HF; (eapply Forall_impl; [|exact HF]); intros a; apply H.
Qed.

Lemma first_error_ok_iff {A : Type} (body : A -> vmprog_validation_result)
  (l : list A) :
  first_error body l = ok <-> Forall (fun a => body a = ok) l.
Proof. split; [apply first_error_ok_elim | apply first_error_ok_intro]. Qed.

(** A used artifact slot: its type is a payload type. *)
Definition used_slot (a : Artifact.t) : Prop :=
  Artifact.type a <> EntryType.none /\
  Artifact.type a <= EntryType.bitstream_hd_dual.

(** An unused artifact slot: type [none] and a zero hash. *)
Definition unused_slot (a : Artifact.t) : Prop :=
  Artifact.type a = EntryType.none /\
  Forall (fun b => b = x00) (Artifact.sha256 a).

(** X18 (descriptor validation).
    [validate_vmprog_signed_descriptor_v1_0] returns [ok] exactly when
    the artifact count is at most 8, the three padding bytes are zero,
    each of the first [artifact_count] slots has a payload type (not
    [none], at most [bitstream_hd_dual]) and every other slot is entirely
    zero.  The fields [config_sha256], [flags] and [build_id] and the
    hashes of the used slots are not constrained. *)
Theorem validate_signed_descriptor_exact (descriptor : Descriptor.t) :
  validate_vmprog_signed_descriptor_v1_0 descriptor = ok <->
  Descriptor.artifact_count descriptor <= Descriptor.max_artifacts /\
  Forall (fun r => r = 0) (Descriptor.reserved_pad descriptor) /\
  Forall used_slot
    (firstn (Z.to_nat (Descriptor.artifact_count descriptor))
            (Descriptor.artifacts descriptor)) /\
  Forall unused_slot
    (skipn (Z.to_nat (Descriptor.artifact_count descriptor))
           (Descriptor.artifacts descriptor)).
Proof.
  unfold validate_vmprog_signed_descriptor_v1_0.
  set (used := firstn _ (Descriptor.artifacts descriptor)).
  set (unused := skipn _ (Descriptor.artifacts descriptor)).
  assert (Hused :
    first_error
      (fun a => if Artifact.type a =? EntryType.none then invalid_artifact_count
                else validate_vmprog_artifact_hash_v1_0 a) used = ok
    <-> Forall used_slot used).
  { rewrite first_error_ok_iff. apply Forall_equiv. intros a.
    unfold used_slot, validate_vmprog_artifact_hash_v1_0.
    destruct (Z.eqb_spec (Artifact.type a) 0);
      [split; [discriminate | intros [Hne _]; contradiction]|].
    destruct (Z.gtb_spec (Artifact.type a) 10);
      [split; [discriminate | intros [_ Hle]; lia]|].
    split; [intros _; split; [assumption | lia] | reflexivity]. }
  assert (Hunused :
    first_error
      (fun a => if negb (Artifact.type a =? EntryType.none)
                then invalid_artifact_count
                else if existsb (fun b => negb (is_nul b)) (Artifact.sha256 a)
                then reserved_field_not_zero else ok) unused = ok
    <-> Forall unused_slot unused).
  { rewrite first_error_ok_iff. apply Forall_equiv. intros a.
    unfold unused_slot. rewrite <- existsb_non_nul.
    destruct (Z.eqb_spec (Artifact.type a) 0); cbn [negb];
      [|split; [discriminate | intros [He _]; contradiction]].
    destruct (existsb _ (Artifact.sha256 a));
      [split; [discriminate | intros [_ Hf]; discriminate]|].
    split; [intros _; split; [assumption | reflexivity] | reflexivity]. }
  rewrite <- existsb_nonzero, <- Hused, <- Hunused.
  destruct (Z.gtb_spec (Descriptor.artifact_count descriptor)
              Descriptor.max_artifacts);
    [split; [discriminate | intros (Hle & _); lia]|].
  destruct (existsb _ (Descriptor.reserved_pad descriptor));
    [split; [discriminate | intros (_ & Hf & _); discriminate]|].
  destruct (first_error _ used) eqn:Hu;
    try (split; [discriminate | intros (_ & _ & Hf & _); discriminate]).
  split; [intros Hrest; repeat split; assumption | intros (_ & _ & _ & Hrest); exact Hrest].
Qed.

(** ** Built-in keys *)

Section KeyFacts.

Variable crypto_ed25519_check : list byte -> list byte -> list byte -> Z.

Lemma verify_with_builtin_keys_from_spec (keys : list (list byte)) (i : Z)
  (signature descriptor : list byte) :
  match verify_with_builtin_keys_from crypto_ed25519_check keys i
          signature descriptor with
  | Some k =>
      exists before key after,
        keys = before ++ key :: after /\
        k = i + Z.of_nat (length before) /\
        verify_ed25519_signature crypto_ed25519_check signature key descriptor
        = true /\
        Forall (fun key' =>
                  verify_ed25519_signature crypto_ed25519_check signature key'
                    descriptor = false) before
  | None =>
      Forall (fun key' =>
                verify_ed25519_signature crypto_ed25519_check signature key'
                  descriptor = false) keys
  end.
Proof.
  revert i. induction keys as [|key rest IH]; intros i;
    cbn [verify_with_builtin_keys_from]; [constructor|].
  destruct (verify_ed25519_signature crypto_ed25519_check signature key descriptor)
    eqn:Hkey.
  - exists [], key, rest. cbn [app length]. repeat split; [lia | exact Hkey | constructor].
  - specialize (IH (i + 1)).
    destruct (verify_with_builtin_keys_from crypto_ed25519_check rest (i + 1)
                signature descriptor) as [k|].
    + destruct IH as (before & key' & after & -> & -> & Hv & Hb).
      exists (key :: before), key', after. cbn [app length].
      repeat split; [lia | exact Hv | constructor; assumption].
    + constructor; assumption.
Qed.

(** X19 (built-in keys).
    [verify_with_builtin_keys] reports the first built-in key that
    verifies the signature: when it returns [true] with key index [k],
    [k] is below the number of built-in keys, key [k] verifies and no key
    before it does; it returns [false] exactly when no built-in key
    verifies. *)
Theorem builtin_key_first_match (signature descriptor : list byte) :
  (forall k,
     verify_with_builtin_keys crypto_ed25519_check signature descriptor = Some k ->
     0 <= k < Z.of_nat (length vmprog_public_keys) /\
     verify_ed25519_signature crypto_ed25519_check signature
       (nth (Z.to_nat k) vmprog_public_keys []) descriptor = true /\
     forall j, 0 <= j < k ->
       verify_ed25519_signature crypto_ed25519_check signature
         (nth (Z.to_nat j) vmprog_public_keys []) descriptor = false) /\
  (verify_with_builtin_keys crypto_ed25519_check signature descriptor = None <->
   Forall (fun key =>
             verify_ed25519_signature crypto_ed25519_check signature key descriptor
             = false) vmprog_public_keys).
Proof.
  unfold verify_with_builtin_keys.
  pose proof (verify_with_builtin_keys_from_spec vmprog_public_keys 0
                signature descriptor) as Hspec.
  generalize dependent vmprog_public_keys. intros keys Hspec.
  destruct (verify_with_builtin_keys_from crypto_ed25519_check keys 0
              signature descriptor) as [k0|].
  - destruct Hspec as (before & key & after & -> & -> & Hv & Hb). split.
    + intros k Hk. injection Hk as <-. rewrite length_app. cbn [length].
      split; [lia|]. split.
      * assert (Hk : Z.to_nat (0 + Z.of_nat (length before)) = length before) by lia.
        cbn [Z.add] in Hk |- *. rewrite Hk, nth_middle. exact Hv.
      * intros j Hj. rewrite app_nth1 by lia.
        rewrite Forall_forall in Hb. apply Hb. apply nth_In. lia.
    + split; [discriminate|]. intros Hall.
      apply Forall_app in Hall. destruct Hall as [_ Hall].
      inversion Hall as [|? ? Hk _]; subst. congruence.
  - split; [discriminate|]. split; [intros _; exact Hspec | reflexivity].
Qed.

End KeyFacts.

(** ** The stream readers, and the two package validators compared *)

(** A reader that has failed reports a code other than [ok]. *)
Ltac reader_failure H :=
  repeat (match type of H with
          | context [match ?x with _ => _ end] =>
              lazymatch x with
              | context [match _ with _ => _ end] => fail
              | _ => destruct x eqn:?
              end
          end; try discriminate H);
  try (injection H as <- <-; discriminate).

Section StreamReads.

Context {S : Type} {stream : vmprog_stream S}.

Lemma read_vmprog_header_done (s s' : S) (header : Header.t) :
  read_vmprog_header s = (Done header, s') ->
  exists s1 bytes,
    seek s 0 = (true, s1) /\
    read s1 Header.struct_size = (bytes, s') /\
    Z.of_nat (length bytes) = Header.struct_size /\
    header = Header.view bytes.
Proof.
  unfold read_vmprog_header.
  destruct (seek s 0) as [sought s1] eqn:Hseek.
  destruct sought; cbn [negb]; [|discriminate].
  destruct (read s1 Header.struct_size) as [bs s2] eqn:Hread.
  destruct (Z.eqb_spec (Z.of_nat (length bs)) Header.struct_size) as [Hlen|];
    cbn [negb]; [|discriminate].
  intros H. injection H as <- <-. exists s1, bs. auto.
Qed.

Lemma read_vmprog_toc_done (s s' : S) (header : Header.t) (max_toc_entries : Z)
  (toc : list Entry.t) :
  read_vmprog_toc s header max_toc_entries = (Done toc, s') ->
  Header.toc_count header <= max_toc_entries /\
  exists s1 bytes,
    seek s (Header.toc_offset header) = (true, s1) /\
    read s1 (Header.toc_count header * Entry.struct_size) = (bytes, s') /\
    Z.of_nat (length bytes) = Header.toc_count header * Entry.struct_size /\
    toc = toc_view bytes (Header.toc_count header).
Proof.
  unfold read_vmprog_toc.
  destruct (Z.gtb_spec (Header.toc_count header) max_toc_entries) as [|Hle];
    [discriminate|].
  destruct (seek s (Header.toc_offset header)) as [sought s1] eqn:Hseek.
  destruct sought; cbn [negb]; [|discriminate].
  destruct (read s1 (Header.toc_count header * Entry.struct_size)) as [bs s2]
    eqn:Hread.
  destruct (Z.eqb_spec (Z.of_nat (length bs))
              (Header.toc_count header * Entry.struct_size)) as [Hlen|];
    cbn [negb]; [|discriminate].
  intros H. injection H as <- <-. split; [lia|]. exists s1, bs. auto.
Qed.

Lemma read_payload_some (s s' : S) (entry : Entry.t) (max_payload_size : Z)
  (payload : list byte) :
  read_payload s entry max_payload_size = (Some payload, s') ->
  Entry.size entry <= max_payload_size /\
  exists s1,
    seek s (Entry.offset entry) = (true, s1) /\
    read s1 (Entry.size entry) = (payload, s') /\
    Z.of_nat (length payload) = Entry.size entry.
Proof.
  unfold read_payload.
  destruct (Z.gtb_spec (Entry.size entry) max_payload_size) as [|Hle];
    [discriminate|].
  destruct (seek s (Entry.offset entry)) as [sought s1] eqn:Hseek.
  destruct sought; cbn [negb]; [|discriminate].
  destruct (read s1 (Entry.size entry)) as [bs s2] eqn:Hread.
  destruct (Z.eqb_spec (Z.of_nat (length bs)) (Entry.size entry)) as [Hlen|];
    [|discriminate].
  intros H. injection H as <- <-. split; [lia|]. exists s1. auto.
Qed.

Lemma read_vmprog_config_done (s s' : S) (entry : Entry.t) (bytes : list byte) :
  read_vmprog_config s entry = (Done bytes, s') ->
  Entry.size entry = Config.struct_size /\
  Z.of_nat (length bytes) = Config.struct_size /\
  exists s1, seek s (Entry.offset entry) = (true, s1) /\
             read s1 Config.struct_size = (bytes, s').
Proof.
  unfold read_vmprog_config.
  destruct (Entry.type entry =? 1); cbn [negb]; [|discriminate].
  destruct (Z.eqb_spec (Entry.size entry) Config.struct_size) as [Hsz|];
    cbn [negb]; [|discriminate].
  destruct (seek s (Entry.offset entry)) as [sought s1] eqn:Hseek.
  destruct sought; cbn [negb]; [|discriminate].
  destruct (read s1 Config.struct_size) as [bs s2] eqn:Hread.
  destruct (Z.eqb_spec (Z.of_nat (length bs)) Config.struct_size) as [Hlen|];
    cbn [negb]; [|discriminate].
  intros H. injection H as <- <-. eauto.
Qed.

End StreamReads.

(** *** The mock stream *)

(** A seek followed by a complete read on the mock stream delivers the
    bytes of the vector at that place. *)
Lemma mock_fetch (s s1 s2 : mock_vmprog_stream) (off len : Z) (bytes : list byte) :
  0 <= off ->
  seek s off = (true, s1) -> read s1 len = (bytes, s2) ->
  Z.of_nat (length bytes) = len ->
  load_bytes (data_ s) off len = Some bytes /\ data_ s2 = data_ s.
Proof.
  intros Hoff Hseek Hread Hlen.
  cbn [seek read mock_stream] in Hseek, Hread.
  unfold mock_seek in Hseek.
  destruct (Z.gtb_spec off (Z.of_nat (length (data_ s)))) as [|Hin];
    [discriminate|].
  injection Hseek as <-.
  unfold mock_read in Hread. cbn [data_ position_] in Hread.
  destruct (Z.geb_spec off (Z.of_nat (length (data_ s)))) as [Hend | Hmid].
  - injection Hread as <- <-. cbn [length] in Hlen. subst len.
    split; [|reflexivity].
    rewrite load_bytes_inside by lia. reflexivity.
  - destruct (Z.ltb_spec len (Z.of_nat (length (data_ s)) - off)) as [Hlt | Hge];
      injection Hread as <- <-.
    + rewrite length_firstn, length_skipn in Hlen.
      split; [|reflexivity]. apply load_bytes_inside; lia.
    + rewrite length_firstn, length_skipn in Hlen.
      split; [|reflexivity].
      rewrite load_bytes_inside by lia. f_equal. f_equal. lia.
Qed.

(** A record view reads the first bytes of its argument only. *)
Lemma field_u8_firstn (bs : list byte) (n : nat) (off : Z) :
  (Z.to_nat off < n)%nat -> field_u8 (firstn n bs) off = field_u8 bs off.
Proof.
  intros H. unfold field_u8. rewrite nth_firstn.
  destruct (Nat.ltb_spec (Z.to_nat off) n); [reflexivity | lia].
Qed.

Lemma field_u32_firstn (bs : list byte) (n : nat) (off : Z) :
  0 <= off -> (Z.to_nat off + 3 < n)%nat ->
  field_u32 (firstn n bs) off = field_u32 bs off.
Proof.
  intros H0 H. unfold field_u32. rewrite !field_u8_firstn by lia. reflexivity.
Qed.

Lemma field_bytes_firstn (bs : list byte) (n : nat) (off len : Z) :
  (Z.to_nat off + Z.to_nat len <= n)%nat ->
  field_bytes (firstn n bs) off len = field_bytes bs off len.
Proof.
  intros H. unfold field_bytes.
  rewrite skipn_firstn_comm, firstn_firstn. f_equal. lia.
Qed.

Lemma entry_view_firstn (bs : list byte) :
  Entry.view (firstn 64 bs) = Entry.view bs.
Proof.
  unfold Entry.view.
  rewrite !field_u32_firstn by (cbn; lia).
  rewrite field_bytes_firstn by (cbn; lia). reflexivity.
Qed.

Lemma indices_succ (n : nat) :
  indices (S n) = 0 :: map (fun i => i + 1) (indices n).
Proof.
  unfold indices. cbn [seq map]. f_equal.
  rewrite <- seq_shift, !map_map. apply map_ext. intros i. lia.
Qed.

Lemma toc_at_views (data : list byte) (count : nat) (off : Z) :
  0 <= off -> off + 64 * Z.of_nat count <= Z.of_nat (length data) ->
  toc_at data off count
  = Some (map (fun i => Entry.view (skipn (Z.to_nat (off + 64 * i)) data))
              (indices count)).
Proof.
  revert off. induction count as [|count IH]; intros off Hoff Hfit;
    [reflexivity|].
  cbn [toc_at]. unfold toc_entry_at, Entry.struct_size.
  rewrite load_bytes_inside by lia. cbn [bind].
  rewrite IH by lia. cbn [bind].
  rewrite indices_succ. cbn [map]. rewrite map_map.
  f_equal. f_equal.
  - change (Z.to_nat 64) with 64%nat. rewrite entry_view_firstn.
    f_equal. f_equal. lia.
  - apply map_ext. intros i. f_equal. f_equal. lia.
Qed.

Lemma indices_In (n : nat) (i : Z) : In i (indices n) -> 0 <= i < Z.of_nat n.
Proof.
  unfold indices. intros H. apply in_map_iff in H.
  destruct H as (k & <- & Hk). apply in_seq in Hk. lia.
Qed.

Lemma toc_view_views (data : list byte) (count off : Z) :
  0 <= off -> 0 <= count ->
  toc_view (firstn (Z.to_nat (count * 64)) (skipn (Z.to_nat off) data)) count
  = map (fun i => Entry.view (skipn (Z.to_nat (off + 64 * i)) data))
        (indices (Z.to_nat count)).
Proof.
  intros Hoff Hcount. unfold toc_view. apply map_ext_in. intros i Hi.
  apply indices_In in Hi. unfold field_record, Entry.struct_size.
  rewrite <- entry_view_firstn.
  rewrite <- (entry_view_firstn (skipn (Z.to_nat (off + 64 * i)) data)).
  f_equal.
  rewrite skipn_firstn_comm, firstn_firstn, skipn_skipn.
  f_equal; [lia|]. f_equal. lia.
Qed.

Lemma field_u8_nonneg (bs : list byte) (off : Z) : 0 <= field_u8 bs off.
Proof. unfold field_u8. pose proof (byte_to_Z_range (nth (Z.to_nat off) bs x00)). lia. Qed.

Lemma field_u32_nonneg (bs : list byte) (off : Z) : 0 <= field_u32 bs off.
Proof.
  unfold field_u32.
  pose proof (field_u8_nonneg bs off). pose proof (field_u8_nonneg bs (off + 1)).
  pose proof (field_u8_nonneg bs (off + 2)). pose proof (field_u8_nonneg bs (off + 3)).
  lia.
Qed.

Lemma entry_valid_offset (e : Entry.t) (file_size : Z) :
  validate_vmprog_toc_entry_v1_0 e file_size = ok -> 64 <= Entry.offset e.
Proof.
  unfold validate_vmprog_toc_entry_v1_0, Header.struct_size.
  destruct (Entry.type e =? 0); [discriminate|].
  destruct (Z.ltb_spec (Entry.offset e) 64); cbn [orb]; [discriminate|].
  intros _. assumption.
Qed.

Lemma found_entry_offset (toc : list Entry.t) (file_size type : Z) (e : Entry.t) :
  Forall (fun e => validate_vmprog_toc_entry_v1_0 e file_size = ok) toc ->
  find_toc_entry toc type = Some e -> 64 <= Entry.offset e.
Proof.
  intros Hvalid Hfind. destruct (find_toc_entry_In _ _ _ Hfind) as [Hin _].
  rewrite Forall_forall in Hvalid. eapply entry_valid_offset, Hvalid, Hin.
Qed.

Section ValidatorsCompared.

Variable crypto_blake2b : list byte -> list byte.
Variable crypto_ed25519_check : list byte -> list byte -> list byte -> Z.

Lemma mock_header (s s1 : mock_vmprog_stream) (file_size : Z) (header : Header.t) :
  read_and_validate_vmprog_header s file_size = (Done header, s1) ->
  header_at (data_ s) 0 = Some header /\
  validate_vmprog_header_v1_0 header file_size = ok /\
  0 <= Header.toc_offset header /\
  data_ s1 = data_ s.
Proof.
  unfold read_and_validate_vmprog_header.
  destruct (read_vmprog_header s) as [[code|h] s0] eqn:Hread; [discriminate|].
  destruct (validate_vmprog_header_v1_0 h file_size) eqn:Hvalid; try discriminate.
  intros H. injection H as <- <-.
  apply read_vmprog_header_done in Hread.
  destruct Hread as (sa & bytes & Hseek & Hread & Hlen & ->).
  destruct (mock_fetch s sa s0 0 Header.struct_size bytes ltac:(lia) Hseek Hread Hlen)
    as [Hload Hdata].
  unfold header_at. rewrite Hload. cbn [bind].
  repeat split; try assumption.
  cbn [Header.view Header.toc_offset]. apply field_u32_nonneg.
Qed.

Lemma mock_toc (s s1 : mock_vmprog_stream) (header : Header.t)
  (file_size max_toc_entries : Z) (toc : list Entry.t) :
  0 <= Header.toc_offset header ->
  read_and_validate_vmprog_toc s header file_size max_toc_entries = (Done toc, s1) ->
  toc_at (data_ s) (Header.toc_offset header) (Z.to_nat (Header.toc_count header))
  = Some toc /\
  Forall (fun e => validate_vmprog_toc_entry_v1_0 e file_size = ok) toc /\
  data_ s1 = data_ s.
Proof.
  intros Hoff. unfold read_and_validate_vmprog_toc.
  destruct (read_vmprog_toc s header max_toc_entries) as [[code|t] s0] eqn:Hread;
    [discriminate|].
  destruct (first_error _ t) eqn:Hvalid; try discriminate.
  intros H. injection H as <- <-.
  apply first_error_ok_elim in Hvalid.
  apply read_vmprog_toc_done in Hread.
  destruct Hread as (_ & sa & bytes & Hseek & Hread & Hlen & ->).
  destruct (mock_fetch s sa s0 _ _ bytes Hoff Hseek Hread Hlen) as [Hload Hdata].
  apply load_bytes_Some in Hload. destruct Hload as (Hbytes & _ & Hnn & Hfit).
  unfold Entry.struct_size in *.
  assert (Hcount : 0 <= Header.toc_count header) by lia.
  rewrite Hbytes in Hvalid |- *.
  rewrite toc_view_views in Hvalid |- * by assumption.
  rewrite toc_at_views by lia.
  repeat split; assumption.
Qed.

Lemma mock_payload_hashes (toc : list Entry.t) (s s1 : mock_vmprog_stream)
  (file_size scratch_buffer_size : Z) :
  Forall (fun e => validate_vmprog_toc_entry_v1_0 e file_size = ok) toc ->
  verify_all_payload_hashes_stream crypto_blake2b s toc scratch_buffer_size
  = (ok, s1) ->
  verify_payload_hashes_loop crypto_blake2b (data_ s) file_size toc = Some ok /\
  data_ s1 = data_ s.
Proof.
  intros Hvalid. revert s.
  induction Hvalid as [|e rest He _ IH]; intros s;
    cbn [verify_all_payload_hashes_stream verify_payload_hashes_loop].
  - intros H. injection H as <-. auto.
  - destruct (Entry.size e =? 0); [apply IH|].
    destruct (Entry.size e >? scratch_buffer_size); [discriminate|].
    destruct (read_payload s e scratch_buffer_size) as [[payload|] s0] eqn:Hread;
      [|discriminate].
    apply read_payload_some in Hread.
    destruct Hread as (_ & sa & Hseek & Hread & Hlen).
    pose proof (entry_valid_offset e file_size He) as Hoff.
    destruct (mock_fetch s sa s0 (Entry.offset e) (Entry.size e) payload ltac:(lia) Hseek Hread Hlen)
      as [Hload Hdata].
    rewrite He. cbn [check]. rewrite Hload. cbn [bind].
    destruct (verify_hash crypto_blake2b payload (Entry.sha256 e));
      cbn [negb]; [|discriminate].
    intros H. apply IH in H. rewrite Hdata in H. exact H.
Qed.

Lemma mock_config_step (toc : list Entry.t) (s s1 : mock_vmprog_stream)
  (file_size : Z) (verify_hashes : bool) :
  Forall (fun e => validate_vmprog_toc_entry_v1_0 e file_size = ok) toc ->
  stream_config_step crypto_blake2b s toc verify_hashes = (ok, s1) ->
  package_config_step (data_ s) toc = Some ok /\ data_ s1 = data_ s.
Proof.
  intros Hvalid. unfold stream_config_step, package_config_step.
  destruct (find_toc_entry toc 1) as [ce|] eqn:Hfind.
  2:{ intros H. injection H as <-. auto. }
  pose proof (found_entry_offset toc file_size _ ce Hvalid Hfind) as Hoff.
  destruct (Entry.size ce =? Config.struct_size).
  2:{ intros H. injection H as <-. auto. }
  unfold read_and_validate_vmprog_config.
  destruct (read_vmprog_config s ce) as [[code|bytes] s0] eqn:Hread.
  { intros H. injection H as -> _. unfold read_vmprog_config in Hread.
    reader_failure Hread. }
  apply read_vmprog_config_done in Hread.
  destruct Hread as (_ & Hlen & sa & Hseek & Hread).
  destruct (mock_fetch s sa s0 (Entry.offset ce) Config.struct_size bytes ltac:(lia) Hseek Hread Hlen)
    as [Hload Hdata].
  unfold program_config_at. rewrite Hload. cbn [bind].
  destruct (validate_vmprog_program_config_v1_0 (Config.view bytes));
    try (intros H; injection H as Hbad _; discriminate Hbad).
  destruct (verify_hashes && negb (verify_hash crypto_blake2b bytes (Entry.sha256 ce)));
    [intros H; injection H as Hbad _; discriminate Hbad|].
  intros H. injection H as <-. auto.
Qed.

Lemma mock_signature_step (toc : list Entry.t) (s s1 : mock_vmprog_stream)
  (file_size : Z) (header : Header.t) (key : list byte) :
  Forall (fun e => validate_vmprog_toc_entry_v1_0 e file_size = ok) toc ->
  is_package_signed header = true ->
  stream_signature_step crypto_ed25519_check s toc header true (Some key)
  = (ok, s1) ->
  package_descriptor_step crypto_ed25519_check (data_ s) toc header true (Some key)
  = Some ok.
Proof.
  intros Hvalid Hsigned. unfold stream_signature_step. rewrite Hsigned.
  cbn [andb]. unfold verify_package_signature_stream.
  destruct (read_descriptor_and_signature s toc) as [[code|[d sg]] s0] eqn:Hread.
  { intros H. injection H as -> _.
    now apply read_descriptor_and_signature_failed in Hread. }
  destruct (verify_ed25519_signature crypto_ed25519_check sg key d) eqn:Hverify;
    cbn [negb]; [|discriminate].
  intros _.
  apply read_descriptor_and_signature_done in Hread.
  destruct Hread as (de & se & sa & sb & sc & Hfd & Hdsz & Hseek_d & Hread_d
                     & Hdlen & Hdvalid & Hfs & Hssz & Hseek_s & Hread_s & Hslen).
  pose proof (found_entry_offset toc file_size _ de Hvalid Hfd) as Hdoff.
  pose proof (found_entry_offset toc file_size _ se Hvalid Hfs) as Hsoff.
  destruct (mock_fetch s sa sb (Entry.offset de) Descriptor.struct_size d ltac:(lia) Hseek_d Hread_d Hdlen)
    as [Hload_d Hdata].
  destruct (mock_fetch sb sc s0 (Entry.offset se) VMPROG_SIGNATURE_SIZE sg ltac:(lia) Hseek_s Hread_s Hslen)
    as [Hload_s _].
  rewrite Hdata in Hload_s.
  unfold package_descriptor_step. rewrite Hfd, Hdsz, Z.eqb_refl, Hload_d.
  cbn [bind]. rewrite Hdvalid. cbn [check]. rewrite Hsigned. cbn [andb].
  unfold package_signature_step. rewrite Hfs, Hssz, Z.eqb_refl. cbn [negb].
  rewrite Hload_s. cbn [bind]. rewrite Hverify. reflexivity.
Qed.

(** X20 (validators compared).
    Whatever the stream-based validator accepts, the buffer-based one
    accepts too, in the setting both are written for: a package flagged
    signed, validated with signature verification and an explicit key,
    the stream being the mock stream over the file bytes.  The one check
    the buffer-based validator makes in addition is the package hash of
    the header, which the stream-based validator never looks at: it has
    to be absent (all zero) or correct when hashes are verified. *)
Theorem stream_acceptance_carries_over
  (data : list byte) (position file_size : Z) (verify_hashes : bool)
  (key : list byte) (scratch_buffer : bool) (scratch_buffer_size : Z)
  (s' : mock_vmprog_stream) (header : Header.t) :
  validate_vmprog_package_stream crypto_blake2b crypto_ed25519_check
    {| data_ := data; position_ := position |} file_size verify_hashes true
    (Some key) scratch_buffer scratch_buffer_size = (ok, s') ->
  header_at data 0 = Some header ->
  is_package_signed header = true ->
  (verify_hashes = true ->
   is_hash_zero (Header.sha256_package header) = true \/
   verify_package_sha256 crypto_blake2b data file_size = Some true) ->
  validate_vmprog_package crypto_blake2b crypto_ed25519_check data file_size
    verify_hashes true (Some key) = Some ok.
Proof.
  intros Hstream Hheader Hsigned Hpkg.
  unfold validate_vmprog_package_stream in Hstream.
  destruct (read_and_validate_vmprog_header _ file_size) as [[code|hdr] s1]
    eqn:Hh.
  { injection Hstream as -> _.
    now apply read_and_validate_vmprog_header_failed in Hh. }
  apply mock_header in Hh. cbn [data_] in Hh.
  destruct Hh as (Hh & Hvalid & Hoff & Hd1).
  rewrite Hheader in Hh. injection Hh as <-.
  destruct (read_and_validate_vmprog_toc s1 header file_size
              vmprog_stream_max_toc_entries) as [[code|toc] s2] eqn:Ht.
  { injection Hstream as -> _.
    now apply read_and_validate_vmprog_toc_failed in Ht. }
  apply mock_toc in Ht; [|exact Hoff]. rewrite Hd1 in Ht.
  destruct Ht as (Htoc & Hentries & Hd2).
  destruct (stream_hashes_step crypto_blake2b s2 toc verify_hashes scratch_buffer
              scratch_buffer_size) as [hr s3] eqn:Hhashes.
  destruct hr; try (injection Hstream as Hbad _; discriminate Hbad).
  destruct (stream_config_step crypto_blake2b s3 toc verify_hashes) as [cr s4]
    eqn:Hconfig.
  destruct cr; try (injection Hstream as Hbad _; discriminate Hbad).
  assert (Hd3 : data_ s3 = data /\
                (verify_hashes = true ->
                 verify_payload_hashes_loop crypto_blake2b data file_size toc
                 = Some ok)).
  { unfold stream_hashes_step in Hhashes. destruct verify_hashes.
    - destruct (negb scratch_buffer || (scratch_buffer_size =? 0));
        [discriminate|].
      apply (mock_payload_hashes toc s2 s3 file_size) in Hhashes;
        [|exact Hentries].
      rewrite Hd2 in Hhashes. destruct Hhashes as [Hloop Hd].
      split; [exact Hd | intros _; exact Hloop].
    - injection Hhashes as <-. split; [exact Hd2 | discriminate]. }
  destruct Hd3 as [Hd3 Hloop].
  apply (mock_config_step toc s3 s4 file_size) in Hconfig; [|exact Hentries].
  rewrite Hd3 in Hconfig. destruct Hconfig as [Hconfig Hd4].
  apply (mock_signature_step toc s4 s' file_size) in Hstream;
    [|exact Hentries | exact Hsigned].
  rewrite Hd4 in Hstream.
  pose proof (validate_header_ok_file_size _ _ Hvalid) as Hfs.
  unfold validate_vmprog_package, Header.struct_size.
  destruct (Z.ltb_spec file_size 64); [lia|].
  rewrite Hheader. cbn [bind]. rewrite Hvalid. cbn [check].
  rewrite Htoc. cbn [bind].
  rewrite (first_error_ok_intro _ _ Hentries). cbn [check].
  assert (Hstep : (if verify_hashes
                   then package_hashes_step crypto_blake2b data file_size header
                   else Some ok) = Some ok).
  { destruct verify_hashes; [|reflexivity].
    unfold package_hashes_step, verify_all_payload_hashes.
    rewrite Htoc. cbn [bind]. rewrite (Hloop eq_refl). cbn [bind check].
    destruct (Hpkg eq_refl) as [Hzero | Hverified].
    - rewrite Hzero. reflexivity.
    - destruct (is_hash_zero (Header.sha256_package header)); [reflexivity|].
      cbn [negb]. rewrite Hverified. reflexivity. }
  rewrite Hstep. cbn [bind check]. rewrite Hconfig. cbn [bind check].
  exact Hstream.
Qed.

End ValidatorsCompared.

Lemma stream_acceptance_carries_over_witness :
  validate_vmprog_package Fixture.stand_in_blake2b Fixture.stand_in_ed25519_check
    Packages.mismatched_package 8024 true true (Some Fixture.public_key)
  = Some ok.
Proof.
  apply (stream_acceptance_carries_over
           Fixture.stand_in_blake2b Fixture.stand_in_ed25519_check
           Packages.mismatched_package 0 8024 true Fixture.public_key true 8192
           {| data_ := Packages.mismatched_package; position_ := 8024 |}
           (Packages.header_of Packages.mismatched_package)).
  - vm_compute. reflexivity.
  - vm_compute. reflexivity.
  - vm_compute. reflexivity.
  - intros _. left. vm_compute. reflexivity.
Defined.

(** The side condition cannot be dropped: with 32 bytes [0xAA] stored as
    the package hash of that same package, the stream-based validator
    still accepts and the buffer-based one reports [invalid_hash]. *)
Example package_hash_checked_by_buffer_validator_only :
  fst (validate_vmprog_package_stream Fixture.stand_in_blake2b
         Fixture.stand_in_ed25519_check
         {| data_ := with_package_hash (repeat xaa 32) Packages.mismatched_package;
            position_ := 0 |}
         8024 true true (Some Fixture.public_key) true 8192) = ok /\
  validate_vmprog_package Fixture.stand_in_blake2b Fixture.stand_in_ed25519_check
    (with_package_hash (repeat xaa 32) Packages.mismatched_package)
    8024 true true (Some Fixture.public_key) = Some invalid_hash.
Proof. vm_compute. split; reflexivity. Qed.

(** *** Limits of the stream-based validator *)

Section StreamLimits.

Variable crypto_blake2b : list byte -> list byte.
Variable crypto_ed25519_check : list byte -> list byte -> list byte -> Z.
Context {S : Type} {stream : vmprog_stream S}.

Lemma stream_hashes_fit (toc : list Entry.t) (s s' : S) (scratch_buffer_size : Z) :
  0 <= scratch_buffer_size ->
  verify_all_payload_hashes_stream crypto_blake2b s toc scratch_buffer_size
  = (ok, s') ->
  Forall (fun e => Entry.size e <= scratch_buffer_size) toc.
Proof.
  intros Hscratch. revert s.
  induction toc as [|e rest IH]; intros s;
    cbn [verify_all_payload_hashes_stream]; [constructor|].
  destruct (Z.eqb_spec (Entry.size e) 0) as [Hz | Hnz].
  - intros H. constructor; [lia | eapply IH, H].
  - destruct (Z.gtb_spec (Entry.size e) scratch_buffer_size) as [|Hfit];
      [discriminate|].
    destruct (read_payload s e scratch_buffer_size) as [[payload|] s0];
      [|discriminate].
    destruct (verify_hash crypto_blake2b payload (Entry.sha256 e));
      cbn [negb]; [|discriminate].
    intros H. constructor; [lia | eapply IH, H].
Qed.

(** X21 (stream limits).
    The stream-based validator has limits the buffer-based one has not:
    it accepts a package only if the TOC has at most 16 entries (the
    header validation allows 256), and, when hashes are verified, only
    if a scratch buffer of nonzero size is supplied that holds every
    payload of the TOC. *)
Theorem stream_validator_limits (s s' : S) (file_size : Z)
  (verify_hashes verify_signature : bool) (public_key : option (list byte))
  (scratch_buffer : bool) (scratch_buffer_size : Z) :
  0 <= scratch_buffer_size ->
  validate_vmprog_package_stream crypto_blake2b crypto_ed25519_check s file_size
    verify_hashes verify_signature public_key scratch_buffer scratch_buffer_size
  = (ok, s') ->
  exists header s1 toc s2,
    read_and_validate_vmprog_header s file_size = (Done header, s1) /\
    read_and_validate_vmprog_toc s1 header file_size vmprog_stream_max_toc_entries
    = (Done toc, s2) /\
    Header.toc_count header <= 16 /\
    (verify_hashes = true ->
     scratch_buffer = true /\ 0 < scratch_buffer_size /\
     Forall (fun e => Entry.size e <= scratch_buffer_size) toc).
Proof.
  intros Hscratch. unfold validate_vmprog_package_stream.
  destruct (read_and_validate_vmprog_header s file_size) as [[code|header] s1]
    eqn:Hh.
  { intros H. injection H as -> _.
    now apply read_and_validate_vmprog_header_failed in Hh. }
  destruct (read_and_validate_vmprog_toc s1 header file_size
              vmprog_stream_max_toc_entries) as [[code|toc] s2] eqn:Ht.
  { intros H. injection H as -> _.
    now apply read_and_validate_vmprog_toc_failed in Ht. }
  intros H. exists header, s1, toc, s2.
  split; [reflexivity|]. split; [exact Ht|]. split.
  - unfold read_and_validate_vmprog_toc in Ht.
    destruct (read_vmprog_toc s1 header vmprog_stream_max_toc_entries)
      as [[code|t] s0] eqn:Hread; [discriminate|].
    apply read_vmprog_toc_done in Hread. unfold vmprog_stream_max_toc_entries in Hread.
    lia.
  - intros ->.
    destruct (stream_hashes_step crypto_blake2b s2 toc true scratch_buffer
                scratch_buffer_size) as [hr s3] eqn:Hhashes.
    destruct hr; try (injection H as Hbad _; discriminate Hbad).
    unfold stream_hashes_step in Hhashes.
    destruct scratch_buffer; cbn [negb orb] in Hhashes; [|discriminate].
    destruct (Z.eqb_spec scratch_buffer_size 0); [discriminate|].
    split; [reflexivity|]. split; [lia|].
    eapply stream_hashes_fit; eassumption.
Qed.

End StreamLimits.

Lemma stream_validator_limits_witness :
  exists header s1 toc s2,
    read_and_validate_vmprog_header signed_package_stream 716 = (Done header, s1) /\
    read_and_validate_vmprog_toc s1 header 716 vmprog_stream_max_toc_entries
    = (Done toc, s2) /\
    Header.toc_count header <= 16 /\
    (true = true ->
     true = true /\ 0 < 1024 /\
     Forall (fun e => Entry.size e <= 1024) toc).
Proof.
  apply (stream_validator_limits
           Fixture.stand_in_blake2b Fixture.stand_in_ed25519_check
           signed_package_stream
           {| data_ := Packages.two_signatures_package; position_ := 652 |}
           716 true true (Some Fixture.public_key) true 1024).
  - lia.
  - vm_compute. reflexivity.
Defined.

(** ** The package reader *)

Section ReaderFacts.

Variable crypto_blake2b : list byte -> list byte.
Context {S : Type} {stream : vmprog_stream S}.

Lemma read_and_validate_vmprog_header_into_ok (s s' : S) (file_size : Z)
  (old header : list byte) :
  read_and_validate_vmprog_header_into s file_size old = (ok, header, s') ->
  validate_vmprog_header_v1_0 (Header.view header) file_size = ok.
Proof.
  unfold read_and_validate_vmprog_header_into.
  destruct (read_vmprog_header_into s old) as [[code h] s0].
  destruct code; intros H; try discriminate H.
  injection H as Hvalid <- _. exact Hvalid.
Qed.

Lemma read_and_validate_vmprog_toc_into_ok (s s' : S) (header : Header.t)
  (file_size max_toc_entries : Z) (old toc : list byte) :
  read_and_validate_vmprog_toc_into s header file_size old max_toc_entries
  = (ok, toc, s') ->
  Header.toc_count header <= max_toc_entries /\
  Forall (fun e => validate_vmprog_toc_entry_v1_0 e file_size = ok)
    (toc_view toc (Header.toc_count header)).
Proof.
  unfold read_and_validate_vmprog_toc_into.
  destruct (read_vmprog_toc_into s header old max_toc_entries) as [[code t] s0]
    eqn:Hread.
  destruct code; intros H; try discriminate H.
  injection H as Hvalid <- _. split.
  - unfold read_vmprog_toc_into in Hread.
    destruct (Z.gtb_spec (Header.toc_count header) max_toc_entries);
      [discriminate | lia].
  - apply first_error_ok_elim, Hvalid.
Qed.

(** X22 (package reader).
    [open] sets [is_open_] when it returns [ok] and leaves it as it was
    otherwise: on a new reader, [is_open()] afterwards tells whether
    [open] succeeded, but a reader that is open stays open through a
    failed [open], with whatever that call stored in [header_] and
    [toc_].  When [open] returns [ok], the header it stored passes
    header validation for [file_size], has at most 16 TOC entries, and
    each of these entries passes entry validation. *)
Theorem reader_open_state (r r' : vmprog_package_reader) (s s' : S)
  (file_size : Z) (verify_hashes scratch_buffer : bool)
  (scratch_buffer_size : Z) (code : vmprog_validation_result) :
  reader_open crypto_blake2b r s file_size verify_hashes scratch_buffer
    scratch_buffer_size = (code, r', s') ->
  (is_open_ r' = true <-> is_open_ r = true \/ code = ok) /\
  file_size_ r' = file_size /\
  (code = ok ->
   validate_vmprog_header_v1_0 (reader_header r') file_size = ok /\
   reader_toc_count r' = Header.toc_count (reader_header r') /\
   reader_toc_count r' <= 16 /\
   Forall (fun e => validate_vmprog_toc_entry_v1_0 e file_size = ok)
     (reader_toc r')).
Proof.
  unfold reader_open.
  destruct (read_and_validate_vmprog_header_into s file_size (header_ r))
    as [[hcode header] s1] eqn:Hh.
  assert (Hkeep : forall h t c, c <> ok ->
            (is_open_ {| file_size_ := file_size; is_open_ := is_open_ r;
                         header_ := h; toc_ := t |} = true
             <-> is_open_ r = true \/ c = ok)).
  { intros h t c Hc. cbn [is_open_].
    split; [auto | intros [Ho | Hok]; [exact Ho | contradiction]]. }
  destruct hcode;
    try (intros H; injection H as <- <- _;
         split; [apply Hkeep; discriminate|];
         split; [reflexivity | discriminate]).
  apply read_and_validate_vmprog_header_into_ok in Hh.
  destruct (read_and_validate_vmprog_toc_into s1 (Header.view header) file_size
              (toc_ r) vmprog_stream_max_toc_entries) as [[tcode toc] s2] eqn:Ht.
  destruct tcode;
    try (intros H; injection H as <- <- _;
         split; [apply Hkeep; discriminate|];
         split; [reflexivity | discriminate]).
  apply read_and_validate_vmprog_toc_into_ok in Ht.
  unfold vmprog_stream_max_toc_entries in Ht. destruct Ht as [Hcount Hentries].
  assert (Hopened :
    forall s0,
      (ok, {| file_size_ := file_size; is_open_ := true;
              header_ := header; toc_ := toc |}, s0) = (code, r', s') ->
      (is_open_ r' = true <-> is_open_ r = true \/ code = ok) /\
      file_size_ r' = file_size /\
      (code = ok ->
       validate_vmprog_header_v1_0 (reader_header r') file_size = ok /\
       reader_toc_count r' = Header.toc_count (reader_header r') /\
       reader_toc_count r' <= 16 /\
       Forall (fun e => validate_vmprog_toc_entry_v1_0 e file_size = ok)
         (reader_toc r'))).
  { intros s0 H. injection H as <- <- _.
    split; [cbn [is_open_]; split; auto|].
    split; [reflexivity|]. intros _.
    unfold reader_toc_count, reader_toc, reader_header. cbn [is_open_ header_ toc_].
    repeat split; assumption. }
  cbv zeta.
  destruct verify_hashes; [|apply Hopened].
  destruct (negb scratch_buffer || (scratch_buffer_size =? 0)).
  { intros H. injection H as <- <- _.
    split; [apply Hkeep; discriminate|].
    split; [reflexivity | discriminate]. }
  destruct (verify_all_payload_hashes_stream crypto_blake2b s2 _ scratch_buffer_size)
    as [vcode s3].
  destruct vcode; try apply Hopened;
    (intros H; injection H as <- <- _;
     split; [apply Hkeep; discriminate|];
     split; [reflexivity | discriminate]).
Qed.

End ReaderFacts.

(** A stream of 16 bytes: too short for a header. *)
Definition short_stream : mock_vmprog_stream :=
  {| data_ := repeat xff 16; position_ := 0 |}.

(** The reader after a successful [open] of the signed package. *)
Definition opened_reader : vmprog_package_reader :=
  snd (fst (reader_open Fixture.stand_in_blake2b new_reader signed_package_stream
              716 true true 1024)).

Lemma reader_open_state_witness :
  (is_open_ opened_reader = true <-> is_open_ new_reader = true \/ ok = ok) /\
  file_size_ opened_reader = 716 /\
  (ok = ok ->
   validate_vmprog_header_v1_0 (reader_header opened_reader) 716 = ok /\
   reader_toc_count opened_reader = Header.toc_count (reader_header opened_reader) /\
   reader_toc_count opened_reader <= 16 /\
   Forall (fun e => validate_vmprog_toc_entry_v1_0 e 716 = ok)
     (reader_toc opened_reader)).
Proof.
  apply (reader_open_state Fixture.stand_in_blake2b new_reader opened_reader
           signed_package_stream
           (snd (reader_open Fixture.stand_in_blake2b new_reader
                   signed_package_stream 716 true true 1024))
           716 true true 1024 ok).
  vm_compute. reflexivity.
Defined.

(** A failed [open] on a reader that is open: the reader still reports
    open, with the bytes of the failed read in its header. *)
Example reopen_failure_keeps_reader_open :
  let '(code, r, _) :=
    reader_open Fixture.stand_in_blake2b opened_reader short_stream 716
      false false 0 in
  code = invalid_file_size /\ is_open_ r = true /\
  firstn 16 (header_ r) = repeat xff 16 /\
  validate_vmprog_header_v1_0 (reader_header r) 716 = invalid_magic.
Proof. vm_compute. repeat split; reflexivity. Qed.

(** ** Payloads read back from the mock stream *)

(** [read_payload] on the mock stream, at any position: it succeeds
    exactly when the payload fits the caller's buffer and lies inside
    the data, and then delivers the payload bytes of the file. *)
Lemma mock_read_payload (data : list byte) (position : Z) (entry : Entry.t)
  (max_payload_size : Z) :
  0 <= Entry.offset entry ->
  exists s',
    read_payload {| data_ := data; position_ := position |} entry max_payload_size
    = ((if Entry.size entry >? max_payload_size then None
        else load_bytes data (Entry.offset entry) (Entry.size entry)), s') /\
    data_ s' = data.
Proof.
  intros Hoff. unfold read_payload.
  destruct (Entry.size entry >? max_payload_size); [eexists; split; reflexivity|].
  cbn [seek read mock_stream]. unfold mock_seek. cbn [data_ position_].
  unfold load_bytes.
  destruct (Z.gtb_spec (Entry.offset entry) (Z.of_nat (length data))) as [Hout | Hin].
  { cbn [negb].
    destruct (Z.leb_spec 0 (Entry.offset entry)); [|lia].
    destruct (Z.leb_spec 0 (Entry.size entry)); cbn [andb];
      [|eexists; split; reflexivity].
    destruct (Z.leb_spec (Entry.offset entry + Entry.size entry)
                (Z.of_nat (length data))); [lia|].
    eexists; split; reflexivity. }
  cbn [negb]. unfold mock_read. cbn [data_ position_].
  destruct (Z.leb_spec 0 (Entry.offset entry)); [|lia]. cbn [andb].
  destruct (Z.geb_spec (Entry.offset entry) (Z.of_nat (length data))) as [Hend | Hmid].
  - cbn [length].
    destruct (Z.eqb_spec (Z.of_nat 0) (Entry.size entry)) as [Hz | Hnz].
    + rewrite <- Hz. cbn [Z.of_nat Z.leb Z.compare andb].
      destruct (Z.leb_spec (Entry.offset entry + 0) (Z.of_nat (length data)));
        [|lia].
      eexists; split; reflexivity.
    + destruct (Z.leb_spec 0 (Entry.size entry)); cbn [andb];
        [|eexists; split; reflexivity].
      destruct (Z.leb_spec (Entry.offset entry + Entry.size entry)
                  (Z.of_nat (length data))); [lia|].
      eexists; split; reflexivity.
  - destruct (Z.ltb_spec (Entry.size entry)
                (Z.of_nat (length data) - Entry.offset entry)) as [Hlt | Hge].
    + rewrite length_firstn, length_skipn.
      destruct (Z.leb_spec 0 (Entry.size entry)) as [Hnn | Hneg]; cbn [andb].
      * destruct (Z.leb_spec (Entry.offset entry + Entry.size entry)
                    (Z.of_nat (length data))); [|lia].
        destruct (Z.eqb_spec
                    (Z.of_nat (Nat.min (Z.to_nat (Entry.size entry))
                                 (length data - Z.to_nat (Entry.offset entry))))
                    (Entry.size entry)); [|lia].
        eexists; split; reflexivity.
      * destruct (Z.eqb_spec
                    (Z.of_nat (Nat.min (Z.to_nat (Entry.size entry))
                                 (length data - Z.to_nat (Entry.offset entry))))
                    (Entry.size entry)); [lia|].
        eexists; split; reflexivity.
    + rewrite length_firstn, length_skipn.
      destruct (Z.leb_spec 0 (Entry.size entry)) as [Hnn | Hneg]; [|lia].
      cbn [andb].
      destruct (Z.eqb_spec
                  (Z.of_nat (Nat.min
                     (Z.to_nat (Z.of_nat (length data) - Entry.offset entry))
                     (length data - Z.to_nat (Entry.offset entry))))
                  (Entry.size entry)) as [Heq | Hne].
      * destruct (Z.leb_spec (Entry.offset entry + Entry.size entry)
                    (Z.of_nat (length data))); [|lia].
        eexists. split.
        { f_equal. f_equal. f_equal. lia. }
        reflexivity.
      * destruct (Z.leb_spec (Entry.offset entry + Entry.size entry)
                    (Z.of_nat (length data))); [lia|].
        eexists; split; reflexivity.
Qed.

Section PayloadFacts.

Variable crypto_blake2b : list byte -> list byte.

(** X23 (payload by type).
    [find_and_read_payload] on the mock stream over the file bytes,
    whatever the stream position: without an entry of the type the
    result is [invalid_toc_entry]; otherwise the first entry of the type
    decides: the result is [ok] exactly when the payload fits the
    caller's buffer and lies inside the data, the bytes delivered are
    then those of the file at the entry's offset, and any failure is
    reported as [invalid_payload_offset]. *)
Theorem find_and_read_payload_first_entry
  (data : list byte) (position : Z) (toc : list Entry.t)
  (type max_payload_size : Z) :
  Forall (fun e => 0 <= Entry.offset e) toc ->
  exists s',
    data_ s' = data /\
    find_and_read_payload {| data_ := data; position_ := position |} toc type
      max_payload_size
    = match find_toc_entry toc type with
      | None => (invalid_toc_entry, None, s')
      | Some entry =>
          if Entry.size entry >? max_payload_size
          then (invalid_payload_offset, None, s')
          else
            match load_bytes data (Entry.offset entry) (Entry.size entry) with
            | Some payload => (ok, Some payload, s')
            | None => (invalid_payload_offset, None, s')
            end
      end.
Proof.
  intros Hoff. unfold find_and_read_payload.
  destruct (find_toc_entry toc type) as [entry|] eqn:Hfind.
  2:{ eexists. split; [|reflexivity]. reflexivity. }
  destruct (find_toc_entry_In _ _ _ Hfind) as [Hin _].
  rewrite Forall_forall in Hoff.
  destruct (mock_read_payload data position entry max_payload_size (Hoff _ Hin))
    as (s' & Hread & Hdata).
  rewrite Hread. exists s'. split; [exact Hdata|].
  destruct (Entry.size entry >? max_payload_size); [reflexivity|].
  destruct (load_bytes data (Entry.offset entry) (Entry.size entry)); reflexivity.
Qed.

(** X24 (verified payload).
    [read_and_verify_payload] on the mock stream over the file bytes: it
    returns [ok] exactly when the payload fits the caller's buffer, lies
    inside the data, and [verify_hash] accepts the entry's hash for the
    bytes of the file at the entry's offset. *)
Theorem read_and_verify_payload_exact
  (data : list byte) (position : Z) (entry : Entry.t) (max_payload_size : Z) :
  0 <= Entry.offset entry ->
  fst (fst (read_and_verify_payload crypto_blake2b
              {| data_ := data; position_ := position |} entry max_payload_size))
  = ok
  <->
  Entry.size entry <= max_payload_size /\
  exists payload,
    load_bytes data (Entry.offset entry) (Entry.size entry) = Some payload /\
    verify_hash crypto_blake2b payload (Entry.sha256 entry) = true.
Proof.
  intros Hoff. unfold read_and_verify_payload.
  destruct (mock_read_payload data position entry max_payload_size Hoff)
    as (s' & Hread & _).
  rewrite Hread.
  destruct (Z.gtb_spec (Entry.size entry) max_payload_size) as [Hbig | Hfit].
  { cbn [fst]. split; [discriminate | intros [Hle _]; lia]. }
  destruct (load_bytes data (Entry.offset entry) (Entry.size entry))
    as [payload|].
  2:{ cbn [fst]. split; [discriminate | intros (_ & p & Hp & _); discriminate]. }
  unfold verify_payload_hash.
  destruct (verify_hash crypto_blake2b payload (Entry.sha256 entry)) eqn:Hv;
    cbn [negb fst].
  - split; [intros _; split; [lia | exists payload; auto] | reflexivity].
  - split; [discriminate|]. intros (_ & p & Hp & Hvp).
    injection Hp as <-. congruence.
Qed.

End PayloadFacts.

Lemma find_and_read_payload_first_entry_witness :
  exists s',
    data_ s' = Packages.two_signatures_package /\
    find_and_read_payload
      {| data_ := Packages.two_signatures_package; position_ := 700 |}
      (Packages.toc_of Packages.two_signatures_package 3)
      EntryType.signature 64
    = match find_toc_entry (Packages.toc_of Packages.two_signatures_package 3)
              EntryType.signature with
      | None => (invalid_toc_entry, None, s')
      | Some entry =>
          if Entry.size entry >? 64
          then (invalid_payload_offset, None, s')
          else
            match load_bytes Packages.two_signatures_package
                    (Entry.offset entry) (Entry.size entry) with
            | Some payload => (ok, Some payload, s')
            | None => (invalid_payload_offset, None, s')
            end
      end.
Proof.
  apply find_and_read_payload_first_entry.
  vm_compute. repeat constructor; discriminate.
Defined.

Lemma read_and_verify_payload_exact_witness :
  fst (fst (read_and_verify_payload Fixture.stand_in_blake2b
              {| data_ := Packages.two_signatures_package; position_ := 0 |}
              (Packages.entry_of Packages.two_signatures_package 0) 1024))
  = ok
  <->
  Entry.size (Packages.entry_of Packages.two_signatures_package 0) <= 1024 /\
  exists payload,
    load_bytes Packages.two_signatures_package
      (Entry.offset (Packages.entry_of Packages.two_signatures_package 0))
      (Entry.size (Packages.entry_of Packages.two_signatures_package 0))
    = Some payload /\
    verify_hash Fixture.stand_in_blake2b payload
      (Entry.sha256 (Packages.entry_of Packages.two_signatures_package 0)) = true.
Proof.
  apply read_and_verify_payload_exact. vm_compute. discriminate.
Defined.

(** ** Endianness helpers *)

Module EndianFacts.

Lemma mask_bits (k m : Z) :
  0 <= k -> 0 <= m ->
  Z.testbit (Z.shiftl (Z.ones 8) k) m = (k <=? m) && (m <? k + 8).
Proof.
  intros Hk Hm. rewrite Z.shiftl_spec by lia.
  destruct (Z.leb_spec k m) as [Hle | Hlt]; cbn [andb].
  - rewrite Z.testbit_ones_nonneg by lia.
    destruct (Z.ltb_spec (m - k) 8); destruct (Z.ltb_spec m (k + 8));
      try reflexivity; lia.
  - apply Z.testbit_neg_r. lia.
Qed.

Lemma u32_bits (x n : Z) :
  0 <= n -> Z.testbit (u32 x) n = (n <? 32) && Z.testbit x n.
Proof.
  intros Hn. unfold u32. change 4294967296 with (2 ^ 32).
  destruct (Z.ltb_spec n 32); cbn [andb].
  - apply Z.mod_pow2_bits_low. lia.
  - apply Z.mod_pow2_bits_high. lia.
Qed.

Lemma u16_bits (x n : Z) :
  0 <= n -> Z.testbit (u16 x) n = (n <? 16) && Z.testbit x n.
Proof.
  intros Hn. unfold u16. change 65536 with (2 ^ 16).
  destruct (Z.ltb_spec n 16); cbn [andb].
  - apply Z.mod_pow2_bits_low. lia.
  - apply Z.mod_pow2_bits_high. lia.
Qed.

Lemma small_bits (v w n : Z) :
  0 <= v < 2 ^ w -> 0 <= w <= n -> Z.testbit v n = false.
Proof.
  intros Hv Hn. destruct (Z.eq_dec v 0) as [-> | Hnz]; [apply Z.bits_0|].
  apply Z.bits_above_log2; [lia|].
  assert (Z.log2 v < w) by (apply Z.log2_lt_pow2; lia). lia.
Qed.

Ltac bit_cases :=
  repeat match goal with
         | |- context [Z.ltb ?a ?b] => destruct (Z.ltb_spec a b)
         | |- context [Z.leb ?a ?b] => destruct (Z.leb_spec a b)
         end;
  cbn [andb orb];
  rewrite ?andb_true_r, ?andb_false_r, ?orb_false_r, ?orb_false_l;
  try reflexivity; try lia.

(** The bits of the byte-swapped word. *)
Lemma swap32_bits (value n : Z) :
  0 <= n ->
  Z.testbit (to_little_endian_32 true value) n
  = if n <? 8 then Z.testbit value (n + 24)
    else if n <? 16 then Z.testbit value (n + 8)
    else if n <? 24 then Z.testbit value (n - 8)
    else if n <? 32 then Z.testbit value (n - 24)
    else false.
Proof.
  intros Hn. unfold to_little_endian_32, shr32, shl32.
  change 0xFF000000 with (Z.shiftl (Z.ones 8) 24).
  change 0x00FF0000 with (Z.shiftl (Z.ones 8) 16).
  change 0x0000FF00 with (Z.shiftl (Z.ones 8) 8).
  change 0x000000FF with (Z.shiftl (Z.ones 8) 0).
  rewrite !Z.lor_spec, !u32_bits, !Z.shiftr_spec, !Z.land_spec by lia.
  rewrite !mask_bits by lia.
  destruct (Z.ltb_spec n 8).
  { rewrite (Z.shiftl_spec_low _ 8), (Z.shiftl_spec_low _ 24) by lia.
    bit_cases. }
  destruct (Z.ltb_spec n 16).
  { rewrite (Z.shiftl_spec_low _ 24) by lia.
    rewrite Z.shiftl_spec, Z.land_spec, mask_bits by lia.
    bit_cases. }
  destruct (Z.ltb_spec n 24).
  { rewrite (Z.shiftl_spec_low _ 24) by lia.
    rewrite Z.shiftl_spec, Z.land_spec, mask_bits by lia.
    bit_cases. }
  rewrite !Z.shiftl_spec, !Z.land_spec, !mask_bits by lia.
  destruct (Z.ltb_spec n 32); bit_cases.
Qed.

Lemma swap16_bits (value n : Z) :
  0 <= n ->
  Z.testbit (to_little_endian_16 true value) n
  = if n <? 8 then Z.testbit value (n + 8)
    else if n <? 16 then Z.testbit value (n - 8)
    else false.
Proof.
  intros Hn. unfold to_little_endian_16.
  change 0xFF00 with (Z.shiftl (Z.ones 8) 8).
  change 0x00FF with (Z.shiftl (Z.ones 8) 0).
  rewrite u16_bits, Z.lor_spec, Z.shiftr_spec, Z.land_spec by lia.
  rewrite mask_bits by lia.
  destruct (Z.ltb_spec n 8).
  { rewrite Z.shiftl_spec_low by lia. bit_cases. }
  rewrite Z.shiftl_spec, Z.land_spec, mask_bits by lia.
  destruct (Z.ltb_spec n 16); bit_cases.
Qed.

End EndianFacts.

(** X25 (endianness).
    The conversions to and from little-endian are inverse to each other
    on the values of their types, for either byte order of the host; on
    a big-endian host the conversion reverses the bytes: byte [i] of the
    result is byte [3 - i] (for 16 bits: [1 - i]) of the argument. *)
Theorem endian_round_trip (big_endian : bool) (v32 v16 : Z) :
  0 <= v32 < 2 ^ 32 -> 0 <= v16 < 2 ^ 16 ->
  from_little_endian_32 big_endian (to_little_endian_32 big_endian v32) = v32 /\
  from_little_endian_16 big_endian (to_little_endian_16 big_endian v16) = v16 /\
  (forall i, 0 <= i <= 3 ->
     Z.land (Z.shiftr (to_little_endian_32 true v32) (8 * i)) 255
     = Z.land (Z.shiftr v32 (8 * (3 - i))) 255) /\
  (forall i, 0 <= i <= 1 ->
     Z.land (Z.shiftr (to_little_endian_16 true v16) (8 * i)) 255
     = Z.land (Z.shiftr v16 (8 * (1 - i))) 255).
Proof.
  intros H32 H16. unfold from_little_endian_32, from_little_endian_16.
  split; [|split; [|split]].
  - destruct big_endian; [|reflexivity].
    apply Z.bits_inj'. intros n Hn.
    rewrite EndianFacts.swap32_bits by lia.
    destruct (Z.ltb_spec n 8);
      [rewrite EndianFacts.swap32_bits by lia; EndianFacts.bit_cases; f_equal; lia|].
    destruct (Z.ltb_spec n 16);
      [rewrite EndianFacts.swap32_bits by lia; EndianFacts.bit_cases; f_equal; lia|].
    destruct (Z.ltb_spec n 24);
      [rewrite EndianFacts.swap32_bits by lia; EndianFacts.bit_cases; f_equal; lia|].
    destruct (Z.ltb_spec n 32);
      [rewrite EndianFacts.swap32_bits by lia; EndianFacts.bit_cases; f_equal; lia|].
    symmetry. apply (EndianFacts.small_bits v32 32); lia.
  - destruct big_endian; [|reflexivity].
    apply Z.bits_inj'. intros n Hn.
    rewrite EndianFacts.swap16_bits by lia.
    destruct (Z.ltb_spec n 8);
      [rewrite EndianFacts.swap16_bits by lia; EndianFacts.bit_cases; f_equal; lia|].
    destruct (Z.ltb_spec n 16);
      [rewrite EndianFacts.swap16_bits by lia; EndianFacts.bit_cases; f_equal; lia|].
    symmetry. apply (EndianFacts.small_bits v16 16); lia.
  - intros i Hi. apply Z.bits_inj'. intros n Hn.
    change 255 with (Z.ones 8).
    rewrite !Z.land_spec, !Z.shiftr_spec, !Z.testbit_ones_nonneg by lia.
    destruct (Z.ltb_spec n 8); [|rewrite !andb_false_r; reflexivity].
    rewrite !andb_true_r, EndianFacts.swap32_bits by lia.
    assert (Hcases : i = 0 \/ i = 1 \/ i = 2 \/ i = 3) by lia.
    destruct Hcases as [-> | [-> | [-> | ->]]];
      EndianFacts.bit_cases; f_equal; lia.
  - intros i Hi. apply Z.bits_inj'. intros n Hn.
    change 255 with (Z.ones 8).
    rewrite !Z.land_spec, !Z.shiftr_spec, !Z.testbit_ones_nonneg by lia.
    destruct (Z.ltb_spec n 8); [|rewrite !andb_false_r; reflexivity].
    rewrite !andb_true_r, EndianFacts.swap16_bits by lia.
    assert (Hcases : i = 0 \/ i = 1) by lia.
    destruct Hcases as [-> | ->]; EndianFacts.bit_cases; f_equal; lia.
Qed.

Lemma endian_round_trip_witness :
  from_little_endian_32 true (to_little_endian_32 true 0x11223344) = 0x11223344 /\
  from_little_endian_16 true (to_little_endian_16 true 0xABCD) = 0xABCD /\
  (forall i, 0 <= i <= 3 ->
     Z.land (Z.shiftr (to_little_endian_32 true 0x11223344) (8 * i)) 255
     = Z.land (Z.shiftr 0x11223344 (8 * (3 - i))) 255) /\
  (forall i, 0 <= i <= 1 ->
     Z.land (Z.shiftr (to_little_endian_16 true 0xABCD) (8 * i)) 255
     = Z.land (Z.shiftr 0xABCD (8 * (1 - i))) 255).
Proof. apply endian_round_trip; lia. Defined.

Example endian_swap_example :
  to_little_endian_32 true 0x11223344 = 0x44332211 /\
  to_little_endian_16 true 0xABCD = 0xCDAB.
Proof. split; reflexivity. Qed.

(** ** The configuration hash *)

Lemma zero_byte_clear (bs : list byte) (off : Z) :
  0 <= off -> field_u8 bs off = 0 -> zero_byte bs off = bs.
Proof.
  intros Hoff Hz. unfold zero_byte.
  destruct (Z.leb_spec 0 off); [|lia]. cbn [andb].
  destruct (Z.ltb_spec off (Z.of_nat (length bs))) as [Hin|]; [|reflexivity].
  unfold field_u8 in Hz.
  assert (Hnth : nth (Z.to_nat off) bs x00 = x00)
    by (apply byte_to_Z_inj; rewrite Hz; reflexivity).
  assert (Hlt : (Z.to_nat off < length bs)%nat) by lia.
  clear Hz Hin. revert Hnth Hlt. generalize (Z.to_nat off). intros n. revert bs.
  induction n as [|n IH]; intros [|b bs] Hnth Hlt; cbn in *; try lia.
  - subst b. reflexivity.
  - f_equal. apply IH; [exact Hnth | lia].
Qed.

Lemma field_u8_skipn (bs : list byte) (k j : Z) :
  0 <= k -> 0 <= j ->
  field_u8 (skipn (Z.to_nat k) bs) j = field_u8 bs (k + j).
Proof.
  intros Hk Hj. unfold field_u8. rewrite nth_skipn. do 2 f_equal. lia.
Qed.

Lemma parameter_reserved_zero (param : Param.t) :
  validate_vmprog_parameter_config_v1_0 param = ok ->
  nth 0 (Param.reserved_pad param) 0 = 0 /\ nth 1 (Param.reserved_pad param) 0 = 0 /\
  nth 0 (Param.reserved param) 0 = 0 /\ nth 1 (Param.reserved param) 0 = 0.
Proof.
  unfold validate_vmprog_parameter_config_v1_0.
  repeat (match goal with
          | |- (if ?c then _ else _) = ok -> _ => destruct c; [discriminate|]
          end).
  destruct (first_error _ (firstn _ (Param.value_labels param)));
    try discriminate.
  cbn [seq first_error].
  destruct (Z.eqb_spec (nth 0 (Param.reserved_pad param) 0) 0);
    cbn [negb orb]; [|discriminate].
  destruct (Z.eqb_spec (nth 0 (Param.reserved param) 0) 0);
    cbn [negb orb]; [|discriminate].
  destruct (Z.eqb_spec (nth 1 (Param.reserved_pad param) 0) 0);
    cbn [negb orb]; [|discriminate].
  destruct (Z.eqb_spec (nth 1 (Param.reserved param) 0) 0);
    cbn [negb orb]; [|discriminate].
  auto.
Qed.

Lemma validated_config_reserved (config : Config.t) :
  validate_vmprog_program_config_v1_0 config = ok ->
  Config.parameter_count config <= Config.num_parameters /\
  Forall (fun r => r = 0) (Config.reserved config) /\
  Forall (fun p => validate_vmprog_parameter_config_v1_0 p = ok)
    (firstn (Z.to_nat (Config.parameter_count config)) (Config.parameters config)).
Proof.
  unfold validate_vmprog_program_config_v1_0.
  destruct (Z.gtb_spec (Config.parameter_count config) Config.num_parameters);
    [discriminate|].
  repeat (match goal with
          | |- (if ?c then _ else _) = ok -> _ =>
              lazymatch c with
              | negb _ || existsb _ _ => fail
              | _ => destruct c; [discriminate|]
              end
          end).
  destruct (negb (Config.reserved_pad config =? 0)); cbn [orb]; [discriminate|].
  destruct (existsb _ (Config.reserved config)) eqn:Hres; [discriminate|].
  intros Hparams. split; [lia|]. split.
  - apply reserved_all_zero, Hres.
  - apply first_error_ok_elim, Hparams.
Qed.

Lemma firstn_seq_prefix (n m start : nat) :
  (n <= m)%nat -> firstn n (seq start m) = seq start n.
Proof.
  revert m start. induction n as [|n IH]; intros m start H; [reflexivity|].
  destruct m as [|m]; [lia|]. cbn [seq firstn]. f_equal. apply IH. lia.
Qed.

Lemma firstn_indices (n m : nat) :
  (n <= m)%nat -> firstn n (indices m) = indices n.
Proof.
  intros H. unfold indices. rewrite firstn_map. f_equal.
  apply firstn_seq_prefix, H.
Qed.

Lemma fold_left_fixed {A B : Type} (f : A -> B -> A) (l : list B) (a : A) :
  (forall b, In b l -> f a b = a) -> fold_left f l a = a.
Proof.
  induction l as [|b l IH]; intros H; cbn [fold_left]; [reflexivity|].
  rewrite (H b (or_introl eq_refl)). apply IH. intros b' Hb'. apply H. now right.
Qed.

Section ConfigHashFacts.

Variable crypto_blake2b : list byte -> list byte.

(** X26 (configuration hash).
    For a configuration record that passes
    [validate_vmprog_program_config_v1_0], [calculate_config_sha256] is
    the plain hash of the record's bytes: the reserved bytes it clears
    before hashing are the ones validation has found to be zero.  The
    hash a TOC entry holds for a valid [config] payload is therefore the
    configuration hash. *)
Theorem config_hash_of_valid_config (config : list byte) :
  validate_vmprog_program_config_v1_0 (Config.view config) = ok ->
  calculate_config_sha256 crypto_blake2b config = sha256_oneshot crypto_blake2b config.
Proof.
  intros Hvalid.
  destruct (validated_config_reserved _ Hvalid) as (Hcount & Hres & Hparams).
  unfold Config.num_parameters in Hcount.
  unfold calculate_config_sha256, sha256_oneshot. cbv zeta.
  cbn [Config.view Config.reserved] in Hres.
  inversion Hres as [|? ? Hr0 Hres']; subst.
  inversion Hres' as [|? ? Hr1 _]; subst.
  rewrite (zero_byte_clear config 7370) by (lia || assumption).
  rewrite (zero_byte_clear config 7371) by (lia || assumption).
  rewrite fold_left_fixed; [reflexivity|].
  intros i Hi. apply indices_In in Hi.
  unfold Config.num_parameters in Hi.
  set (count := Config.parameter_count (Config.view config)) in *.
  assert (Hparam : validate_vmprog_parameter_config_v1_0
                     (Param.view (field_record config 506 572 i)) = ok).
  { rewrite Forall_forall in Hparams. apply Hparams.
    cbn [Config.view Config.parameters].
    rewrite firstn_map.
    apply (in_map (fun j => Param.view (field_record config 506 572 j))).
    rewrite firstn_indices by lia.
    unfold indices. apply in_map_iff. exists (Z.to_nat i). split; [lia|].
    apply in_seq. lia. }
  apply parameter_reserved_zero in Hparam.
  cbn [Param.view Param.reserved_pad Param.reserved nth] in Hparam.
  unfold field_record in Hparam.
  rewrite !field_u8_skipn in Hparam by lia.
  destruct Hparam as (Hp0 & Hp1 & Hq0 & Hq1).
  unfold zero_parameter_reserved, Param.struct_size. cbv zeta.
  rewrite (zero_byte_clear config (506 + 572 * i + 20))
    by (lia || (rewrite <- Hp0; f_equal; lia)).
  rewrite (zero_byte_clear config (506 + 572 * i + 21))
    by (lia || (rewrite <- Hp1; f_equal; lia)).
  rewrite (zero_byte_clear config (506 + 572 * i + 570))
    by (lia || (rewrite <- Hq0; f_equal; lia)).
  apply zero_byte_clear; [lia | rewrite <- Hq1; f_equal; lia].
Qed.

End ConfigHashFacts.

Lemma config_hash_of_valid_config_witness :
  calculate_config_sha256 Fixture.stand_in_blake2b Fixture.config_bytes
  = sha256_oneshot Fixture.stand_in_blake2b Fixture.config_bytes.
Proof.
  apply config_hash_of_valid_config. vm_compute. reflexivity.
Defined.

(** A record with a nonzero reserved byte (which validation rejects): the
    configuration hash is that of the record with the byte cleared, not
    the plain hash of the stored bytes. *)
Example config_hash_clears_reserved :
  let dirty := firstn (Z.to_nat 7370) Fixture.config_bytes ++ [x01; x00] in
  calculate_config_sha256 Fixture.stand_in_blake2b dirty
  = sha256_oneshot Fixture.stand_in_blake2b Fixture.config_bytes /\
  validate_vmprog_program_config_v1_0 (Config.view dirty)
  = reserved_field_not_zero.
Proof. vm_compute. split; reflexivity. Qed.

(** ** The buffer-based validator stays inside its buffer *)

Lemma field_u8_range (bs : list byte) (off : Z) : 0 <= field_u8 bs off < 256.
Proof. unfold field_u8. apply byte_to_Z_range. Qed.

Lemma field_u16_range (bs : list byte) (off : Z) : is_u16 (field_u16 bs off).
Proof.
  unfold is_u16, field_u16.
  pose proof (field_u8_range bs off). pose proof (field_u8_range bs (off + 1)).
  lia.
Qed.

Lemma field_u32_range (bs : list byte) (off : Z) : is_u32 (field_u32 bs off).
Proof.
  unfold is_u32, field_u32.
  pose proof (field_u8_range bs off). pose proof (field_u8_range bs (off + 1)).
  pose proof (field_u8_range bs (off + 2)). pose proof (field_u8_range bs (off + 3)).
  lia.
Qed.

Lemma header_view_in_range (bs : list byte) : header_in_range (Header.view bs).
Proof.
  unfold header_in_range, Header.view. cbn.
  repeat split; try apply field_u32_range; apply field_u16_range.
Qed.

Lemma entry_view_in_range (bs : list byte) : entry_in_range (Entry.view bs).
Proof.
  unfold entry_in_range, Entry.view. cbn.
  repeat split; apply field_u32_range.
Qed.

Lemma valid_header_toc_inside (header : Header.t) (file_size : Z) :
  header_in_range header ->
  validate_vmprog_header_v1_0 header file_size = ok ->
  64 <= file_size <= 1048576 /\
  64 <= Header.toc_offset header /\
  0 <= Header.toc_count header /\
  Header.toc_offset header + 64 * Header.toc_count header <= file_size.
Proof.
  intros Hrange Hvalid.
  rewrite validate_header_first_violated in Hvalid by exact Hrange.
  unfold HeaderSpec.checks, HeaderSpec.first_violated in Hvalid.
  revert Hvalid. case_comparisons; cbn [andb]; try discriminate. intros _. lia.
Qed.

Section BufferSafety.

Variable crypto_blake2b : list byte -> list byte.
Variable crypto_ed25519_check : list byte -> list byte -> list byte -> Z.

Lemma payload_loop_defined (data : list byte) (file_size : Z) (toc : list Entry.t) :
  is_u32 file_size -> file_size <= Z.of_nat (length data) ->
  Forall (entry_well_formed file_size) toc ->
  exists r, verify_payload_hashes_loop crypto_blake2b data file_size toc = Some r.
Proof.
  intros Hfs Hlen Hwf.
  induction Hwf as [|e rest He _ IH]; cbn [verify_payload_hashes_loop];
    [eauto|].
  destruct (Entry.size e =? 0); [exact IH|].
  rewrite (well_formed_entry_valid file_size e Hfs He). cbn [check].
  destruct He as (_ & Hoff & Hsz & Hfit & _).
  rewrite load_bytes_inside by lia. cbn [bind].
  destruct (verify_hash crypto_blake2b _ (Entry.sha256 e)); cbn [negb];
    [exact IH | eauto].
Qed.

Lemma verify_package_sha256_defined (data : list byte) (file_size : Z) :
  64 <= file_size <= Z.of_nat (length data) ->
  exists b, verify_package_sha256 crypto_blake2b data file_size = Some b.
Proof.
  intros Hfs. unfold verify_package_sha256, Header.struct_size.
  destruct (Z.ltb_spec file_size 64); [lia|].
  unfold header_at, Header.struct_size.
  rewrite load_bytes_inside by lia. cbn [bind].
  rewrite calculate_package_sha256_value by lia. cbn [bind]. eauto.
Qed.

(** X27 (memory safety).
    Given a buffer of at
    least [file_size] bytes, the validator returns a result without
    reading outside the buffer, for every setting of its flags, provided
    no TOC entry of the file announces a payload larger than the file.
    (An entry with a larger size field can pass
    [validate_vmprog_toc_entry_v1_0], whose bounds test wraps around;
    verifying its hash then reads past the end.) *)
Theorem package_validation_stays_in_buffer
  (data : list byte) (file_size : Z) (verify_hashes verify_signature : bool)
  (public_key : option (list byte)) :
  0 <= file_size <= Z.of_nat (length data) ->
  (forall header toc,
     header_at data 0 = Some header ->
     toc_at data (Header.toc_offset header) (Z.to_nat (Header.toc_count header))
     = Some toc ->
     Forall (fun e => Entry.size e <= file_size) toc) ->
  exists result,
    validate_vmprog_package crypto_blake2b crypto_ed25519_check data file_size
      verify_hashes verify_signature public_key = Some result.
Proof.
  intros Hlen Hsizes. unfold validate_vmprog_package, Header.struct_size.
  destruct (Z.ltb_spec file_size 64); [eauto|].
  assert (Hheader : header_at data 0 = Some (Header.view (firstn 64 data))).
  { unfold header_at, Header.struct_size. rewrite load_bytes_inside by lia.
    reflexivity. }
  rewrite Hheader. cbn [bind].
  set (header := Header.view (firstn 64 data)) in *.
  destruct (validate_vmprog_header_v1_0 header file_size) eqn:Hvalid;
    cbn [check]; try (eexists; reflexivity).
  destruct (valid_header_toc_inside header file_size
              (header_view_in_range _) Hvalid) as (Hfs & Hoff & Hcount & Hfit).
  assert (Hu32 : is_u32 file_size) by (unfold is_u32; lia).
  assert (Htoc : exists toc,
            toc_at data (Header.toc_offset header)
              (Z.to_nat (Header.toc_count header)) = Some toc /\
            Forall entry_in_range toc).
  { rewrite toc_at_views by lia. eexists. split; [reflexivity|].
    apply Forall_forall. intros e He. apply in_map_iff in He.
    destruct He as (i & <- & _). apply entry_view_in_range. }
  destruct Htoc as (toc & Htoc & Hranges).
  rewrite Htoc. cbn [bind].
  destruct (first_error _ toc) eqn:Hentries; cbn [check];
    try (eexists; reflexivity).
  apply first_error_ok_elim in Hentries.
  specialize (Hsizes header toc Hheader Htoc).
  assert (Hwf : Forall (entry_well_formed file_size) toc).
  { rewrite Forall_forall in *. intros e He.
    apply valid_entry_well_formed; auto. }
  assert (Hhashes : exists r,
            (if verify_hashes
             then package_hashes_step crypto_blake2b data file_size header
             else Some ok) = Some r).
  { destruct verify_hashes; [|eauto].
    unfold package_hashes_step, verify_all_payload_hashes.
    rewrite Htoc. cbn [bind].
    destruct (payload_loop_defined data file_size toc Hu32 ltac:(lia) Hwf)
      as (r & ->).
    cbn [bind]. destruct r; cbn [check]; try (eexists; reflexivity).
    destruct (is_hash_zero (Header.sha256_package header)); cbn [negb];
      [eauto|].
    destruct (verify_package_sha256_defined data file_size ltac:(lia))
      as (b & ->).
    cbn [bind]. destruct b; cbn [negb]; eauto. }
  destruct Hhashes as (hr & ->). cbn [bind].
  destruct hr; cbn [check]; try (eexists; reflexivity).
  destruct (config_step_value data file_size toc ltac:(lia) Hwf) as (cr & -> & _).
  cbn [bind]. destruct cr; cbn [check]; try (eexists; reflexivity).
  destruct (descriptor_step_value crypto_ed25519_check data file_size toc header
              verify_signature public_key ltac:(lia) Hwf) as (dr & -> & _).
  eauto.
Qed.

End BufferSafety.

Lemma package_validation_stays_in_buffer_witness :
  exists result,
    validate_vmprog_package Fixture.stand_in_blake2b Fixture.stand_in_ed25519_check
      Packages.two_signatures_package 716 true true (Some Fixture.public_key)
    = Some result.
Proof.
  apply package_validation_stays_in_buffer.
  - vm_compute. split; discriminate.
  - intros header toc Hheader Htoc.
    vm_compute in Hheader. injection Hheader as <-.
    vm_compute in Htoc. injection Htoc as <-.
    repeat constructor; vm_compute; discriminate.
Defined.

(** A file of 128 bytes whose only TOC entry announces a bitstream of
    [2^32 - 1] bytes at offset 64. *)
Definition oversized_package : list byte :=
  Fixture.encode_header 0 128 1
  ++ Fixture.le_bytes 4 EntryType.fpga_bitstream ++ Fixture.le_bytes 4 0
  ++ Fixture.le_bytes 4 64 ++ Fixture.le_bytes 4 4294967295
  ++ Fixture.zeros 32 ++ Fixture.zeros 16.

(** Without hash verification the buffer-based validator accepts it; with
    hash verification it reads outside the 128 bytes, whatever the hash
    function. *)
Example oversized_package_read :
  forall blake2b ed25519_check,
    validate_vmprog_package blake2b ed25519_check oversized_package 128
      false false None = Some ok /\
    validate_vmprog_package blake2b ed25519_check oversized_package 128
      true false None = None.
Proof. intros blake2b ed25519_check. split; reflexivity. Qed.

(** ** From package validation to the display *)

Lemma In_take {A : Type} (a : A) (n : nat) (l : list A) :
  In a (firstn n l) -> In a l.
Proof.
  intros H. rewrite <- (firstn_skipn n l). apply in_or_app. now left.
Qed.

(** X28 (validated configuration renders).
    End to end: for a configuration record that passes
    [validate_vmprog_program_config_v1_0], every one of its
    [parameter_count] used parameters can be rendered for every input
    value into every buffer of at least two bytes; the renderer reads
    inside the record and writes a text without terminator, of at most
    [out_str_size - 1] characters, followed by its terminator, at the
    consecutive indices from 0 on. *)
Theorem validated_config_renders
  (config : list byte) (param : Param.t) (value out_str_size : Z) :
  validate_vmprog_program_config_v1_0 (Config.view config) = ok ->
  In param
    (firstn (Z.to_nat (Config.parameter_count (Config.view config)))
       (Config.parameters (Config.view config))) ->
  2 <= out_str_size ->
  exists text,
    generate_parameter_value_display_string value param out_str_size
    = Some (sequential text) /\
    Z.of_nat (length text) <= out_str_size - 1 /\
    Forall (fun c => is_nul c = false) text.
Proof.
  intros Hvalid Hin Hsize.
  destruct (validated_config_reserved _ Hvalid) as (_ & _ & Hparams).
  rewrite Forall_forall in Hparams. pose proof (Hparams param Hin) as Hparam.
  assert (Hview : exists bs, param = Param.view bs).
  { apply In_take in Hin. cbn [Config.view Config.parameters] in Hin.
    apply in_map_iff in Hin. destruct Hin as (i & <- & _). eauto. }
  destruct Hview as (bs & ->).
  destruct (Z.geb_spec (Param.value_label_count (Param.view bs)) 2)
    as [Hlabels | Hnumber].
  - destruct (validated_label_memory value (Param.view bs) Hparam)
      as (label & rest & _ & _ & Hlabel & Hmem).
    { cbn [Param.view Param.value_labels].
      rewrite length_map. apply RenderFacts.indices_length. }
    { lia. }
    rewrite (terminated_label_rendered value (Param.view bs) out_str_size
               label rest) by (lia || assumption).
    eexists. split; [reflexivity|]. split.
    + rewrite length_firstn. lia.
    + apply Forall_take, c_string_no_nul.
  - rewrite RenderFacts.number_branch.
    + eexists. split; [reflexivity|]. split.
      * rewrite RenderFacts.cut_length by lia. lia.
      * apply Forall_take, RenderFacts.number_text_no_nul.
    + exact Hsize.
    + destruct (Z.geb_spec (Param.value_label_count (Param.view bs)) 2);
        [lia | reflexivity].
Qed.

(** The valid configuration of the fixtures with one parameter in use,
    whose record is all zero. *)
Definition one_parameter_config : list byte :=
  firstn (Z.to_nat 502) Fixture.config_bytes
  ++ Fixture.le_bytes 2 1
  ++ skipn (Z.to_nat 504) Fixture.config_bytes.

Lemma validated_config_renders_witness :
  exists text,
    generate_parameter_value_display_string 512
      (Param.view (field_record one_parameter_config 506 572 0)) 8
    = Some (sequential text) /\
    Z.of_nat (length text) <= 8 - 1 /\
    Forall (fun c => is_nul c = false) text.
Proof.
  apply (validated_config_renders one_parameter_config).
  - vm_compute. reflexivity.
  - vm_compute. left. reflexivity.
  - lia.
Defined.
